(** * codebase-mcp: the incremental code graph and the parser registry

    A shallow embedding of [src/ast-graph.ts] (class [ASTGraphBuilder]),
    of the parser registry [DefaultASTParserRegistry] and of the type
    declarations of [ast-types.ts], followed by the properties of the
    specification that concern them.

    Modelling choices.
    - JavaScript strings are [string]s; [toLowerCase] folds the ASCII
      letters only.
    - A JavaScript [Map] keeps its keys in insertion order, and that order
      is observable (the cross-reference loops iterate over [graph.files]).
      Maps are therefore association lists with the [Map] operations
      [get], [has], [set] and [delete].
    - [Symbol] objects are shared: the array [fileAST.symbols] and the map
      [graph.symbols] hold the same objects, and [findSymbolReferences]
      assigns to their [references] field.  Symbol objects therefore live in
      a store and are named by addresses.  Syntax nodes, dependencies and
      file records are never assigned to by the graph builder and are plain
      values.
    - The methods of [ViteMCPServer] that change the file index or the
      graph are functions of the server's fields; what they take from
      [node:path], [node:fs] and [RegExp] are arguments. *)

From stdpp Require Import base tactics option list gmap strings.
From Stdlib Require Import Ascii Permutation DecimalString DecimalNat.

Set Warnings "-register-all".

(** ** JavaScript strings *)

Module Js.

(** [s.startsWith(p)] *)
Fixpoint startsWith (s p : string) : bool :=
  match p, s with
  | EmptyString, _ => true
  | String _ _, EmptyString => false
  | String b p', String a s' => bool_decide (a = b) && startsWith s' p'
  end.

(** [s.includes(p)]: [p] occurs in [s] at some position. *)
Fixpoint includes (s p : string) : bool :=
  match s with
  | EmptyString => startsWith EmptyString p
  | String _ s' => startsWith s p || includes s' p
  end.

(** [s.endsWith(p)] *)
Fixpoint endsWith (s p : string) : bool :=
  match s with
  | EmptyString => bool_decide (p = EmptyString)
  | String _ s' => bool_decide (s = p) || endsWith s' p
  end.

(** [s.split(sep)] for a one-character separator. *)
Fixpoint split (sep : ascii) (s : string) : list string :=
  match s with
  | EmptyString => [EmptyString]
  | String c s' =>
      if bool_decide (c = sep) then EmptyString :: split sep s'
      else match split sep s' with
           | seg :: segs => String c seg :: segs
           | [] => [String c EmptyString]
           end
  end.

(** [arr.pop()], the value it returns. *)
Definition pop {A} (l : list A) : option A := last l.

Definition lowerAscii (c : ascii) : ascii :=
  let n := nat_of_ascii c in
  if (65 <=? n)%nat && (n <=? 90)%nat then ascii_of_nat (n + 32) else c.

(** [s.toLowerCase()] *)
Fixpoint toLowerCase (s : string) : string :=
  match s with
  | EmptyString => EmptyString
  | String c s' => String (lowerAscii c) (toLowerCase s')
  end.

(** [o || ''] for an optional string: [undefined] and the empty string are
    both falsy. *)
Definition orEmpty (o : option string) : string :=
  match o with
  | Some s => if bool_decide (s = EmptyString) then EmptyString else s
  | None => EmptyString
  end.

(** [x === y] where [x] may be [undefined] and [y] is a string. *)
Definition optStrictEq (x : option string) (y : string) : bool :=
  match x with
  | Some s => bool_decide (s = y)
  | None => false
  end.

(** ** JavaScript [Map], with its insertion order *)

Definition Map (V : Type) : Type := list (string * V).

Fixpoint get {V} (k : string) (m : Map V) : option V :=
  match m with
  | [] => None
  | (k', v) :: m' => if bool_decide (k' = k) then Some v else get k m'
  end.

Definition has {V} (k : string) (m : Map V) : bool :=
  match get k m with Some _ => true | None => false end.

(** [m.set(k, v)]: an existing key keeps its position, a new key goes last. *)
Fixpoint set {V} (k : string) (v : V) (m : Map V) : Map V :=
  match m with
  | [] => [(k, v)]
  | (k', v') :: m' =>
      if bool_decide (k' = k) then (k, v) :: m' else (k', v') :: set k v m'
  end.

(** [m.delete(k)] *)
Fixpoint delete {V} (k : string) (m : Map V) : Map V :=
  match m with
  | [] => []
  | (k', v) :: m' =>
      if bool_decide (k' = k) then delete k m' else (k', v) :: delete k m'
  end.

Definition keys {V} (m : Map V) : list string := m.*1.

End Js.

(** ** The data model of [ast-types.ts] *)

Record Position := mkPosition { line : nat; column : nat }.

Record Span := mkSpan { start : Position; end_ : Position }.

Record NodeLocation := mkNodeLocation {
  nl_filePath : string;
  nl_start : Position;
  nl_end : Position
}.

(** [Record<string, any>]: the values the parser stores are booleans,
    numbers and strings. *)
Inductive MetaValue :=
  | MetaBool (b : bool)
  | MetaNumber (n : Z)
  | MetaString (s : string).

Definition Metadata := list (string * MetaValue).

Inductive ASTNode := mkASTNode {
  node_id : string;
  node_type : string;
  node_name : option string;
  node_location : NodeLocation;
  node_children : list ASTNode;
  node_metadata : Metadata
}.

Inductive SymbolType :=
  | SymFunction | SymClass | SymVariable | SymImport | SymExport
  | SymInterface | SymType.

Inductive ReferenceType :=
  | RefDefinition | RefUsage | RefCall | RefImport | RefExport.

Record SymbolReference := mkSymbolReference {
  ref_filePath : string;
  ref_location : Span;
  ref_type : ReferenceType
}.

Record ExportInfo := mkExportInfo {
  exp_isDefault : bool;
  exportName : option string;
  exportedAs : option string
}.

Record ImportInfo := mkImportInfo {
  source : string;
  imp_isDefault : bool;
  importName : option string;
  importedAs : option string
}.

Record Symbol := mkSymbol {
  sym_id : string;
  sym_name : string;
  sym_type : SymbolType;
  sym_filePath : string;
  sym_location : Span;
  sym_references : list SymbolReference;
  sym_exports : option ExportInfo;
  sym_imports : option ImportInfo;
  sym_metadata : Metadata
}.

Inductive DependencyType := DepImport | DepRequire | DepDynamicImport.

Record Dependency := mkDependency {
  dep_from : string;
  dep_to : string;
  dep_type : DependencyType;
  specifiers : list string
}.

(** The address of a [Symbol] object. *)
Definition addr := nat.

(** The symbol objects that exist, by address. *)
Abbreviation Store := (gmap addr Symbol).

Record FileAST := mkFileAST {
  filePath : string;
  ast : ASTNode;
  fa_symbols : list addr;
  fa_dependencies : list Dependency;
  fa_exports : list addr;
  fa_imports : list addr
}.

Record CodeGraph := mkCodeGraph {
  nodes : Js.Map ASTNode;
  symbols : Js.Map addr;
  dependencies : list Dependency;
  files : Js.Map FileAST
}.

(** The state an [ASTGraphBuilder] method runs in: its [graph] field and the
    symbol objects reachable from it and from its arguments. *)
Record State := mkState {
  store : Store;
  graph : CodeGraph
}.

#[global] Instance Position_eq_dec : EqDecision Position.
Proof. solve_decision. Defined.
#[global] Instance Span_eq_dec : EqDecision Span.
Proof. solve_decision. Defined.
#[global] Instance ReferenceType_eq_dec : EqDecision ReferenceType.
Proof. solve_decision. Defined.
#[global] Instance SymbolType_eq_dec : EqDecision SymbolType.
Proof. solve_decision. Defined.
#[global] Instance SymbolReference_eq_dec : EqDecision SymbolReference.
Proof. solve_decision. Defined.

(** ** [ASTGraphBuilder] *)

(** [new ASTGraphBuilder()] *)
Definition emptyGraph : CodeGraph :=
  {| nodes := []; symbols := []; dependencies := []; files := [] |}.

(** [importSource.replace(/\.(js|ts|jsx|tsx)$/, '')]: the pattern is anchored
    at the end of the input, so the first position where it matches is the
    one where the rest of the string is exactly one of the four suffixes. *)
Fixpoint stripSourceExtension (s : string) : string :=
  match s with
  | EmptyString => EmptyString
  | String c s' =>
      if bool_decide (s = ".js") || bool_decide (s = ".ts")
         || bool_decide (s = ".jsx") || bool_decide (s = ".tsx")
      then EmptyString
      else String c (stripSourceExtension s')
  end.

Definition isSymbolFromFile (importSource targetFilePath : string) : bool :=
  if Js.startsWith importSource "./" || Js.startsWith importSource "../"
  then Js.includes targetFilePath (stripSourceExtension importSource)
  else false.

(** The condition of the inner [if] of [findSymbolReferences]. *)
Definition importsSymbol (otherSymbol symbol : Symbol) : bool :=
  match sym_type otherSymbol, sym_imports otherSymbol with
  | SymImport, Some info =>
      negb (bool_decide (source info = EmptyString))
      && isSymbolFromFile (source info) (sym_filePath symbol)
      && (Js.optStrictEq (importName info) (sym_name symbol)
          || Js.optStrictEq (importedAs info) (sym_name symbol))
  | _, _ => false
  end.

Definition definitionReference (symbol : Symbol) : SymbolReference :=
  {| ref_filePath := sym_filePath symbol;
     ref_location := sym_location symbol;
     ref_type := RefDefinition |}.

Definition importReference (otherSymbol : Symbol) : SymbolReference :=
  {| ref_filePath := sym_filePath otherSymbol;
     ref_location := sym_location otherSymbol;
     ref_type := RefImport |}.

(** The local array [references] of [findSymbolReferences] when the loops
    are done.  [continue] leaves the array as it is. *)
Definition collectReferences (h : Store) (fs : Js.Map FileAST)
    (symbol : Symbol) : list SymbolReference :=
  fold_left
    (fun references '(path, fileAST) =>
       if bool_decide (path = sym_filePath symbol) then references
       else
         fold_left
           (fun references a =>
              match h !! a with
              | Some otherSymbol =>
                  if importsSymbol otherSymbol symbol
                  then references ++ [importReference otherSymbol]
                  else references
              | None => references
              end)
           (fa_symbols fileAST) references)
    fs [definitionReference symbol].

Definition withReferences (s : Symbol) (refs : list SymbolReference) : Symbol :=
  {| sym_id := sym_id s; sym_name := sym_name s; sym_type := sym_type s;
     sym_filePath := sym_filePath s; sym_location := sym_location s;
     sym_references := refs;
     sym_exports := sym_exports s; sym_imports := sym_imports s;
     sym_metadata := sym_metadata s |}.

(** [findSymbolReferences(symbol)], [symbol] being the object at address [a].
    An address of a file record always names an object; nothing is done for
    one that does not. *)
Definition findSymbolReferences (a : addr) (st : State) : State :=
  match store st !! a with
  | Some symbol =>
      {| store := <[a := withReferences symbol
                           (collectReferences (store st) (files (graph st)) symbol)]>
                    (store st);
         graph := graph st |}
  | None => st
  end.

Definition buildCrossReferences (st : State) : State :=
  fold_left
    (fun st '(_, fileAST) =>
       fold_left (fun st a => findSymbolReferences a st) (fa_symbols fileAST) st)
    (files (graph st)) st.

Fixpoint addNodeToGraph (node : ASTNode) (m : Js.Map ASTNode) : Js.Map ASTNode :=
  match node with
  | mkASTNode id _ _ _ children _ =>
      fold_left (fun m child => addNodeToGraph child m) children (Js.set id node m)
  end.

Fixpoint removeNodeFromGraph (node : ASTNode) (m : Js.Map ASTNode) : Js.Map ASTNode :=
  match node with
  | mkASTNode id _ _ _ children _ =>
      fold_left (fun m child => removeNodeFromGraph child m) children (Js.delete id m)
  end.

(** [fileAST.symbols.forEach(symbol => this.graph.symbols.set(symbol.id, symbol))] *)
Definition addSymbols (h : Store) (syms : list addr) (m : Js.Map addr) : Js.Map addr :=
  fold_left
    (fun m a => match h !! a with
                | Some symbol => Js.set (sym_id symbol) a m
                | None => m
                end)
    syms m.

(** [fileAST.symbols.forEach(symbol => this.graph.symbols.delete(symbol.id))] *)
Definition removeSymbols (h : Store) (syms : list addr) (m : Js.Map addr) : Js.Map addr :=
  fold_left
    (fun m a => match h !! a with
                | Some symbol => Js.delete (sym_id symbol) m
                | None => m
                end)
    syms m.

Definition addFile (fileAST : FileAST) (st : State) : State :=
  let g := graph st in
  buildCrossReferences
    {| store := store st;
       graph :=
         {| files := Js.set (filePath fileAST) fileAST (files g);
            nodes := addNodeToGraph (ast fileAST) (nodes g);
            symbols := addSymbols (store st) (fa_symbols fileAST) (symbols g);
            dependencies := dependencies g ++ fa_dependencies fileAST |} |}.

Definition removeFile (path : string) (st : State) : State :=
  let g := graph st in
  match Js.get path (files g) with
  | None => st
  | Some fileAST =>
      buildCrossReferences
        {| store := store st;
           graph :=
             {| files := Js.delete path (files g);
                symbols := removeSymbols (store st) (fa_symbols fileAST) (symbols g);
                nodes := removeNodeFromGraph (ast fileAST) (nodes g);
                dependencies :=
                  filter (fun dep => dep_from dep ≠ path) (dependencies g) |} |}
  end.

(** The body of the loop of [getDependencyGraph]:
    [depGraph.get(dep.from)!.push(dep.to)] extends, in place, the array
    stored under [dep.from]. *)
Definition addEdge (depGraph : Js.Map (list string)) (dep : Dependency)
    : Js.Map (list string) :=
  let depGraph :=
    if negb (Js.has (dep_from dep) depGraph)
    then Js.set (dep_from dep) [] depGraph
    else depGraph in
  match Js.get (dep_from dep) depGraph with
  | Some tos => Js.set (dep_from dep) (tos ++ [dep_to dep]) depGraph
  | None => depGraph
  end.

Definition getDependencyGraph (g : CodeGraph) : Js.Map (list string) :=
  fold_left addEdge (dependencies g) [].

(** [findSymbolReferencesAcrossProject(symbolName)] *)
Definition findSymbolReferencesAcrossProject (symbolName : string) (st : State)
    : list SymbolReference :=
  fold_left
    (fun references '(_, a) =>
       match store st !! a with
       | Some symbol =>
           if bool_decide (sym_name symbol = symbolName)
           then references ++ sym_references symbol
           else references
       | None => references
       end)
    (symbols (graph st)) [].

(** ** [DefaultASTParserRegistry] *)

(** What a [catch] clause can receive: an [Error] with its [message], or any
    other value, given by the string [String(error)] makes of it. *)
Inductive Thrown :=
  | ThrownError (message : string)
  | ThrownValue (asString : string).

(** The outcome of running a function body, or of awaiting the promise it
    returns: a value, or a fault (a [throw], a rejected promise). *)
Inductive Completion (A : Type) :=
  | Normal (a : A)
  | Abrupt (e : Thrown).

Arguments Normal {A} a.
Arguments Abrupt {A} e.

(** [try { body } catch (error) { handler }] *)
Definition tryCatch {A} (body : Completion A) (handler : Thrown → Completion A)
    : Completion A :=
  match body with
  | Normal a => Normal a
  | Abrupt e => handler e
  end.

Record ParseResult := mkParseResult {
  success : bool;
  pr_ast : option ASTNode;
  pr_symbols : option (list Symbol);
  pr_dependencies : option (list Dependency);
  error : option string
}.

(** The interface [ASTParser].  [canParse] is declared to return a boolean;
    [parse] returns a promise, awaited by its caller. *)
Record ASTParser := mkASTParser {
  canParse : string → string → bool;
  parse : string → string → Completion ParseResult
}.

(** The private field [parsers]. *)
Definition DefaultASTParserRegistry := list ASTParser.

Definition registerParser (parser : ASTParser) (parsers : DefaultASTParserRegistry)
    : DefaultASTParserRegistry :=
  parsers ++ [parser].

(** [getParser], which also records the arguments of every call it makes to
    a capability predicate. *)
Fixpoint getParserTraced (parsers : DefaultASTParserRegistry)
    (filePath extension : string) : list (string * string) * option ASTParser :=
  match parsers with
  | [] => ([], None)
  | parser :: rest =>
      if canParse parser filePath extension
      then ([(filePath, extension)], Some parser)
      else let '(calls, found) := getParserTraced rest filePath extension in
           ((filePath, extension) :: calls, found)
  end.

Definition getParser (parsers : DefaultASTParserRegistry)
    (filePath extension : string) : option ASTParser :=
  (getParserTraced parsers filePath extension).2.

(** [filePath.split('.').pop()?.toLowerCase() || ''] *)
Definition deriveExtension (filePath : string) : string :=
  Js.orEmpty (Js.toLowerCase <$> Js.pop (Js.split "." filePath)).

(** [error instanceof Error ? error.message : String(error)] *)
Definition errorText (e : Thrown) : string :=
  match e with
  | ThrownError message => message
  | ThrownValue asString => asString
  end.

Definition failure (message : string) : ParseResult :=
  {| success := false; pr_ast := None; pr_symbols := None;
     pr_dependencies := None; error := Some message |}.

Definition noParserMessage (filePath extension : string) : string :=
  "No parser available for file: " +:+ filePath
    +:+ " (extension: " +:+ extension +:+ ")".

Definition parseErrorMessage (filePath : string) (e : Thrown) : string :=
  "Parse error for " +:+ filePath +:+ ": " +:+ errorText e.

(** [parseFile], with the calls made to capability predicates. *)
Definition parseFileTraced (parsers : DefaultASTParserRegistry)
    (content filePath : string)
    : list (string * string) * Completion ParseResult :=
  let extension := deriveExtension filePath in
  let '(calls, parser) := getParserTraced parsers filePath extension in
  (calls,
   match parser with
   | None => Normal (failure (noParserMessage filePath extension))
   | Some parser =>
       tryCatch (parse parser content filePath)
         (fun e => Normal (failure (parseErrorMessage filePath e)))
   end).

Definition parseFile (parsers : DefaultASTParserRegistry)
    (content filePath : string) : Completion ParseResult :=
  (parseFileTraced parsers content filePath).2.

(** [JavaScriptTypeScriptParser.canParse] *)
Definition jsTsCanParse (filePath extension : string) : bool :=
  bool_decide (extension ∈ ["js"; "jsx"; "ts"; "tsx"; "mjs"; "cjs"]).

(** [createSymbol] of the JavaScript/TypeScript parser builds the identifier
    [`${filePath}:${name}:${type}:${line}`]; [typeName] writes the kind. *)
Definition typeName (t : SymbolType) : string :=
  match t with
  | SymFunction => "function" | SymClass => "class" | SymVariable => "variable"
  | SymImport => "import" | SymExport => "export"
  | SymInterface => "interface" | SymType => "type"
  end.

(** [String(n)] for a line number. *)
Definition showNumber (n : nat) : string :=
  DecimalString.NilZero.string_of_uint (Nat.to_uint n).

(** [createSymbol(name, type, node, metadata)] of the parser for the file
    [filePath]; [loc] is [node.loc], which Babel may leave undefined. *)
Definition createSymbol (filePath name : string) (type : SymbolType)
    (loc : option Span) (metadata : Metadata) : Symbol :=
  {| sym_id :=
       filePath +:+ ":" +:+ name +:+ ":" +:+ typeName type +:+ ":"
         +:+ from_option (fun l => showNumber (line (start l))) "undefined" loc;
     sym_name := name;
     sym_type := type;
     sym_filePath := filePath;
     sym_location :=
       {| start := {| line := from_option (fun l => line (start l)) 0 loc;
                      column := from_option (fun l => column (start l)) 0 loc |};
          end_ := {| line := from_option (fun l => line (end_ l)) 0 loc;
                     column := from_option (fun l => column (end_ l)) 0 loc |} |};
     sym_references := [];
     sym_exports := None;
     sym_imports := None;
     sym_metadata := metadata |}.

(** ** Views and invariants of the graph *)

(** A symbol without its derived state. *)
Definition eraseReferences (s : Symbol) : Symbol := withReferences s [].

(** Two stores hold the same objects when they differ at most in
    [references] fields. *)
Definition sameObjects (h h' : Store) : Prop :=
  ∀ a, eraseReferences <$> h !! a = eraseReferences <$> h' !! a.

(** The symbol objects of the file records, in iteration order. *)
Definition fileSymbols (fs : Js.Map FileAST) : list addr :=
  flat_map (fun e => fa_symbols e.2) fs.

(** A node and everything below it, in the order [addNodeToGraph] visits. *)
Fixpoint subnodes (node : ASTNode) : list ASTNode :=
  match node with
  | mkASTNode _ _ _ _ children _ => node :: flat_map subnodes children
  end.

(** The symbol stored in the graph under an identifier. *)
Definition symbolAt (st : State) (id : string) : option Symbol :=
  Js.get id (symbols (graph st)) ≫= (store st !!.).

(** What the parser guarantees of a record: its symbols are objects that
    carry the record's own path. *)
Definition record_ok (h : Store) (r : FileAST) : Prop :=
  Forall (fun a => sym_filePath <$> h !! a = Some (filePath r)) (fa_symbols r).

Definition files_ok (h : Store) (fs : Js.Map FileAST) : Prop :=
  Forall (fun e => filePath e.2 = e.1 ∧ record_ok h e.2) fs.

(** Invariant (a) for symbols: an entry of the symbol map is filed under the
    symbol's identifier and belongs to a record of the file map. *)
Definition symbols_ok (h : Store) (fs : Js.Map FileAST) (syms : Js.Map addr) : Prop :=
  Forall (fun e => sym_id <$> h !! e.2 = Some e.1 ∧ e.2 ∈ fileSymbols fs) syms.

Definition consistent (st : State) : Prop :=
  NoDup (Js.keys (files (graph st)))
  ∧ files_ok (store st) (files (graph st))
  ∧ symbols_ok (store st) (files (graph st)) (symbols (graph st)).

(** The states [addFile] and [removeFile] can produce from an empty graph and
    freshly parsed symbols ([references: []]), whatever the order of calls. *)
Inductive reached : State → Prop :=
  | reached_new (h : Store) :
      map_Forall (fun _ s => sym_references s = []) h →
      reached {| store := h; graph := emptyGraph |}
  | reached_addFile (st : State) (r : FileAST) :
      reached st → record_ok (store st) r → reached (addFile r st)
  | reached_removeFile (st : State) (path : string) :
      reached st → reached (removeFile path st).

(** The update procedure of the callers: remove the prior record of the
    path, then add the new one. *)
Definition ingest (r : FileAST) (st : State) : State :=
  addFile r (removeFile (filePath r) st).

(** *** The cross-reference formula, in the words of the specification *)

Definition dropLast (n : nat) (s : string) : string :=
  String.substring 0 (String.length s - n) s.

(** The specifier with its source-file extension stripped. *)
Definition spec_stripExtension (s : string) : string :=
  if Js.endsWith s ".js" || Js.endsWith s ".ts" then dropLast 3 s
  else if Js.endsWith s ".jsx" || Js.endsWith s ".tsx" then dropLast 4 s
  else s.

(** [I] is an import of [S]: [I] is in a different file, its kind is import,
    its source is a relative specifier which, stripped, occurs in the path
    of the file owning [S], and it imports the name of [S]. *)
Definition spec_imports (I S : Symbol) : Prop :=
  sym_filePath I ≠ sym_filePath S
  ∧ sym_type I = SymImport
  ∧ ∃ info, sym_imports I = Some info
      ∧ (Js.startsWith (source info) "./" ∨ Js.startsWith (source info) "../")
      ∧ Js.includes (sym_filePath S) (spec_stripExtension (source info))
      ∧ (importName info = Some (sym_name S) ∨ importedAs info = Some (sym_name S)).

#[global] Instance spec_imports_dec I S : Decision (spec_imports I S).
Proof.
  unfold spec_imports.
  destruct (sym_imports I) as [info|].
  - destruct (decide (sym_filePath I ≠ sym_filePath S
      ∧ sym_type I = SymImport
      ∧ (Js.startsWith (source info) "./" ∨ Js.startsWith (source info) "../")
      ∧ Js.includes (sym_filePath S) (spec_stripExtension (source info))
      ∧ (importName info = Some (sym_name S) ∨ importedAs info = Some (sym_name S))))
      as [Hy|Hn].
    + left. destruct Hy as (?&?&?&?&?). eauto 10.
    + right. intros (?&?&info'&[= <-]&?&?&?). apply Hn. eauto 10.
  - right. intros (?&?&info'&[=]&?).
Defined.

Definition spec_references (st : State) (S : Symbol) : list SymbolReference :=
  definitionReference S ::
  (importReference <$>
     filter (fun I => spec_imports I S)
       (omap (store st !!.) (fileSymbols (files (graph st))))).

(** *** Invariants of the update procedure *)

(** Every symbol of a file record has the reference list the last rebuild
    gave it. *)
Definition references_current (st : State) : Prop :=
  Forall
    (fun a => sym_references <$> store st !! a
              = collectReferences (store st) (files (graph st)) <$> store st !! a)
    (fileSymbols (files (graph st))).

(** The edges leaving a file are the dependencies of its record, and every
    edge leaves a file of the file map. *)
Definition edges_owned (g : CodeGraph) : Prop :=
  Forall
    (fun e => filter (fun dep => dep_from dep = e.1) (dependencies g)
              = fa_dependencies e.2)
    (files g)
  ∧ Forall (fun dep => dep_from dep ∈ Js.keys (files g)) (dependencies g).

(** The identifiers of a record, each with the symbol it last names. *)
Definition ownIndex (h : Store) (r : FileAST) : Js.Map addr :=
  addSymbols h (fa_symbols r) [].

(** The symbol map files every record's identifiers under that record's
    symbols. *)
Definition symbols_indexed (st : State) : Prop :=
  Forall
    (fun e => Forall (fun ia => Js.get ia.1 (symbols (graph st)) = Some ia.2)
                (ownIndex (store st) e.2))
    (files (graph st)).

Definition settled (st : State) : Prop :=
  consistent st ∧ references_current st ∧ edges_owned (graph st)
  ∧ symbols_indexed st.



(** ** The end-to-end scenario of the specification

    [a.ts] contains [export function add(x, y) { return x + y }] and [b.ts]
    contains [import { add } from './a'].  The records are those the
    JavaScript/TypeScript parser builds for the two texts: Babel visits the
    export declaration before the function declaration inside it, and the
    syntax tree of a record is its [Program] node alone. *)

Module Example.

Definition lineSpan (l c1 c2 : nat) : Span :=
  {| start := {| line := l; column := c1 |};
     end_ := {| line := l; column := c2 |} |}.

Definition program (path : string) (width : nat) : ASTNode :=
  {| node_id := path +:+ ":0"; node_type := "File"; node_name := Some "Program";
     node_location :=
       {| nl_filePath := path; nl_start := {| line := 1; column := 0 |};
          nl_end := {| line := 1; column := width |} |};
     node_children := []; node_metadata := [] |}.

Definition withExports (s : Symbol) (e : ExportInfo) : Symbol :=
  {| sym_id := sym_id s; sym_name := sym_name s; sym_type := sym_type s;
     sym_filePath := sym_filePath s; sym_location := sym_location s;
     sym_references := sym_references s;
     sym_exports := Some e; sym_imports := sym_imports s;
     sym_metadata := sym_metadata s |}.

Definition withImports (s : Symbol) (i : ImportInfo) : Symbol :=
  {| sym_id := sym_id s; sym_name := sym_name s; sym_type := sym_type s;
     sym_filePath := sym_filePath s; sym_location := sym_location s;
     sym_references := sym_references s;
     sym_exports := sym_exports s; sym_imports := Some i;
     sym_metadata := sym_metadata s |}.

Definition exportOf (path name : string) (loc : Span) : Symbol :=
  withExports (createSymbol path name SymExport (Some loc) [])
    {| exp_isDefault := false; exportName := Some name; exportedAs := None |}.

Definition functionOf (path name : string) (loc : Span) (params : Z) : Symbol :=
  createSymbol path name SymFunction (Some loc)
    [("async", MetaBool false); ("generator", MetaBool false);
     ("params", MetaNumber params)].

Definition importOf (path name from : string) (loc : Span) : Symbol :=
  withImports (createSymbol path name SymImport (Some loc) [])
    {| source := from; imp_isDefault := false;
       importName := Some name; importedAs := Some name |}.

(** The symbol objects of the scenario for the files [pa] and [pb]: at 0 and
    1 those of [a.ts], at 2 that of [b.ts], at 3 and 4 those of a second
    parse of [a.ts], at 5 that of [export function sub(x, y) ...] parsed
    from an edited [a.ts]. *)
Definition objects (pa pb : string) : Store :=
  list_to_map
    [(0, exportOf pa "add" (lineSpan 1 0 42));
     (1, functionOf pa "add" (lineSpan 1 7 42) 2);
     (2, importOf pb "add" "./a" (lineSpan 1 0 25));
     (3, exportOf pa "add" (lineSpan 1 0 42));
     (4, functionOf pa "add" (lineSpan 1 7 42) 2);
     (5, functionOf pa "sub" (lineSpan 1 7 42) 2)].

Definition recordA (pa : string) : FileAST :=
  {| filePath := pa; ast := program pa 42;
     fa_symbols := [0; 1]; fa_dependencies := [];
     fa_exports := [0]; fa_imports := [] |}.

Definition recordB (pb : string) : FileAST :=
  {| filePath := pb; ast := program pb 25;
     fa_symbols := [2];
     fa_dependencies :=
       [{| dep_from := pb; dep_to := "./a"; dep_type := DepImport;
           specifiers := ["add"] |}];
     fa_exports := []; fa_imports := [2] |}.


(** [a.ts] after [add] was renamed to [sub] and its export removed. *)
Definition recordA2 (pa : string) : FileAST :=
  {| filePath := pa; ast := program pa 35;
     fa_symbols := [5]; fa_dependencies := [];
     fa_exports := []; fa_imports := [] |}.

Definition new (pa pb : string) : State :=
  {| store := objects pa pb; graph := emptyGraph |}.

(** A third file, [c.ts], with the text of [b.ts]; its import is the object
    at 6. *)
Definition recordC (pc : string) : FileAST :=
  {| filePath := pc; ast := program pc 25;
     fa_symbols := [6];
     fa_dependencies :=
       [{| dep_from := pc; dep_to := "./a"; dep_type := DepImport;
           specifiers := ["add"] |}];
     fa_exports := []; fa_imports := [6] |}.

Definition new3 (pa pb pc : string) : State :=
  {| store := <[6 := importOf pc "add" "./a" (lineSpan 1 0 25)]> (objects pa pb);
     graph := emptyGraph |}.

(** The paths the server passes: absolute ones. *)
Definition aTs : string := "/project/src/a.ts".
Definition bTs : string := "/project/src/b.ts".

(** Paths that keep a leading [./]. *)
Definition aRel : string := "./a.ts".
Definition bRel : string := "./b.ts".
Definition cRel : string := "./c.ts".

Definition addId (pa : string) : string := pa +:+ ":add:function:1".

End Example.

(** ** The loops of [findSymbolReferences] and [buildCrossReferences], unrolled *)

(** The import references the symbols [syms] of one file contribute to [S]. *)
Definition referencesFrom (h : Store) (S : Symbol) (syms : list addr)
    : list SymbolReference :=
  flat_map
    (fun a => match h !! a with
              | Some otherSymbol =>
                  if importsSymbol otherSymbol S then [importReference otherSymbol]
                  else []
              | None => []
              end)
    syms.

Definition importReferences (h : Store) (fs : Js.Map FileAST) (S : Symbol)
    : list SymbolReference :=
  flat_map
    (fun e => if bool_decide (e.1 = sym_filePath S) then []
              else referencesFrom h S (fa_symbols e.2))
    fs.

(** [findSymbolReferences] called on each object of a list in turn. *)
Definition rebuild (l : list addr) (st : State) : State :=
  fold_left (fun st a => findSymbolReferences a st) l st.

(** Objects carry no import reference from their own file: an invariant of
    every sequence of calls. *)
Definition no_self_import (s : Symbol) : Prop :=
  Forall (fun ref => ref_type ref = RefImport → ref_filePath ref ≠ sym_filePath s)
    (sym_references s).

(** The states of a graph maintained as section 4.2 of the specification
    requires: [addFile] is called only for a path that has no record. *)
Inductive maintained : State → Prop :=
  | maintained_new (h : Store) :
      maintained {| store := h; graph := emptyGraph |}
  | maintained_addFile (st : State) (r : FileAST) :
      maintained st → record_ok (store st) r →
      Js.has (filePath r) (files (graph st)) = false →
      maintained (addFile r st)
  | maintained_removeFile (st : State) (path : string) :
      maintained st → maintained (removeFile path st).

(** ** Adapters and states used as instances *)

Module Instances.

(** A result as the JavaScript/TypeScript parser returns it on success. *)
Definition parsed (path : string) : ParseResult :=
  {| success := true; pr_ast := Some (Example.program path 0);
     pr_symbols := Some []; pr_dependencies := Some []; error := None |}.

(** An adapter with the capability predicate of the JavaScript/TypeScript
    parser; its [parse] faults on an empty text. *)
Definition jsTs : ASTParser :=
  {| canParse := jsTsCanParse;
     parse := fun content path =>
       if bool_decide (content = "") then Abrupt (ThrownError "Unexpected token")
       else Normal (parsed path) |}.

(** An adapter for files named without an extension. *)
Definition makefiles : ASTParser :=
  {| canParse := fun _ extension => bool_decide (extension = "makefile");
     parse := fun _ path => Normal (parsed path) |}.

Definition registry : DefaultASTParserRegistry :=
  registerParser makefiles (registerParser jsTs []).

(** Both files of the scenario ingested, [a.ts] first. *)
Definition both (pa pb : string) : State :=
  ingest (Example.recordB pb) (ingest (Example.recordA pa) (Example.new pa pb)).

End Instances.

(** ** The query surface of [ASTGraphBuilder] *)

(** [Array.from(this.graph.symbols.values())], and the objects a
    [for (const [_, symbol] of this.graph.symbols)] loop visits: the symbol
    objects of the map in its order, given by their contents at the time of
    the call. *)
Definition symbolValues (st : State) : list Symbol :=
  omap (fun e => store st !! e.2) (symbols (graph st)).

Definition getSymbolsByType (type : SymbolType) (st : State) : list Symbol :=
  filter (fun symbol => sym_type symbol = type) (symbolValues st).

Definition getSymbolByName (name : string) (st : State) : list Symbol :=
  filter (fun symbol => sym_name symbol = name) (symbolValues st).

Definition getFileSymbols (path : string) (st : State) : list Symbol :=
  filter (fun symbol => sym_filePath symbol = path) (symbolValues st).

(** [if (!m.has(k)) { m.set(k, []); } m.get(k)!.push(x)] *)
Definition pushUnder {A} (k : string) (x : A) (m : Js.Map (list A)) : Js.Map (list A) :=
  let m := if negb (Js.has k m) then Js.set k [] m else m in
  match Js.get k m with
  | Some xs => Js.set k (xs ++ [x]) m
  | None => m
  end.

Definition getSymbolsByFile (st : State) : Js.Map (list Symbol) :=
  fold_left (fun symbolsByFile symbol => pushUnder (sym_filePath symbol) symbol symbolsByFile)
    (symbolValues st) [].

(** [if (symbol.exports)]: an object is truthy. *)
Definition getExportedSymbols (st : State) : Js.Map (list Symbol) :=
  fold_left
    (fun exportsByFile symbol =>
       match sym_exports symbol with
       | Some _ => pushUnder (sym_filePath symbol) symbol exportsByFile
       | None => exportsByFile
       end)
    (symbolValues st) [].

Definition getImportedSymbols (st : State) : Js.Map (list Symbol) :=
  fold_left
    (fun importsByFile symbol =>
       match sym_imports symbol with
       | Some _ => pushUnder (sym_filePath symbol) symbol importsByFile
       | None => importsByFile
       end)
    (symbolValues st) [].

(** [getCallGraph()] returns the dependency graph. *)
Definition getCallGraph (g : CodeGraph) : Js.Map (list string) := getDependencyGraph g.

(** The value [generateGraphSummary] returns.  [symbolsByType] is an object
    used as a map from kind names to numbers; its keys are kept in the order
    they were first assigned. *)
Record GraphSummary := mkGraphSummary {
  totalNodes : nat;
  totalSymbols : nat;
  totalFiles : nat;
  symbolsByType : Js.Map nat;
  dependencyCount : nat
}.

(** [symbolsByType[symbol.type] = (symbolsByType[symbol.type] || 0) + 1] *)
Definition countType (symbolsByType : Js.Map nat) (symbol : Symbol) : Js.Map nat :=
  Js.set (typeName (sym_type symbol))
    (default 0 (Js.get (typeName (sym_type symbol)) symbolsByType) + 1)
    symbolsByType.

Definition generateGraphSummary (st : State) : GraphSummary :=
  {| totalNodes := length (nodes (graph st));
     totalSymbols := length (symbols (graph st));
     totalFiles := length (files (graph st));
     symbolsByType := fold_left countType (symbolValues st) [];
     dependencyCount := length (dependencies (graph st)) |}.

(** ** Sequences of [set] and [delete] calls *)

(** [m.set(k, v)] for each pair of a list in turn. *)
Definition setAll {V} (kvs : list (string * V)) (m : Js.Map V) : Js.Map V :=
  fold_left (fun m kv => Js.set kv.1 kv.2 m) kvs m.

(** [m.delete(k)] for each key of a list in turn. *)
Definition deleteAll {V} (ks : list string) (m : Js.Map V) : Js.Map V :=
  fold_left (fun m k => Js.delete k m) ks m.

(** The identifiers [addSymbols] files the symbols of a list under, each
    with its symbol. *)
Definition symbolEntries (h : Store) (syms : list addr) : list (string * addr) :=
  omap (fun a => (fun s => (sym_id s, a)) <$> h !! a) syms.

(** The identifiers [addNodeToGraph] files the nodes of a tree under. *)
Definition nodeEntries (node : ASTNode) : list (string * ASTNode) :=
  (fun n => (node_id n, n)) <$> subnodes node.

(** The last part of the identifier [createSymbol] builds:
    [`${node.loc?.start.line}`]. *)
Definition lineText (loc : option Span) : string :=
  from_option (fun l => showNumber (line (start l))) "undefined" loc.

(** ** The server: the file index and the graph it maintains

    [ViteMCPServer] keeps a map [fileIndex] from relative paths to file
    descriptions and an [ASTGraphBuilder]; the methods below are the only
    ones that change either.  A handler is taken to run to its end before
    the next one starts.  The field [projectStructure], which
    [analyzeProject] computes from the index and which no method below
    reads, is left out, and with it the calls of [analyzeProject]. *)

Inductive Category :=
  | CatSource | CatConfig | CatTest | CatDoc | CatBuild | CatOther.

#[global] Instance Category_eq_dec : EqDecision Category.
Proof. solve_decision. Defined.

Record FileInfo := mkFileInfo {
  fi_path : string;
  fi_relativePath : string;
  fi_type : string;
  fi_size : N;
  fi_category : Category;
  fi_ast : option FileAST
}.

Record CodebaseConfig := mkCodebaseConfig {
  rootPath : string;
  includePatterns : list string;
  excludePatterns : list string;
  maxFileSize : N;
  maxDepth : Z
}.

(** What the server takes from [node:path] and from [RegExp]:
    [regExp_test source text] is [new RegExp(source).test(text)]. *)
Record Platform := mkPlatform {
  path_join : string → string → string;
  path_relative : string → string → string;
  path_extname : string → string;
  path_basename : string → string;
  regExp_test : string → string → bool
}.

(** [fs.Stats], as far as the server reads it. *)
Record Stats := mkStats {
  isDirectory : bool;
  isFile : bool;
  st_size : N
}.

(** The file system as a handler finds it: the answers of [existsSync] and
    of the promises of [stat], [readFile(_, "utf-8")] and [readdir]. *)
Record FileSystem := mkFileSystem {
  existsSync : string → bool;
  stat : string → Completion Stats;
  readFile : string → Completion string;
  readdir : string → Completion (list string)
}.

(** [McpError], by the place that throws it. *)
Inductive McpError :=
  | PathDoesNotExist (path : string)
  | NoPackageJson
  | FailedToIngest (cause : Thrown)
  | NothingIngested.

(** The symbol objects of a parse result are new objects: [allocate] gives
    each an address no object has, in the order of the array. *)
Fixpoint allocate (symbols : list Symbol) (h : Store) : list addr * Store :=
  match symbols with
  | [] => ([], h)
  | symbol :: symbols =>
      let a := fresh (dom h) in
      let '(addrs, h') := allocate symbols (<[a := symbol]> h) in
      (a :: addrs, h')
  end.

(** The object literal [fileAST] of [addOrUpdateFile] and of
    [parseSourceFiles]; [h] holds the symbols at [addrs]. *)
Definition makeFileAST (path : string) (tree : ASTNode) (h : Store)
    (addrs : list addr) (deps : list Dependency) : FileAST :=
  {| filePath := path; ast := tree; fa_symbols := addrs;
     fa_dependencies := deps;
     fa_exports := filter (fun a => is_Some (h !! a ≫= sym_exports)) addrs;
     fa_imports := filter (fun a => is_Some (h !! a ≫= sym_imports)) addrs |}.

Module Server.

(** The fields of [ViteMCPServer].  [watching] tells whether the loop of
    [startFileWatcher] is there to deliver events. *)
Record ViteMCPServer := mkServer {
  codebaseConfig : option CodebaseConfig;
  fileIndex : Js.Map FileInfo;
  astRegistry : DefaultASTParserRegistry;
  astGraph : State;
  watching : bool
}.

(** The constructor, for the parsers it registers. *)
Definition create (parsers : DefaultASTParserRegistry) : ViteMCPServer :=
  {| codebaseConfig := None; fileIndex := []; astRegistry := parsers;
     astGraph := {| store := ∅; graph := emptyGraph |}; watching := false |}.

Definition buildIncludePatterns (includeTests includeDocs : bool) : list string :=
  ["src/**"; "public/**"; "package.json"; "vite.config.*"; "tsconfig.json"]
  ++ (if includeTests
      then ["**/*.test.*"; "**/*.spec.*"; "tests/**"; "__tests__/**"] else [])
  ++ (if includeDocs then ["README.*"; "*.md"; "docs/**"] else []).

Definition buildExcludePatterns : list string :=
  ["node_modules"; "dist"; "build"; ".git"; ".vscode"; ".idea"; "coverage";
   ".nyc_output"; ".env"; ".env.local"; ".env.production"; "*.log";
   ".DS_Store"; "Thumbs.db"].

(** [pattern.replace(/\*/g, ".*")] *)
Fixpoint replaceStars (pattern : string) : string :=
  match pattern with
  | EmptyString => EmptyString
  | String c rest =>
      if bool_decide (c = "*"%char) then String "." (String "*" (replaceStars rest))
      else String c (replaceStars rest)
  end.

(** [s.slice(1)] *)
Definition slice1 (s : string) : string :=
  match s with
  | EmptyString => EmptyString
  | String _ rest => rest
  end.

(** [ext || "unknown"] *)
Definition orUnknown (ext : string) : string :=
  if bool_decide (ext = "") then "unknown" else ext.

(** [list.includes(x)] for an array of strings. *)
Definition oneOf (items : list string) (x : string) : bool := bool_decide (x ∈ items).

Definition withAst (fileInfo : FileInfo) (fileAST : option FileAST) : FileInfo :=
  {| fi_path := fi_path fileInfo; fi_relativePath := fi_relativePath fileInfo;
     fi_type := fi_type fileInfo; fi_size := fi_size fileInfo;
     fi_category := fi_category fileInfo; fi_ast := fileAST |}.

Section handlers.

Variable P : Platform.

Definition shouldExclude (config : option CodebaseConfig) (relativePath : string)
    : bool :=
  match config with
  | None => false
  | Some config =>
      existsb
        (fun pattern =>
           if Js.includes pattern "*"
           then regExp_test P (replaceStars pattern) relativePath
           else Js.includes relativePath pattern)
        (excludePatterns config)
  end.

Definition categorizeFile (relativePath ext : string) : Category :=
  let path := Js.toLowerCase relativePath in
  if Js.includes path "test" || Js.includes path "spec"
     || Js.includes path "__tests__"
  then CatTest
  else if Js.includes path "config"
          || oneOf ["json"; "yaml"; "yml"; "toml"; "env"] ext
          || Js.startsWith (path_basename P relativePath) "."
  then CatConfig
  else if oneOf ["md"; "txt"; "rst"] ext || Js.includes path "doc"
  then CatDoc
  else if Js.includes path "dist" || Js.includes path "build"
          || Js.includes path ".output"
  then CatBuild
  else if oneOf ["js"; "ts"; "jsx"; "tsx"; "vue"; "svelte"; "css"; "scss";
                 "sass"; "less"] ext
  then CatSource
  else CatOther.

(** The object literal both [scanDirectory] and [addOrUpdateFile] store. *)
Definition describe (fullPath relativePath ext : string) (stats : Stats) : FileInfo :=
  {| fi_path := fullPath; fi_relativePath := relativePath;
     fi_type := orUnknown ext; fi_size := st_size stats;
     fi_category := categorizeFile relativePath ext; fi_ast := None |}.

Variable fs : FileSystem.

(** The [try] block [addOrUpdateFile] and [parseSourceFiles] share: read the
    file, parse it, and on success build the record and add it to the
    graph.  The [catch] clause only logs. *)
Definition parseAndAdd (parsers : DefaultASTParserRegistry) (path : string)
    (st : State) : option FileAST * State :=
  match readFile fs path with
  | Abrupt _ => (None, st)
  | Normal content =>
      match parseFile parsers content path with
      | Abrupt _ => (None, st)
      | Normal parseResult =>
          match success parseResult, pr_ast parseResult,
                pr_symbols parseResult, pr_dependencies parseResult with
          | true, Some tree, Some symbols, Some deps =>
              let '(addrs, h) := allocate symbols (store st) in
              let fileAST := makeFileAST path tree h addrs deps in
              (Some fileAST, addFile fileAST {| store := h; graph := graph st |})
          | _, _, _, _ => (None, st)
          end
      end
  end.

(** The loop of [scanDirectory] over the entries of [dirPath]; [scan] is the
    recursive call, for a subdirectory.  The outcome is the index and the
    fault that ended the scan, if any. *)
Fixpoint scanEntries
    (scan : string → Js.Map FileInfo → Js.Map FileInfo * option Thrown)
    (config : CodebaseConfig) (dirPath : string) (entries : list string)
    (index : Js.Map FileInfo) : Js.Map FileInfo * option Thrown :=
  match entries with
  | [] => (index, None)
  | entry :: entries =>
      let fullPath := path_join P dirPath entry in
      let relativePath := path_relative P (rootPath config) fullPath in
      if shouldExclude (Some config) relativePath
      then scanEntries scan config dirPath entries index
      else
        match stat fs fullPath with
        | Abrupt e => (index, Some e)
        | Normal stats =>
            if isDirectory stats then
              match scan fullPath index with
              | (index, None) => scanEntries scan config dirPath entries index
              | (index, Some e) => (index, Some e)
              end
            else if isFile stats then
              if bool_decide (maxFileSize config < st_size stats)%N
              then scanEntries scan config dirPath entries index
              else
                let ext := slice1 (path_extname P entry) in
                scanEntries scan config dirPath entries
                  (Js.set relativePath (describe fullPath relativePath ext stats)
                     index)
            else scanEntries scan config dirPath entries index
        end
  end.

(** [scanDirectory(dirPath, depth)] for the configuration [config].  The
    depth bound ends the recursion: [fuel] counts the levels left. *)
Fixpoint scanDirectoryFrom (fuel : nat) (config : CodebaseConfig)
    (dirPath : string) (depth : nat) (index : Js.Map FileInfo)
    : Js.Map FileInfo * option Thrown :=
  if bool_decide (maxDepth config < Z.of_nat depth)%Z then (index, None)
  else
    match fuel with
    | 0 => (index, None)
    | S fuel =>
        match readdir fs dirPath with
        | Abrupt e => (index, Some e)
        | Normal entries =>
            scanEntries
              (fun fullPath index =>
                 scanDirectoryFrom fuel config fullPath (S depth) index)
              config dirPath entries index
        end
    end.

Definition levelsLeft (config : CodebaseConfig) (depth : nat) : nat :=
  Z.to_nat (maxDepth config + 1 - Z.of_nat depth).

Definition scanDirectory (config : option CodebaseConfig) (dirPath : string)
    (depth : nat) (index : Js.Map FileInfo) : Js.Map FileInfo * option Thrown :=
  match config with
  | None => (index, None)
  | Some config =>
      scanDirectoryFrom (levelsLeft config depth) config dirPath depth index
  end.

Definition addOrUpdateFile (fullPath relativePath : string) (srv : ViteMCPServer)
    : ViteMCPServer :=
  match codebaseConfig srv with
  | None => srv
  | Some config =>
      match stat fs fullPath with
      | Abrupt _ => srv
      | Normal stats =>
          if isFile stats && bool_decide (st_size stats ≤ maxFileSize config)%N then
            let ext := slice1 (path_extname P relativePath) in
            let fileInfo := describe fullPath relativePath ext stats in
            let existingFile := Js.get relativePath (fileIndex srv) in
            let removed :=
              match existingFile ≫= fi_ast with
              | Some old => removeFile (filePath old) (astGraph srv)
              | None => astGraph srv
              end in
            let '(fileAST, added) :=
              if bool_decide (fi_category fileInfo = CatSource)
              then parseAndAdd (astRegistry srv) fullPath removed
              else (None, removed) in
            {| codebaseConfig := codebaseConfig srv;
               fileIndex := Js.set relativePath (withAst fileInfo fileAST) (fileIndex srv);
               astRegistry := astRegistry srv;
               astGraph := added;
               watching := watching srv |}
          else srv
      end
  end.

(** [ViteMCPServer.removeFile]; the [removeFile] it calls is that of the
    graph builder. *)
Definition removeFile (relativePath : string) (srv : ViteMCPServer)
    : ViteMCPServer :=
  {| codebaseConfig := codebaseConfig srv;
     fileIndex := Js.delete relativePath (fileIndex srv);
     astRegistry := astRegistry srv;
     astGraph :=
       match Js.get relativePath (fileIndex srv) ≫= fi_ast with
       | Some old => removeFile (filePath old) (astGraph srv)
       | None => astGraph srv
       end;
     watching := watching srv |}.

Definition handleFileChange (eventType filename : string) (srv : ViteMCPServer)
    : ViteMCPServer :=
  match codebaseConfig srv with
  | None => srv
  | Some config =>
      let fullPath := path_join P (rootPath config) filename in
      let relativePath := path_relative P (rootPath config) fullPath in
      if shouldExclude (codebaseConfig srv) relativePath then srv
      else if bool_decide (eventType = "rename") then
        if existsSync fs fullPath then addOrUpdateFile fullPath relativePath srv
        else removeFile relativePath srv
      else if bool_decide (eventType = "change") then
        if existsSync fs fullPath then addOrUpdateFile fullPath relativePath srv
        else srv
      else srv
  end.

(** The body of the loop of [parseSourceFiles] for one entry of the index;
    [fileInfo.ast = fileAST] changes the description the index holds. *)
Definition parseEntry (srv : ViteMCPServer) (entry : string * FileInfo)
    : ViteMCPServer :=
  let '(relativePath, fileInfo) := entry in
  if bool_decide (fi_category fileInfo = CatSource) then
    match parseAndAdd (astRegistry srv) (fi_path fileInfo) (astGraph srv) with
    | (Some fileAST, added) =>
        {| codebaseConfig := codebaseConfig srv;
           fileIndex :=
             Js.set relativePath (withAst fileInfo (Some fileAST)) (fileIndex srv);
           astRegistry := astRegistry srv;
           astGraph := added;
           watching := watching srv |}
    | (None, _) => srv
    end
  else srv.

Definition parseSourceFiles (srv : ViteMCPServer) : ViteMCPServer :=
  match codebaseConfig srv with
  | None => srv
  | Some _ =>
      fold_left parseEntry (fileIndex srv)
        {| codebaseConfig := codebaseConfig srv;
           fileIndex := fileIndex srv;
           astRegistry := astRegistry srv;
           astGraph := {| store := store (astGraph srv); graph := emptyGraph |};
           watching := watching srv |}
  end.

(** [ingestCodebase(args)], the defaults of [args] filled in.  The server
    it leaves and the error it throws, if any. *)
Definition ingestCodebase (path : string) (includeTests includeDocs : option bool)
    (depthLimit : option Z) (srv : ViteMCPServer)
    : ViteMCPServer * option McpError :=
  if negb (existsSync fs path) then (srv, Some (PathDoesNotExist path))
  else if negb (existsSync fs (path_join P path "package.json"))
  then (srv, Some NoPackageJson)
  else
    let config :=
      {| rootPath := path;
         includePatterns :=
           buildIncludePatterns (default true includeTests) (default true includeDocs);
         excludePatterns := buildExcludePatterns;
         maxFileSize := 1024 * 1024;
         maxDepth := default 10%Z depthLimit |} in
    let stopped index :=
      {| codebaseConfig := Some config; fileIndex := index;
         astRegistry := astRegistry srv; astGraph := astGraph srv;
         watching := false |} in
    match scanDirectory (Some config) path 0 [] with
    | (index, Some e) => (stopped index, Some (FailedToIngest e))
    | (index, None) =>
        let parsed := parseSourceFiles (stopped index) in
        ({| codebaseConfig := codebaseConfig parsed;
            fileIndex := fileIndex parsed;
            astRegistry := astRegistry parsed;
            astGraph := astGraph parsed;
            watching := true |}, None)
    end.

End handlers.

(** An argument of a tool that is there and is not the empty string:
    [if (args.name)]. *)
Definition given (arg : option string) : option string :=
  match arg with
  | Some s => if bool_decide (s = "") then None else Some s
  | None => None
  end.

(** [searchSymbols(args)], up to the array [symbols] its answer prints. *)
Definition searchSymbols (name type file : option string) (srv : ViteMCPServer)
    : McpError + list Symbol :=
  match codebaseConfig srv with
  | None => inl NothingIngested
  | Some _ =>
      let symbols := symbolValues (astGraph srv) in
      let symbols :=
        match given name with
        | Some name =>
            let searchName := Js.toLowerCase name in
            filter (fun s => Js.includes (Js.toLowerCase (sym_name s)) searchName = true)
              symbols
        | None => symbols
        end in
      let symbols :=
        match given type with
        | Some type => filter (fun s => typeName (sym_type s) = type) symbols
        | None => symbols
        end in
      let symbols :=
        match given file with
        | Some searchFile =>
            filter (fun s => Js.includes (sym_filePath s) searchFile = true) symbols
        | None => symbols
        end in
      inr symbols
  end.

(** What reaches the server: a call of the tool [ingest_codebase], or an
    event of the file watcher. *)
Inductive Request :=
  | Ingest (path : string) (includeTests includeDocs : option bool)
      (depthLimit : option Z)
  | Watched (eventType filename : string).

(** One request, handled on the file system [fs].  The watcher delivers
    events only while it runs, and the loop of [startFileWatcher] passes on
    those that name a file: [if (event.filename)]. *)
Definition handle (P : Platform) (srv : ViteMCPServer)
    (request : FileSystem * Request) : ViteMCPServer :=
  let '(fs, request) := request in
  match request with
  | Ingest path includeTests includeDocs depthLimit =>
      (ingestCodebase P fs path includeTests includeDocs depthLimit srv).1
  | Watched eventType filename =>
      if watching srv && negb (bool_decide (filename = ""))
      then handleFileChange P fs eventType filename srv
      else srv
  end.

Definition run (P : Platform) (requests : list (FileSystem * Request))
    (srv : ViteMCPServer) : ViteMCPServer :=
  fold_left (handle P) requests srv.

End Server.

(** *** Invariants of the server *)

(** What the graph builder expects of an adapter: the symbols of a result
    carry the path that was parsed, as those of [createSymbol] do. *)
Definition parser_ok (p : ASTParser) : Prop :=
  ∀ content path result symbols,
    parse p content path = Normal result →
    pr_symbols result = Some symbols →
    Forall (fun s => sym_filePath s = path) symbols.

(** The records of the graph are those attached to the descriptions of the
    index, each under the path of its description. *)
Definition linked (index : Js.Map FileInfo) (fs : Js.Map FileAST) : Prop :=
  ∀ path F,
    Js.get path fs = Some F ↔
    ∃ relativePath fileInfo,
      Js.get relativePath index = Some fileInfo
      ∧ fi_ast fileInfo = Some F ∧ fi_path fileInfo = path.

(** A description is filed under the relative path of its file, and a
    record attached to it is a record for that file. *)
Definition index_ok (P : Platform) (root : string) (index : Js.Map FileInfo) : Prop :=
  Forall
    (fun e => path_relative P root (fi_path e.2) = e.1
              ∧ ∀ F, fi_ast e.2 = Some F → filePath F = fi_path e.2)
    index.

(** An index as [scanDirectory] leaves it: no description has a record
    yet. *)
Definition unparsed (P : Platform) (root : string) (index : Js.Map FileInfo) : Prop :=
  NoDup (Js.keys index) ∧ index_ok P root index
  ∧ Forall (fun e => fi_ast e.2 = None) index.

(** What every description of the index satisfies under the configuration
    it was made for. *)
Definition description_ok (P : Platform) (config : CodebaseConfig)
    (e : string * FileInfo) : Prop :=
  fi_relativePath e.2 = e.1
  ∧ Server.shouldExclude P (Some config) e.1 = false
  ∧ (fi_size e.2 ≤ maxFileSize config)%N
  ∧ (∃ ext, fi_category e.2 = Server.categorizeFile P e.1 ext
            ∧ fi_type e.2 = Server.orUnknown ext)
  ∧ (is_Some (fi_ast e.2) → fi_category e.2 = CatSource).

Definition described (P : Platform) (srv : Server.ViteMCPServer) : Prop :=
  ∀ config, Server.codebaseConfig srv = Some config →
            Forall (description_ok P config) (Server.fileIndex srv).

(** The substrings of a relative path, in lower case, that keep
    [categorizeFile] from answering [source]. *)
Definition categoryMarkers : list string :=
  ["test"; "spec"; "config"; "doc"; "dist"; "build"; ".output"].

(** Every configuration is one [ingestCodebase] made. *)
Definition config_ok (srv : Server.ViteMCPServer) : Prop :=
  ∀ config, Server.codebaseConfig srv = Some config →
            maxFileSize config = 1048576%N
            ∧ excludePatterns config = Server.buildExcludePatterns.

(** The state with one more object, at an address that has none. *)
Definition extend (a : addr) (s : Symbol) (st : State) : State :=
  {| store := <[a := s]> (store st); graph := graph st |}.

(** What holds of the server between two requests. *)
Definition server_ok (P : Platform) (srv : Server.ViteMCPServer) : Prop :=
  maintained (Server.astGraph srv)
  ∧ Forall parser_ok (Server.astRegistry srv)
  ∧ (∀ config, Server.codebaseConfig srv = Some config →
       index_ok P (rootPath config) (Server.fileIndex srv))
  ∧ (Server.watching srv = true →
       linked (Server.fileIndex srv) (files (graph (Server.astGraph srv)))).

(** ** A project on disk

    The two files of the scenario under [/project/src], a test file, a
    build output, and a directory the server excludes. *)

Module Project.

(** [node:path] for POSIX paths without [.] and [..] segments. *)
Definition join (a b : string) : string := a +:+ "/" +:+ b.

Fixpoint dropPrefix (p s : string) : option string :=
  match p, s with
  | EmptyString, _ => Some s
  | String c p, String d s => if bool_decide (c = d) then dropPrefix p s else None
  | String _ _, EmptyString => None
  end.

Definition relative (from to : string) : string :=
  default to (dropPrefix (from +:+ "/") to).

Definition basename (path : string) : string :=
  Js.orEmpty (Js.pop (Js.split "/" path)).

Definition extname (path : string) : string :=
  match Js.split "." (basename path) with
  | [] | [_] => ""
  | [EmptyString; _] => ""
  | segments => "." +:+ Js.orEmpty (Js.pop segments)
  end.

(** [RegExp] for the one expression the exclusion patterns give,
    [.*.log]: some character, then [log]. *)
Definition regExpTest (source text : string) : bool :=
  bool_decide (source = ".*.log")
  && match text with
     | EmptyString => false
     | String _ rest => Js.includes rest "log"
     end.

Definition platform : Platform :=
  {| path_join := join; path_relative := relative; path_extname := extname;
     path_basename := basename; regExp_test := regExpTest |}.

Definition textA : string := "export function add(x, y) { return x + y }".
Definition textB : string := "import { add } from './a'".

(** An adapter that knows the two texts of the scenario, and finds no
    symbol in any other text. *)
Definition adapter : ASTParser :=
  {| canParse := jsTsCanParse;
     parse := fun content path =>
       Normal
         {| success := true;
            pr_ast := Some (Example.program path (String.length content));
            pr_symbols :=
              Some (if bool_decide (content = textA)
                    then [Example.exportOf path "add" (Example.lineSpan 1 0 42);
                          Example.functionOf path "add" (Example.lineSpan 1 7 42) 2]
                    else if bool_decide (content = textB)
                    then [Example.importOf path "add" "./a" (Example.lineSpan 1 0 25)]
                    else []);
            pr_dependencies :=
              Some (if bool_decide (content = textB)
                    then [{| dep_from := path; dep_to := "./a"; dep_type := DepImport;
                             specifiers := ["add"] |}]
                    else []);
            error := None |} |}.

Definition notFound {A} (path : string) : Completion A :=
  Abrupt (ThrownError ("ENOENT: no such file or directory, " +:+ path)).

Definition directory : Stats := {| isDirectory := true; isFile := false; st_size := 4096 |}.
Definition file (size : N) : Stats :=
  {| isDirectory := false; isFile := true; st_size := size |}.

(** The files of the project, with their texts. *)
Definition texts : list (string * string) :=
  [("/project/package.json", "{}");
   ("/project/src/a.ts", textA);
   ("/project/src/b.ts", textB);
   ("/project/src/a.test.ts", "test('add', () => {})");
   ("/project/.output/server.mjs", "export default {}");
   ("/project/node_modules/vite/index.js", "module.exports = {}")].

Definition listings : list (string * list string) :=
  [("/project", [".output"; "node_modules"; "package.json"; "src"]);
   ("/project/.output", ["server.mjs"]);
   ("/project/src", ["a.test.ts"; "a.ts"; "b.ts"]);
   ("/project/node_modules", ["vite"]);
   ("/project/node_modules/vite", ["index.js"])].

(** The file system with the files of [texts] other than [gone]. *)
Definition disk (gone : list string) : FileSystem :=
  let present path := bool_decide (path ∉ gone) in
  {| existsSync := fun path =>
       present path && (Js.has path texts || Js.has path listings);
     stat := fun path =>
       match Js.get path texts, Js.get path listings with
       | Some text, _ =>
           if present path then Normal (file (N.of_nat (String.length text)))
           else notFound path
       | None, Some _ => Normal directory
       | None, None => notFound path
       end;
     readFile := fun path =>
       match Js.get path texts with
       | Some text => if present path then Normal text else notFound path
       | None => notFound path
       end;
     readdir := fun path =>
       match Js.get path listings with
       | Some entries =>
           Normal (filter (fun entry => join path entry ∉ gone) entries)
       | None => notFound path
       end |}.

(** The configuration [ingest_codebase] makes for [/project]. *)
Definition config : CodebaseConfig :=
  {| rootPath := "/project";
     includePatterns := Server.buildIncludePatterns true true;
     excludePatterns := Server.buildExcludePatterns;
     maxFileSize := 1048576;
     maxDepth := 10 |}.

(** The project is ingested, and [b.ts] is saved again. *)
Definition requests : list (FileSystem * Server.Request) :=
  [(disk [], Server.Ingest "/project" None None None);
   (disk [], Server.Watched "change" "src/b.ts")].

Abbreviation ingested := (Server.run platform requests (Server.create [adapter])).

End Project.

(** ** The visitors of the JavaScript/TypeScript parser for imports and
    default exports

    Babel nodes, as far as the two visitors read them: the name an import
    or export specifier gives a binding of the other module is an
    identifier or a string literal. *)

Inductive ModuleExportName :=
  | Identifier (name : string)
  | StringLiteral (value : string).

Inductive ImportSpecifierNode :=
  | ImportDefaultSpecifier (local : string)
  | ImportSpecifier (imported : ModuleExportName) (local : string)
  | ImportNamespaceSpecifier (local : string).

(** [source] is [node.source.value], [loc] is [node.loc]. *)
Record ImportDeclaration := mkImportDeclaration {
  import_source : string;
  import_specifiers : list ImportSpecifierNode;
  import_loc : option Span
}.

(** [node.declaration] of an [ExportDefaultDeclaration], with [id?.name]
    for a function or a class. *)
Inductive DefaultDeclaration :=
  | FunctionDeclaration (id : option string)
  | ClassDeclaration (id : option string)
  | IdentifierExpression (name : string)
  | OtherExpression.

Module JsTs.

(** [spec.local.name] *)
Definition localName (spec : ImportSpecifierNode) : string :=
  match spec with
  | ImportDefaultSpecifier local | ImportSpecifier _ local
  | ImportNamespaceSpecifier local => local
  end.

(** The variable [importName] of the visitor. *)
Definition importedName (spec : ImportSpecifierNode) : string :=
  match spec with
  | ImportDefaultSpecifier _ => "default"
  | ImportSpecifier (Identifier name) _ => name
  | ImportSpecifier (StringLiteral _) _ => "unknown"
  | ImportNamespaceSpecifier _ => "*"
  end.

Definition isDefaultSpecifier (spec : ImportSpecifierNode) : bool :=
  match spec with
  | ImportDefaultSpecifier _ => true
  | _ => false
  end.

(** The symbol the visitor [ImportDeclaration] pushes for one specifier. *)
Definition importSymbol (filePath : string) (node : ImportDeclaration)
    (spec : ImportSpecifierNode) : Symbol :=
  Example.withImports
    (createSymbol filePath (localName spec) SymImport (import_loc node) [])
    {| source := import_source node;
       imp_isDefault := isDefaultSpecifier spec;
       importName := Some (importedName spec);
       importedAs := Some (localName spec) |}.

(** What the visitor [ImportDeclaration] adds to [symbols] and to
    [dependencies]. *)
Definition visitImportDeclaration (filePath : string) (node : ImportDeclaration)
    : list Symbol * Dependency :=
  (importSymbol filePath node <$> import_specifiers node,
   {| dep_from := filePath; dep_to := import_source node; dep_type := DepImport;
      specifiers := localName <$> import_specifiers node |}).

(** The variable [name] of the visitor [ExportDefaultDeclaration]. *)
Definition defaultExportName (declaration : DefaultDeclaration) : string :=
  match declaration with
  | FunctionDeclaration (Some name) | ClassDeclaration (Some name)
  | IdentifierExpression name => name
  | _ => "default"
  end.

(** The symbol the visitor [ExportDefaultDeclaration] pushes. *)
Definition visitExportDefaultDeclaration (filePath : string)
    (declaration : DefaultDeclaration) (loc : option Span) : Symbol :=
  Example.withExports
    (createSymbol filePath (defaultExportName declaration) SymExport loc [])
    {| exp_isDefault := true;
       exportName := Some (defaultExportName declaration);
       exportedAs := None |}.

End JsTs.

(** * Properties *)

(** ** Facts about the [Map] operations *)

Section map_facts.
Context {V : Type}.
Implicit Types (m : Js.Map V) (k : string) (v : V).

Lemma get_set_eq k v m : Js.get k (Js.set k v m) = Some v.
Proof.
  induction m as [|[k' v'] m IH]; simpl.
  - by rewrite bool_decide_eq_true_2.
  - case_bool_decide; simpl; case_bool_decide; congruence.
Qed.

Lemma get_set_ne k k' v m : k ≠ k' → Js.get k' (Js.set k v m) = Js.get k' m.
Proof.
  intros Hne. induction m as [|[k0 v0] m IH]; simpl.
  - by rewrite bool_decide_eq_false_2.
  - repeat (case_bool_decide; simpl); congruence.
Qed.

Lemma get_delete_eq k m : Js.get k (Js.delete k m) = None.
Proof.
  induction m as [|[k0 v0] m IH]; simpl; [done|].
  case_bool_decide; simpl; [done|]. by rewrite bool_decide_eq_false_2.
Qed.

Lemma get_delete_ne k k' m : k ≠ k' → Js.get k' (Js.delete k m) = Js.get k' m.
Proof.
  intros Hne. induction m as [|[k0 v0] m IH]; simpl; [done|].
  repeat (case_bool_decide; simpl); congruence.
Qed.

Lemma get_Some_elem k v m : Js.get k m = Some v → (k, v) ∈ m.
Proof.
  induction m as [|[k0 v0] m IH]; simpl; [done|].
  case_bool_decide; intros ?; simplify_eq; [left | right; auto].
Qed.

Lemma get_None_keys k m : Js.get k m = None ↔ k ∉ Js.keys m.
Proof.
  unfold Js.keys. induction m as [|[k0 v0] m IH]; simpl.
  - split; [intros _; apply not_elem_of_nil | done].
  - rewrite not_elem_of_cons. case_bool_decide; split; try done.
    + intros [? _]. congruence.
    + intros ?. split; [congruence | by apply IH].
    + intros [_ ?]. by apply IH.
Qed.

Lemma elem_get k v m : NoDup (Js.keys m) → (k, v) ∈ m → Js.get k m = Some v.
Proof.
  unfold Js.keys. induction m as [|[k0 v0] m IH]; simpl.
  - intros _ H. by apply elem_of_nil in H.
  - intros [Hk Hnd]%NoDup_cons [Heq | Hin]%elem_of_cons.
    + simplify_eq. by rewrite bool_decide_eq_true_2.
    + rewrite bool_decide_eq_false_2; [by apply IH|].
      intros ->. apply Hk. apply (list_elem_of_fmap_2 fst) in Hin. done.
Qed.

Lemma set_absent k v m : Js.get k m = None → Js.set k v m = m ++ [(k, v)].
Proof.
  induction m as [|[k0 v0] m IH]; simpl; [done|].
  case_bool_decide; [done|]. intros ?. by rewrite IH.
Qed.

Lemma delete_absent k m : Js.get k m = None → Js.delete k m = m.
Proof.
  induction m as [|[k0 v0] m IH]; simpl; [done|].
  case_bool_decide; [done|]. intros ?. by rewrite IH.
Qed.

Lemma elem_of_delete e k m : e ∈ Js.delete k m ↔ e ∈ m ∧ e.1 ≠ k.
Proof.
  induction m as [|[k0 v0] m IH]; simpl.
  - split; [intros H; by apply elem_of_nil in H | intros [H _]; by apply elem_of_nil in H].
  - case_bool_decide; rewrite ?elem_of_cons, IH; split.
    + intros [? ?]. auto.
    + intros [[-> | ?] ?]; [simpl in *; congruence | auto].
    + intros [-> | [? ?]]; auto.
    + intros [[-> | ?] ?]; auto.
Qed.

Lemma elem_of_set e k v m : e ∈ Js.set k v m → e = (k, v) ∨ e ∈ m.
Proof.
  induction m as [|[k0 v0] m IH]; simpl.
  - intros ->%list_elem_of_singleton. by left.
  - case_bool_decide; rewrite !elem_of_cons; intros [-> | Hin]; auto.
    destruct (IH Hin); auto.
Qed.

Lemma keys_set_present k v m :
  is_Some (Js.get k m) → Js.keys (Js.set k v m) = Js.keys m.
Proof.
  unfold Js.keys. induction m as [|[k0 v0] m IH]; simpl.
  - by intros [? ?].
  - case_bool_decide; csimpl; intros ?; [congruence | by rewrite IH].
Qed.

Lemma NoDup_keys_set k v m : NoDup (Js.keys m) → NoDup (Js.keys (Js.set k v m)).
Proof.
  intros Hnd. destruct (Js.get k m) as [v0|] eqn:Hget.
  - by rewrite keys_set_present.
  - rewrite set_absent by done. unfold Js.keys in *. rewrite fmap_app. simpl.
    apply NoDup_app. split; [done|]. split; [|apply NoDup_singleton].
    intros x Hx ->%list_elem_of_singleton. by apply get_None_keys in Hget.
Qed.

Lemma NoDup_keys_delete k m : NoDup (Js.keys m) → NoDup (Js.keys (Js.delete k m)).
Proof.
  unfold Js.keys. induction m as [|[k0 v0] m IH]; simpl; [done|].
  intros [Hk Hnd]%NoDup_cons. case_bool_decide; [auto|].
  simpl. apply NoDup_cons. split; [|auto].
  intros Hin. apply Hk. apply list_elem_of_fmap in Hin as (e & -> & He).
  apply elem_of_delete in He as [He _]. by apply (list_elem_of_fmap_2 fst) in He.
Qed.

End map_facts.

(** ** The cross-reference loops *)

Lemma elem_of_flat_map {A B} (f : A → list B) (l : list A) (y : B) :
  y ∈ flat_map f l ↔ ∃ x, x ∈ l ∧ y ∈ f x.
Proof.
  rewrite list_elem_of_In, in_flat_map.
  split; intros (x & Hx & Hy); exists x; by rewrite ?list_elem_of_In in *.
Qed.

Lemma filter_none {A} (P : A → Prop) `{∀ x, Decision (P x)} (l : list A) :
  Forall (fun x => ¬ P x) l → filter P l = [].
Proof.
  induction 1 as [|x l Hx _ IH]; [done|]. by rewrite filter_cons_False.
Qed.

Lemma fold_left_flat_map {A B S} (g : S → B → S) (f : A → list B) (l : list A) (s : S) :
  fold_left (fun s x => fold_left g (f x) s) l s = fold_left g (flat_map f l) s.
Proof.
  revert s. induction l as [|x l IH]; intros s; simpl; [done|].
  by rewrite fold_left_app, IH.
Qed.

Lemma collectReferences_unrolled h fs S :
  collectReferences h fs S = definitionReference S :: importReferences h fs S.
Proof.
  unfold collectReferences, importReferences.
  enough (∀ refs,
    fold_left
      (fun references '(path, fileAST) =>
         if bool_decide (path = sym_filePath S) then references
         else
           fold_left
             (fun references a =>
                match h !! a with
                | Some otherSymbol =>
                    if importsSymbol otherSymbol S
                    then references ++ [importReference otherSymbol]
                    else references
                | None => references
                end)
             (fa_symbols fileAST) references)
      fs refs
    = refs ++ flat_map
        (fun e => if bool_decide (e.1 = sym_filePath S) then []
                  else referencesFrom h S (fa_symbols e.2)) fs) as H
    by apply (H [definitionReference S]).
  induction fs as [|[path r] fs IH]; intros refs; simpl.
  - by rewrite app_nil_r.
  - rewrite IH. case_bool_decide; [done|].
    rewrite (assoc (++)). f_equal.
    unfold referencesFrom. generalize (fa_symbols r). clear.
    intros syms. revert refs.
    induction syms as [|a syms IH]; intros refs; simpl.
    + by rewrite app_nil_r.
    + rewrite IH. destruct (h !! a) as [o|]; [|done].
      destruct (importsSymbol o S); [|done]. by rewrite <- (assoc (++)).
Qed.

Lemma withReferences_erase s s' refs :
  eraseReferences s = eraseReferences s' → withReferences s refs = withReferences s' refs.
Proof.
  intros H. change (withReferences (eraseReferences s) refs
                    = withReferences (eraseReferences s') refs). by rewrite H.
Qed.

Lemma importsSymbol_erase o o' S S' :
  eraseReferences o = eraseReferences o' → eraseReferences S = eraseReferences S' →
  importsSymbol o S = importsSymbol o' S'.
Proof.
  intros Ho HS. change (importsSymbol (eraseReferences o) (eraseReferences S)
                        = importsSymbol (eraseReferences o') (eraseReferences S')).
  by rewrite Ho, HS.
Qed.

Lemma importReference_erase o o' :
  eraseReferences o = eraseReferences o' → importReference o = importReference o'.
Proof.
  intros Ho. change (importReference (eraseReferences o)
                     = importReference (eraseReferences o')). by rewrite Ho.
Qed.

Lemma definitionReference_erase S S' :
  eraseReferences S = eraseReferences S' → definitionReference S = definitionReference S'.
Proof.
  intros HS. change (definitionReference (eraseReferences S)
                     = definitionReference (eraseReferences S')). by rewrite HS.
Qed.

Lemma erase_filePath S S' :
  eraseReferences S = eraseReferences S' → sym_filePath S = sym_filePath S'.
Proof. intros H. apply (f_equal sym_filePath) in H. done. Qed.

Lemma erase_id S S' :
  eraseReferences S = eraseReferences S' → sym_id S = sym_id S'.
Proof. intros H. apply (f_equal sym_id) in H. done. Qed.

#[global] Instance sameObjects_equiv : Equivalence sameObjects.
Proof.
  split.
  - by intros h a.
  - intros h h' H a. by rewrite H.
  - intros h1 h2 h3 H12 H23 a. by rewrite H12, H23.
Qed.

Lemma sameObjects_filePath h h' a :
  sameObjects h h' → sym_filePath <$> h !! a = sym_filePath <$> h' !! a.
Proof.
  intros H. specialize (H a).
  destruct (h !! a), (h' !! a); simpl in *; try done.
  apply (inj Some) in H. f_equal. by apply erase_filePath.
Qed.

Lemma sameObjects_id h h' a :
  sameObjects h h' → sym_id <$> h !! a = sym_id <$> h' !! a.
Proof.
  intros H. specialize (H a).
  destruct (h !! a), (h' !! a); simpl in *; try done.
  apply (inj Some) in H. f_equal. by apply erase_id.
Qed.

(** Which symbols import which is decided by fields the rebuild never
    assigns to. *)
Lemma referencesFrom_sameObjects h h' S S' syms :
  sameObjects h h' → eraseReferences S = eraseReferences S' →
  referencesFrom h S syms = referencesFrom h' S' syms.
Proof.
  intros Hh HS. unfold referencesFrom.
  induction syms as [|a syms IH]; simpl; [done|]. rewrite IH. f_equal.
  specialize (Hh a). destruct (h !! a) as [o|], (h' !! a) as [o'|]; simpl in *; try done.
  apply (inj Some) in Hh.
  rewrite (importsSymbol_erase o o' S S') by done.
  by rewrite (importReference_erase o o').
Qed.

Lemma importReferences_sameObjects h h' fs S S' :
  sameObjects h h' → eraseReferences S = eraseReferences S' →
  importReferences h fs S = importReferences h' fs S'.
Proof.
  intros Hh HS. unfold importReferences.
  induction fs as [|e fs IH]; simpl; [done|]. rewrite IH. f_equal.
  rewrite (erase_filePath S S') by done. case_bool_decide; [done|].
  by apply referencesFrom_sameObjects.
Qed.

Lemma collectReferences_sameObjects h h' fs S S' :
  sameObjects h h' → eraseReferences S = eraseReferences S' →
  collectReferences h fs S = collectReferences h' fs S'.
Proof.
  intros Hh HS. rewrite !collectReferences_unrolled.
  by rewrite (definitionReference_erase S S'), (importReferences_sameObjects h h' fs S S').
Qed.

Lemma buildCrossReferences_rebuild st :
  buildCrossReferences st = rebuild (fileSymbols (files (graph st))) st.
Proof.
  unfold buildCrossReferences, rebuild, fileSymbols.
  rewrite <- (fold_left_flat_map (fun st a => findSymbolReferences a st)
                (fun e : string * FileAST => fa_symbols e.2)).
  generalize st at 2 4. generalize (files (graph st)).
  intros fs. induction fs as [|[path r] fs IH]; intros s; simpl; [done|].
  by rewrite IH.
Qed.

(** What a rebuild writes: every object of the list gets the references the
    loops collect in the state the rebuild started from, and nothing else
    changes. *)
Lemma rebuild_spec l st :
  graph (rebuild l st) = graph st
  ∧ ∀ a, store (rebuild l st) !! a
         = (fun s => if bool_decide (a ∈ l)
                     then withReferences s
                            (collectReferences (store st) (files (graph st)) s)
                     else s) <$> store st !! a.
Proof.
  induction l as [|x l IH] using rev_ind.
  - split; [done|]. intros a. unfold rebuild; simpl.
    by destruct (store st !! a).
  - destruct IH as [Hg Hs]. unfold rebuild in *. rewrite fold_left_app. simpl.
    set (st1 := fold_left _ l st) in *.
    assert (Hsame : sameObjects (store st) (store st1)).
    { intros a. rewrite Hs. destruct (store st !! a) as [s|]; [|done].
      simpl. by case_bool_decide. }
    unfold findSymbolReferences.
    destruct (store st1 !! x) as [s1|] eqn:Hx; simpl.
    + split; [done|]. intros a. destruct (decide (a = x)) as [->|Hne].
      * rewrite lookup_insert_eq. pose proof (Hsame x) as Hex. rewrite Hx in Hex.
        destruct (store st !! x) as [s0|]; simpl in *; [|done].
        apply (inj Some) in Hex.
        rewrite bool_decide_eq_true_2 by (apply elem_of_app; right; by left).
        f_equal. rewrite Hg.
        rewrite (collectReferences_sameObjects (store st1) (store st) _ s1 s0)
          by done.
        by apply withReferences_erase.
      * rewrite lookup_insert_ne by done. rewrite Hs.
        destruct (store st !! a) as [s|]; [|done]. simpl. f_equal.
        rewrite (bool_decide_ext (a ∈ l ++ [x]) (a ∈ l)); [done|].
        rewrite elem_of_app, list_elem_of_singleton. tauto.
    + split; [done|]. intros a. rewrite Hs.
      destruct (decide (a = x)) as [->|Hne].
      * pose proof (Hsame x) as Hex. rewrite Hx in Hex.
        by destruct (store st !! x).
      * destruct (store st !! a) as [s|]; [|done]. simpl. f_equal.
        rewrite (bool_decide_ext (a ∈ l ++ [x]) (a ∈ l)); [done|].
        rewrite elem_of_app, list_elem_of_singleton. tauto.
Qed.

Lemma buildCrossReferences_graph st : graph (buildCrossReferences st) = graph st.
Proof. rewrite buildCrossReferences_rebuild. apply rebuild_spec. Qed.

Lemma buildCrossReferences_store st a :
  store (buildCrossReferences st) !! a
  = (fun s => if bool_decide (a ∈ fileSymbols (files (graph st)))
              then withReferences s
                     (collectReferences (store st) (files (graph st)) s)
              else s) <$> store st !! a.
Proof. rewrite buildCrossReferences_rebuild. apply rebuild_spec. Qed.

Lemma buildCrossReferences_sameObjects st :
  sameObjects (store st) (store (buildCrossReferences st)).
Proof.
  intros a. rewrite buildCrossReferences_store.
  destruct (store st !! a) as [s|]; [|done]. simpl. by case_bool_decide.
Qed.

(** ** The module-specifier heuristic *)

Lemma endsWith_length s p : Js.endsWith s p = true → String.length p ≤ String.length s.
Proof.
  induction s as [|c s IH]; simpl.
  - intros ->%bool_decide_eq_true. done.
  - intros [Heq%bool_decide_eq_true | H]%orb_true_iff; [by subst p|].
    specialize (IH H). lia.
Qed.

Lemma dropLast_cons n c s :
  n ≤ String.length s → dropLast n (String c s) = String c (dropLast n s).
Proof.
  intros Hn. unfold dropLast. simpl String.length.
  replace (S (String.length s) - n) with (S (String.length s - n)) by lia.
  done.
Qed.

Lemma stripSourceExtension_cons c s :
  stripSourceExtension (String c s)
  = if bool_decide (String c s = ".js") || bool_decide (String c s = ".ts")
       || bool_decide (String c s = ".jsx") || bool_decide (String c s = ".tsx")
    then EmptyString
    else String c (stripSourceExtension s).
Proof. reflexivity. Qed.

Lemma endsWith_cons c s p :
  Js.endsWith (String c s) p = bool_decide (String c s = p) || Js.endsWith s p.
Proof. reflexivity. Qed.

(** The regular-expression replacement removes one trailing [.js], [.ts],
    [.jsx] or [.tsx]. *)
Lemma stripSourceExtension_spec s : stripSourceExtension s = spec_stripExtension s.
Proof.
  induction s as [|c s IH]; [done|].
  destruct (bool_decide (String c s = ".js") || bool_decide (String c s = ".ts")
            || bool_decide (String c s = ".jsx") || bool_decide (String c s = ".tsx"))
    eqn:Hexact.
  - rewrite stripSourceExtension_cons, Hexact.
    repeat (apply orb_true_iff in Hexact as [Hexact | Hexact]);
      apply bool_decide_eq_true in Hexact; rewrite Hexact; reflexivity.
  - rewrite stripSourceExtension_cons, Hexact, IH.
    repeat (apply orb_false_iff in Hexact as [Hexact ?]).
    unfold spec_stripExtension. rewrite !endsWith_cons.
    rewrite Hexact, H, H0, H1. simpl orb.
    destruct (Js.endsWith s ".js" || Js.endsWith s ".ts") eqn:H3.
    + rewrite dropLast_cons; [done|].
      apply orb_true_iff in H3 as [H3|H3]; by apply endsWith_length in H3.
    + destruct (Js.endsWith s ".jsx" || Js.endsWith s ".tsx") eqn:H4; [|done].
      rewrite dropLast_cons; [done|].
      apply orb_true_iff in H4 as [H4|H4]; by apply endsWith_length in H4.
Qed.

Lemma startsWith_nonempty s p : p ≠ "" → Js.startsWith s p = true → s ≠ "".
Proof. intros Hp H ->. by destruct p. Qed.

Lemma optStrictEq_true x y : Js.optStrictEq x y = true ↔ x = Some y.
Proof.
  destruct x as [s|]; simpl; [|done].
  rewrite bool_decide_eq_true. split; congruence.
Qed.

(** The test of the inner loop is the condition of the specification, for
    symbols of another file. *)
Lemma importsSymbol_spec I S :
  sym_filePath I ≠ sym_filePath S →
  importsSymbol I S = true ↔ spec_imports I S.
Proof.
  intros Hne. unfold importsSymbol, spec_imports, isSymbolFromFile.
  destruct (sym_type I) eqn:Ht;
    try (split; [done | by intros (_ & ? & _)]).
  destruct (sym_imports I) as [info|];
    [|split; [done | by intros (_ & _ & ? & ? & _)]].
  rewrite !andb_true_iff, negb_true_iff, bool_decide_eq_false, orb_true_iff,
    !optStrictEq_true.
  split.
  - intros [[Hsrc Hfrom] Hname].
    repeat split; [done|]. exists info. split; [done|].
    rewrite <- stripSourceExtension_spec.
    destruct (Js.startsWith (source info) "./" || Js.startsWith (source info) "../")
      eqn:Hrel; [|done].
    apply orb_true_iff in Hrel.
    rewrite <- !Is_true_true in Hrel. rewrite <- Is_true_true in Hfrom. done.
  - intros (_ & _ & info' & [= <-] & Hrel & Hsub & Hname).
    rewrite <- stripSourceExtension_spec in Hsub.
    assert (Hrel' : Js.startsWith (source info) "./" || Js.startsWith (source info) "../" = true).
    { apply orb_true_iff. by rewrite <- !Is_true_true. }
    rewrite Hrel'. repeat split; [|by apply Is_true_true|done].
    apply orb_true_iff in Hrel' as [H|H]; by apply startsWith_nonempty in H.
Qed.

Lemma record_ok_lookup h r a :
  record_ok h r → a ∈ fa_symbols r →
  ∃ s, h !! a = Some s ∧ sym_filePath s = filePath r.
Proof.
  intros Hok Ha. unfold record_ok in Hok. rewrite Forall_forall in Hok.
  specialize (Hok a Ha). destruct (h !! a) as [s|]; simplify_eq/=. eauto.
Qed.

(** The import references the loops collect are those of the formula of the
    specification, in the same order. *)
Lemma importReferences_spec h fs S :
  files_ok h fs →
  importReferences h fs S
  = importReference <$> filter (fun I => spec_imports I S) (omap (h !!.) (fileSymbols fs)).
Proof.
  unfold importReferences, fileSymbols.
  induction fs as [|[path r] fs IH]; [done|].
  intros [[Hpath Hr] Hfs]%Forall_cons. simpl in Hpath, Hr.
  simpl flat_map. rewrite omap_app, filter_app, fmap_app, IH by done. f_equal.
  clear IH Hfs. simpl.
  assert (Hsyms : Forall (fun a => ∃ s, h !! a = Some s ∧ sym_filePath s = path)
                    (fa_symbols r)).
  { apply Forall_forall. intros a Ha.
    destruct (record_ok_lookup h r a Hr Ha) as (s & ? & ?). exists s. by subst. }
  clear Hr Hpath. unfold referencesFrom.
  induction Hsyms as [|a syms (s & Ha & Hs) _ IH]; simpl.
  - by case_bool_decide.
  - rewrite Ha. simpl. case_bool_decide as Hsame.
    + rewrite filter_cons_False; [done|].
      intros (Hne & _). congruence.
    + rewrite IH.
      assert (Hne : sym_filePath s ≠ sym_filePath S) by congruence.
      destruct (importsSymbol s S) eqn:Himp.
      * rewrite filter_cons_True; [done|]. by apply importsSymbol_spec.
      * rewrite filter_cons_False; [done|].
        intros Hspec%importsSymbol_spec; congruence.
Qed.

Lemma collectReferences_spec st S :
  files_ok (store st) (files (graph st)) →
  collectReferences (store st) (files (graph st)) S = spec_references st S.
Proof.
  intros Hok. rewrite collectReferences_unrolled. unfold spec_references.
  by rewrite importReferences_spec.
Qed.

(** ** The symbol map and the node map *)

Lemma addSymbols_cons h a syms m :
  addSymbols h (a :: syms) m
  = addSymbols h syms
      (match h !! a with Some s => Js.set (sym_id s) a m | None => m end).
Proof. reflexivity. Qed.

Lemma addSymbols_snoc h a syms m :
  addSymbols h (syms ++ [a]) m
  = match h !! a with
    | Some s => Js.set (sym_id s) a (addSymbols h syms m)
    | None => addSymbols h syms m
    end.
Proof. unfold addSymbols. by rewrite fold_left_app. Qed.

Lemma removeSymbols_cons h a syms m :
  removeSymbols h (a :: syms) m
  = removeSymbols h syms
      (match h !! a with Some s => Js.delete (sym_id s) m | None => m end).
Proof. reflexivity. Qed.

Lemma elem_of_addSymbols h syms m e :
  e ∈ addSymbols h syms m →
  e ∈ m ∨ (e.2 ∈ syms ∧ sym_id <$> h !! e.2 = Some e.1).
Proof.
  revert m. induction syms as [|a syms IH]; intros m; [by left|].
  rewrite addSymbols_cons. intros [Hin | [Hin Hid]]%IH.
  - destruct (h !! a) as [s|] eqn:Ha; [|by left].
    apply elem_of_set in Hin as [-> | Hin]; [|by left].
    right. simpl. rewrite Ha. split; [left | done].
  - right. split; [by right | done].
Qed.

Lemma get_addSymbols_other h syms m id :
  Forall (fun a => sym_id <$> h !! a ≠ Some id) syms →
  Js.get id (addSymbols h syms m) = Js.get id m.
Proof.
  revert m. induction syms as [|a syms IH]; intros m; [done|].
  intros [Ha Hsyms]%Forall_cons. rewrite addSymbols_cons, IH by done.
  destruct (h !! a) as [s|]; [|done]. apply get_set_ne. simpl in Ha. congruence.
Qed.

(** Looking an identifier up after [addSymbols]: the added symbols come
    first, the last of them that carries the identifier winning. *)
Lemma get_addSymbols h syms m id :
  Js.get id (addSymbols h syms m)
  = match Js.get id (addSymbols h syms []) with
    | Some a => Some a
    | None => Js.get id m
    end.
Proof.
  induction syms as [|a syms IH] using rev_ind; [done|].
  rewrite !addSymbols_snoc. destruct (h !! a) as [s|]; [|done].
  destruct (decide (sym_id s = id)) as [<-|Hne].
  - by rewrite !get_set_eq.
  - by rewrite !get_set_ne.
Qed.

Lemma elem_of_removeSymbols h syms m e :
  e ∈ removeSymbols h syms m ↔
  e ∈ m ∧ Forall (fun a => sym_id <$> h !! a ≠ Some e.1) syms.
Proof.
  revert m. induction syms as [|a syms IH]; intros m.
  - simpl. split; [by intros ? | by intros [? _]].
  - rewrite removeSymbols_cons, IH, Forall_cons.
    destruct (h !! a) as [s|]; simpl.
    + rewrite elem_of_delete. split.
      * intros [[? ?] ?]. repeat split; [done| |done]. congruence.
      * intros [? [? ?]]. repeat split; [done| |done]. congruence.
    + split; [intros [? ?] | intros [? [? ?]]]; done.
Qed.

Lemma get_removeSymbols_in h syms m a s :
  a ∈ syms → h !! a = Some s → Js.get (sym_id s) (removeSymbols h syms m) = None.
Proof.
  intros Ha Hs. destruct (Js.get _ _) as [v|] eqn:Hget; [|done].
  apply get_Some_elem, elem_of_removeSymbols in Hget as [_ Hall].
  rewrite Forall_forall in Hall. specialize (Hall a Ha).
  rewrite Hs in Hall. done.
Qed.

Lemma get_removeSymbols_other h syms m id :
  Forall (fun a => sym_id <$> h !! a ≠ Some id) syms →
  Js.get id (removeSymbols h syms m) = Js.get id m.
Proof.
  revert m. induction syms as [|a syms IH]; intros m; [done|].
  intros [Ha Hsyms]%Forall_cons. rewrite removeSymbols_cons, IH by done.
  destruct (h !! a) as [s|]; [|done]. apply get_delete_ne. simpl in Ha. congruence.
Qed.

(** Induction on syntax trees, with the children as a list. *)
Lemma ASTNode_nested_ind (P : ASTNode → Prop) :
  (∀ id ty name loc children meta,
      Forall P children → P (mkASTNode id ty name loc children meta)) →
  ∀ node, P node.
Proof.
  intros H. fix IH 1. intros [id ty name loc children meta]. apply H.
  induction children as [|c cs IHcs]; constructor; [apply IH | apply IHcs].
Qed.

Lemma elem_of_removeNodeFromGraph node :
  ∀ m e, e ∈ removeNodeFromGraph node m →
         e ∈ m ∧ ∀ n, n ∈ subnodes node → node_id n ≠ e.1.
Proof.
  induction node as [id ty name loc children meta IH] using ASTNode_nested_ind.
  intros m e. simpl.
  assert (Hfold : ∀ m0, e ∈ fold_left (fun m child => removeNodeFromGraph child m) children m0 →
            e ∈ m0 ∧ ∀ n, n ∈ flat_map subnodes children → node_id n ≠ e.1).
  { induction IH as [|c cs Hc _ IHcs]; intros m0; simpl.
    - intros ?. split; [done|]. intros n Hn. by apply elem_of_nil in Hn.
    - intros [[Hin Hc']%Hc Hcs]%IHcs. split; [done|].
      intros n [?|?]%elem_of_app; auto. }
  intros [[Hin Hid]%elem_of_delete Hsub]%Hfold. split; [done|].
  intros n [->|Hn]%elem_of_cons; [simpl; congruence | auto].
Qed.

Lemma get_removeNodeFromGraph node m n :
  n ∈ subnodes node → Js.get (node_id n) (removeNodeFromGraph node m) = None.
Proof.
  intros Hn. destruct (Js.get _ _) as [v|] eqn:Hget; [|done].
  apply get_Some_elem, elem_of_removeNodeFromGraph in Hget as [_ Hall].
  by destruct (Hall n Hn).
Qed.

Lemma get_addNodeToGraph_other node :
  ∀ m id, (∀ n, n ∈ subnodes node → node_id n ≠ id) →
          Js.get id (addNodeToGraph node m) = Js.get id m.
Proof.
  induction node as [i ty name loc children meta IH] using ASTNode_nested_ind.
  intros m id Hid. simpl.
  assert (Hfold : ∀ m0, Js.get id (fold_left (fun m child => addNodeToGraph child m) children m0)
                        = Js.get id m0).
  { assert (Hcs : ∀ n, n ∈ flat_map subnodes children → node_id n ≠ id).
    { intros n Hn. apply Hid. simpl. by right. }
    clear Hid. induction IH as [|c cs Hc _ IHcs]; intros m0; simpl; [done|].
    rewrite IHcs.
    - apply Hc. intros n Hn. apply Hcs. simpl. apply elem_of_app. by left.
    - intros n Hn. apply Hcs. simpl. apply elem_of_app. by right. }
  rewrite Hfold. apply get_set_ne. apply (Hid (mkASTNode i ty name loc children meta)).
  simpl. by left.
Qed.

(** ** What [addFile] and [removeFile] leave in the graph *)

Lemma addFile_graph r st :
  graph (addFile r st)
  = {| files := Js.set (filePath r) r (files (graph st));
       nodes := addNodeToGraph (ast r) (nodes (graph st));
       symbols := addSymbols (store st) (fa_symbols r) (symbols (graph st));
       dependencies := dependencies (graph st) ++ fa_dependencies r |}.
Proof. unfold addFile. by rewrite buildCrossReferences_graph. Qed.

Lemma removeFile_graph path st F :
  Js.get path (files (graph st)) = Some F →
  graph (removeFile path st)
  = {| files := Js.delete path (files (graph st));
       symbols := removeSymbols (store st) (fa_symbols F) (symbols (graph st));
       nodes := removeNodeFromGraph (ast F) (nodes (graph st));
       dependencies :=
         filter (fun dep => dep_from dep ≠ path) (dependencies (graph st)) |}.
Proof. intros H. unfold removeFile. rewrite H. by rewrite buildCrossReferences_graph. Qed.

Lemma removeFile_absent path st :
  Js.get path (files (graph st)) = None → removeFile path st = st.
Proof. intros H. unfold removeFile. by rewrite H. Qed.

Lemma addFile_sameObjects r st : sameObjects (store st) (store (addFile r st)).
Proof. unfold addFile. apply (buildCrossReferences_sameObjects (mkState _ _)). Qed.

Lemma removeFile_sameObjects path st : sameObjects (store st) (store (removeFile path st)).
Proof.
  unfold removeFile. destruct (Js.get _ _); [|done].
  apply (buildCrossReferences_sameObjects (mkState _ _)).
Qed.

Lemma removeFile_get_files path st q :
  Js.get q (files (graph (removeFile path st)))
  = if bool_decide (q = path) then None else Js.get q (files (graph st)).
Proof.
  destruct (Js.get path (files (graph st))) as [F|] eqn:HF.
  - rewrite (removeFile_graph _ _ F) by done. simpl. case_bool_decide as Hq.
    + subst. apply get_delete_eq.
    + by apply get_delete_ne.
  - rewrite removeFile_absent by done. case_bool_decide; congruence.
Qed.

(** ** The invariants are kept *)

Lemma elem_of_fileSymbols a fs :
  a ∈ fileSymbols fs ↔ ∃ e, e ∈ fs ∧ a ∈ fa_symbols e.2.
Proof. apply elem_of_flat_map. Qed.

Lemma record_ok_sameObjects h h' r : sameObjects h h' → record_ok h r → record_ok h' r.
Proof.
  intros Hh Hr. unfold record_ok in *. eapply Forall_impl; [exact Hr|].
  intros a Ha. simpl in *. by rewrite <- (sameObjects_filePath h h').
Qed.

Lemma files_ok_sameObjects h h' fs : sameObjects h h' → files_ok h fs → files_ok h' fs.
Proof.
  intros Hh Hfs. unfold files_ok in *. eapply Forall_impl; [exact Hfs|].
  intros e [? ?]. split; [done|]. by apply (record_ok_sameObjects h).
Qed.

Lemma symbols_ok_sameObjects h h' fs syms :
  sameObjects h h' → symbols_ok h fs syms → symbols_ok h' fs syms.
Proof.
  intros Hh Hs. unfold symbols_ok in *. eapply Forall_impl; [exact Hs|].
  intros e He. simpl in *. by rewrite <- (sameObjects_id h h').
Qed.

Lemma files_ok_set h fs r :
  files_ok h fs → record_ok h r → files_ok h (Js.set (filePath r) r fs).
Proof.
  unfold files_ok. rewrite !Forall_forall. intros Hfs Hr e [-> | He]%elem_of_set; auto.
Qed.

Lemma files_ok_delete h fs path : files_ok h fs → files_ok h (Js.delete path fs).
Proof.
  unfold files_ok. rewrite !Forall_forall. intros Hfs e [He _]%elem_of_delete. auto.
Qed.

Lemma consistent_sameObjects h h' g :
  sameObjects h h' →
  consistent {| store := h; graph := g |} → consistent {| store := h'; graph := g |}.
Proof.
  intros Hh (Hnd & Hfs & Hsyms). repeat split; simpl in *; [done| |].
  - by apply (files_ok_sameObjects h).
  - by apply (symbols_ok_sameObjects h).
Qed.

Lemma consistent_buildCrossReferences st :
  consistent st → consistent (buildCrossReferences st).
Proof.
  intros H. pose proof (buildCrossReferences_sameObjects st) as Hh.
  pose proof (buildCrossReferences_graph st) as Hg.
  destruct (buildCrossReferences st) as [h' g']. destruct st as [h g].
  simpl in *. subst g'. by apply (consistent_sameObjects h).
Qed.

Lemma consistent_new h : consistent {| store := h; graph := emptyGraph |}.
Proof. repeat split; simpl; constructor. Qed.

Lemma consistent_addFile r st :
  consistent st → record_ok (store st) r →
  Js.get (filePath r) (files (graph st)) = None →
  consistent (addFile r st).
Proof.
  intros (Hnd & Hfs & Hsyms) Hr Hnew. unfold addFile.
  apply consistent_buildCrossReferences. repeat split; simpl.
  - by apply NoDup_keys_set.
  - by apply files_ok_set.
  - unfold symbols_ok in *. rewrite Forall_forall in *.
    rewrite set_absent by done.
    intros e [He | [He Hid]]%elem_of_addSymbols.
    + destruct (Hsyms e He) as [? Hin]. split; [done|].
      unfold fileSymbols. rewrite flat_map_app. apply elem_of_app. by left.
    + split; [done|]. unfold fileSymbols. rewrite flat_map_app. simpl.
      apply elem_of_app. right. by rewrite app_nil_r.
Qed.

Lemma consistent_removeFile path st : consistent st → consistent (removeFile path st).
Proof.
  intros Hc. unfold removeFile.
  destruct (Js.get path (files (graph st))) as [F|] eqn:HF; [|done].
  destruct Hc as (Hnd & Hfs & Hsyms).
  apply consistent_buildCrossReferences. repeat split; simpl.
  - by apply NoDup_keys_delete.
  - by apply files_ok_delete.
  - unfold symbols_ok in *. rewrite Forall_forall in *.
    intros e [He Hgone]%elem_of_removeSymbols.
    destruct (Hsyms e He) as [Hid Hin]. split; [done|].
    apply elem_of_fileSymbols in Hin as (f & Hf & Ha).
    apply elem_of_fileSymbols. exists f. split; [|done].
    apply elem_of_delete. split; [done|]. intros Hp.
    destruct f as [q F']. simpl in *. subst q.
    apply (elem_get _ _ _ Hnd) in Hf. simplify_eq.
    rewrite Forall_forall in Hgone. by apply (Hgone _ Ha).
Qed.

Lemma consistent_ingest r st :
  consistent st → record_ok (store st) r → consistent (ingest r st).
Proof.
  intros Hc Hr. unfold ingest. apply consistent_addFile.
  - by apply consistent_removeFile.
  - apply (record_ok_sameObjects (store st)); [|done]. apply removeFile_sameObjects.
  - rewrite removeFile_get_files. by rewrite bool_decide_eq_true_2.
Qed.

Lemma collectReferences_no_self_import h fs s :
  files_ok h fs → no_self_import (withReferences s (collectReferences h fs s)).
Proof.
  intros Hfs. unfold no_self_import. simpl.
  rewrite collectReferences_unrolled, importReferences_spec by done.
  constructor; [done|]. apply Forall_forall.
  intros ref (I & -> & [[Hne _] _]%list_elem_of_filter)%list_elem_of_fmap _. done.
Qed.

Lemma buildCrossReferences_no_self_import st :
  files_ok (store st) (files (graph st)) →
  map_Forall (fun _ s => no_self_import s) (store st) →
  map_Forall (fun _ s => no_self_import s) (store (buildCrossReferences st)).
Proof.
  intros Hfs Hst a s'. rewrite buildCrossReferences_store.
  destruct (store st !! a) as [s|] eqn:Ha; [|done]. simpl. intros [= <-].
  case_bool_decide; [by apply collectReferences_no_self_import | by apply (Hst a)].
Qed.

Lemma reached_invariant st :
  reached st →
  files_ok (store st) (files (graph st))
  ∧ map_Forall (fun _ s => no_self_import s) (store st).
Proof.
  induction 1 as [h Hnew | st r _ [Hfs Hst] Hr | st path _ [Hfs Hst]].
  - split; [constructor|]. intros a s Hs. unfold no_self_import.
    rewrite (Hnew a s Hs). constructor.
  - assert (Hfs' : files_ok (store st) (Js.set (filePath r) r (files (graph st))))
      by by apply files_ok_set.
    split.
    + rewrite addFile_graph. simpl.
      apply (files_ok_sameObjects (store st)); [apply addFile_sameObjects | done].
    + unfold addFile. by apply buildCrossReferences_no_self_import.
  - unfold removeFile. destruct (Js.get path (files (graph st))) as [F|]; [|done].
    assert (Hfs' : files_ok (store st) (Js.delete path (files (graph st))))
      by by apply files_ok_delete.
    split.
    + rewrite buildCrossReferences_graph. simpl.
      apply (files_ok_sameObjects (store st)); [|done].
      apply (buildCrossReferences_sameObjects (mkState _ _)).
    + by apply buildCrossReferences_no_self_import.
Qed.

(** ** Strings: segments, lower case, occurrences *)

Lemma append_cons c a s : String c a +:+ s = String c (a +:+ s).
Proof. reflexivity. Qed.

Lemma startsWith_append p s : Js.startsWith (p +:+ s) p = true.
Proof.
  induction p as [|c p IH]; [by destruct s|].
  rewrite append_cons. simpl. by rewrite bool_decide_eq_true_2.
Qed.

Lemma includes_startsWith s p : Js.startsWith s p = true → Js.includes s p = true.
Proof. destruct s; simpl; [done|]. intros ->. done. Qed.

Lemma includes_append_r a s p : Js.includes s p = true → Js.includes (a +:+ s) p = true.
Proof.
  intros H. induction a as [|c a IH]; [done|].
  rewrite append_cons. simpl. rewrite IH. apply orb_true_r.
Qed.

Lemma includes_middle a b c : Js.includes (a +:+ b +:+ c) b = true.
Proof. apply includes_append_r, includes_startsWith, startsWith_append. Qed.

Lemma includes_end a b : Js.includes (a +:+ b) b = true.
Proof.
  apply includes_append_r, includes_startsWith.
  induction b as [|c b IH]; [done|]. simpl. by rewrite bool_decide_eq_true_2.
Qed.

Lemma toLowerCase_empty s : Js.toLowerCase s = "" ↔ s = "".
Proof. destruct s; simpl; split; congruence. Qed.

Lemma split_nonempty sep s : Js.split sep s ≠ [].
Proof.
  destruct s as [|c s]; simpl; [done|].
  case_bool_decide; [done|]. by destruct (Js.split sep s).
Qed.

(** A path without a dot is a single segment. *)
Lemma split_dotless s : Js.includes s "." = false → Js.split "." s = [s].
Proof.
  induction s as [|c s IH]; [done|]. simpl.
  intros [Hc Hs]%orb_false_iff. rewrite IH by done.
  case_bool_decide as Hdot; [|done]. subst c. by destruct s.
Qed.

Lemma endsWith_dot_segments s :
  Js.endsWith s "." = true → 2 ≤ length (Js.split "." s).
Proof.
  induction s as [|c s IH]; [done|]. rewrite endsWith_cons.
  intros [Hs%bool_decide_eq_true | Hs]%orb_true_iff.
  - by simplify_eq.
  - specialize (IH Hs). simpl. case_bool_decide; simpl; [lia|].
    destruct (Js.split "." s); simpl in *; lia.
Qed.

(** The last segment is empty exactly for the empty path and for paths that
    end with a dot. *)
Lemma last_segment_empty s :
  Js.pop (Js.split "." s) = Some "" ↔ s = "" ∨ Js.endsWith s "." = true.
Proof.
  unfold Js.pop. induction s as [|c s IH]; [by split; [left|]|].
  rewrite endsWith_cons. simpl Js.split.
  pose proof (split_nonempty "." s) as Hne.
  case_bool_decide as Hdot.
  - subst c. destruct (Js.split "." s) as [|seg segs] eqn:Hsplit; [done|].
    rewrite last_cons_cons, IH. split.
    + intros [-> | ->]; right; [done | apply orb_true_r].
    + intros [? | [Hs%bool_decide_eq_true | ?]%orb_true_iff]; [done| |by right].
      left. congruence.
  - rewrite bool_decide_eq_false_2 by congruence. simpl orb.
    destruct (Js.split "." s) as [|seg [|seg' segs]] eqn:Hsplit; [done| |].
    + split; [done|]. intros [? | Hends]; [done|].
      apply endsWith_dot_segments in Hends. rewrite Hsplit in Hends. simpl in Hends. lia.
    + rewrite last_cons_cons. rewrite last_cons_cons in IH. rewrite IH. split.
      * intros [-> | ?]; [done | by right].
      * intros [? | ?]; [done | by right].
Qed.

Lemma orEmpty_Some s : Js.orEmpty (Some s) = s.
Proof. simpl. by case_bool_decide. Qed.

Lemma deriveExtension_segment path :
  ∃ segment, Js.pop (Js.split "." path) = Some segment
             ∧ deriveExtension path = Js.toLowerCase segment.
Proof.
  unfold deriveExtension, Js.pop.
  destruct (last (Js.split "." path)) as [segment|] eqn:Hlast.
  - exists segment. split; [done|]. apply orEmpty_Some.
  - apply last_None in Hlast. by apply split_nonempty in Hlast.
Qed.

(** ** The registry *)

Lemma getParserTraced_calls parsers filePath extension :
  Forall (fun call => call = (filePath, extension))
    (getParserTraced parsers filePath extension).1.
Proof.
  induction parsers as [|p ps IH]; simpl; [constructor|].
  destruct (canParse p filePath extension); simpl.
  - by repeat constructor.
  - destruct (getParserTraced ps filePath extension). by constructor.
Qed.

Lemma getParser_cons p ps filePath extension :
  getParser (p :: ps) filePath extension
  = if canParse p filePath extension then Some p else getParser ps filePath extension.
Proof.
  unfold getParser. simpl. destruct (canParse p filePath extension); [done|].
  by destruct (getParserTraced ps filePath extension).
Qed.

Lemma getParser_None parsers filePath extension :
  getParser parsers filePath extension = None ↔
  Forall (fun p => canParse p filePath extension = false) parsers.
Proof.
  induction parsers as [|p ps IH]; [by split; [constructor|]|].
  rewrite getParser_cons, Forall_cons.
  destruct (canParse p filePath extension); [split; [done | by intros [? _]]|].
  rewrite IH. tauto.
Qed.

(** [getParser] returns the first adapter that accepts. *)
Lemma getParser_Some parsers filePath extension parser :
  getParser parsers filePath extension = Some parser →
  ∃ before after, parsers = before ++ parser :: after
    ∧ Forall (fun p => canParse p filePath extension = false) before
    ∧ canParse parser filePath extension = true.
Proof.
  induction parsers as [|p ps IH]; [done|]. rewrite getParser_cons.
  destruct (canParse p filePath extension) eqn:Hp.
  - intros [= ->]. exists [], ps. by repeat split.
  - intros (before & after & -> & Hbefore & Hparser)%IH.
    exists (p :: before), after. repeat split; [|done]. by constructor.
Qed.

Lemma parseFile_unfold parsers content filePath :
  parseFile parsers content filePath
  = match getParser parsers filePath (deriveExtension filePath) with
    | None => Normal (failure (noParserMessage filePath (deriveExtension filePath)))
    | Some parser =>
        tryCatch (parse parser content filePath)
          (fun e => Normal (failure (parseErrorMessage filePath e)))
    end.
Proof.
  unfold parseFile, parseFileTraced, getParser.
  by destruct (getParserTraced parsers filePath (deriveExtension filePath)).
Qed.

(** ** The dependency adjacency map *)

Lemma get_addEdge (A : string) depGraph dep :
  Js.get A (addEdge depGraph dep)
  = if decide (dep_from dep = A)
    then Some (default [] (Js.get A depGraph) ++ [dep_to dep])
    else Js.get A depGraph.
Proof.
  unfold addEdge, Js.has. destruct (decide (dep_from dep = A)) as [<-|Hne].
  - destruct (Js.get (dep_from dep) depGraph) as [tos|] eqn:Hget; simpl.
    + by rewrite Hget, get_set_eq.
    + by rewrite !get_set_eq.
  - destruct (Js.get (dep_from dep) depGraph) as [tos|] eqn:Hget; simpl.
    + rewrite Hget. by apply get_set_ne.
    + rewrite get_set_eq. by rewrite !get_set_ne.
Qed.

Lemma getDependencyGraph_fold (A : string) (deps : list Dependency) :
  ∀ depGraph,
    Js.get A (fold_left addEdge deps depGraph)
    = match dep_to <$> filter (fun dep => dep_from dep = A) deps with
      | [] => Js.get A depGraph
      | tos => Some (default [] (Js.get A depGraph) ++ tos)
      end.
Proof.
  induction deps as [|dep deps IH]; intros depGraph; [done|].
  simpl fold_left. rewrite IH, get_addEdge, filter_cons. clear IH.
  destruct (decide (dep_from dep = A)) as [_|_]; [|done].
  rewrite fmap_cons. simpl.
  destruct (dep_to <$> filter (λ dep0, dep_from dep0 = A) deps) as [|to' tos']; [done|].
  by rewrite <- (assoc (++)).
Qed.

(** C7. For a file path [A] that is the source of at least one dependency
    edge, the map [getDependencyGraph] returns holds under [A] the [to]
    targets of exactly the edges whose [from] is [A], in the order of the
    flat edge list. *)
Theorem C7_dependency_adjacency (g : CodeGraph) (A : string) :
  (∃ dep, dep ∈ dependencies g ∧ dep_from dep = A) →
  Js.get A (getDependencyGraph g)
  = Some (dep_to <$> filter (fun dep => dep_from dep = A) (dependencies g)).
Proof.
  intros (dep & Hin & Hfrom). unfold getDependencyGraph.
  rewrite getDependencyGraph_fold.
  destruct (dep_to <$> filter _ _) as [|to' tos] eqn:Htos; [|done].
  apply fmap_nil_inv in Htos.
  assert (Hd : dep ∈ filter (fun dep => dep_from dep = A) (dependencies g))
    by by apply list_elem_of_filter.
  rewrite Htos in Hd. by apply elem_of_nil in Hd.
Qed.

Lemma C7_dependency_adjacency_witness :
  let g := graph (Instances.both Example.aRel Example.bRel) in
  (∃ dep, dep ∈ dependencies g ∧ dep_from dep = Example.bRel)
  ∧ Js.get Example.bRel (getDependencyGraph g) = Some ["./a"].
Proof.
  assert (H : ∃ dep, dep ∈ dependencies (graph (Instances.both Example.aRel Example.bRel))
                     ∧ dep_from dep = Example.bRel).
  { exists (mkDependency Example.bRel "./a" DepImport ["add"]).
    split; [vm_compute; left | reflexivity]. }
  split; [exact H|].
  exact (C7_dependency_adjacency _ _ H).
Defined.

(** ** Removal *)

(** C6. [removeFile] on a path that has no record in the file map returns
    with the whole state as it was: node map, symbol map, every symbol
    object and so every reference list, edge list and file map. *)
Theorem C6_removeFile_absent_noop (st : State) (path : string) :
  Js.has path (files (graph st)) = false → removeFile path st = st.
Proof.
  unfold Js.has, removeFile. by destruct (Js.get path (files (graph st))).
Qed.

Lemma C6_removeFile_absent_noop_witness :
  let st := Instances.both Example.aTs Example.bTs in
  Js.has "/project/src/c.ts" (files (graph st)) = false
  ∧ removeFile "/project/src/c.ts" st = st.
Proof.
  assert (H : Js.has "/project/src/c.ts"
                (files (graph (Instances.both Example.aTs Example.bTs))) = false)
    by (vm_compute; reflexivity).
  split; [exact H|].
  exact (C6_removeFile_absent_noop _ _ H).
Defined.

(** ** The registry contains faults *)

(** C5. [parseFile] always completes with an outcome and never with a
    fault.  When no registered adapter accepts the derived extension the
    outcome is a failure with a message; when the adapter [getParser]
    selects completes with an outcome, that outcome is returned unchanged;
    when its [parse] faults, the outcome is a failure whose message contains
    the file path and the text of the error. *)
Theorem C5_parseFile_fault_containment
    (parsers : DefaultASTParserRegistry) (content filePath : string) :
  (∃ outcome, parseFile parsers content filePath = Normal outcome)
  ∧ (Forall (fun p => canParse p filePath (deriveExtension filePath) = false) parsers →
     ∃ message,
       parseFile parsers content filePath = Normal (failure message)
       ∧ success (failure message) = false
       ∧ error (failure message) = Some message)
  ∧ (∀ parser,
       getParser parsers filePath (deriveExtension filePath) = Some parser →
       (∀ outcome,
          parse parser content filePath = Normal outcome →
          parseFile parsers content filePath = Normal outcome)
       ∧ (∀ e,
            parse parser content filePath = Abrupt e →
            ∃ message,
              parseFile parsers content filePath = Normal (failure message)
              ∧ success (failure message) = false
              ∧ Js.includes message filePath = true
              ∧ Js.includes message (errorText e) = true)).
Proof.
  rewrite parseFile_unfold. split; [|split].
  - destruct (getParser _ _ _) as [parser|]; [|eauto].
    destruct (parse parser content filePath); simpl; eauto.
  - intros Hnone%getParser_None. rewrite Hnone. eauto.
  - intros parser ->. split.
    + by intros outcome ->.
    + intros e ->. simpl. eexists. split; [done|]. split; [done|].
      unfold parseErrorMessage. split.
      * apply includes_middle.
      * apply includes_append_r, includes_append_r, includes_end.
Qed.

Lemma C5_parseFile_fault_containment_witness :
  (* no adapter for [.py] *)
  (∃ message, parseFile Instances.registry "x = 1" "/project/tool.py"
              = Normal (failure message))
  (* the adapter succeeds *)
  ∧ parseFile Instances.registry "let x = 1" "/project/src/a.ts"
    = Normal (Instances.parsed "/project/src/a.ts")
  (* the adapter faults *)
  ∧ (∃ message, parseFile Instances.registry "" "/project/src/a.ts"
                = Normal (failure message)
                ∧ Js.includes message "/project/src/a.ts" = true
                ∧ Js.includes message "Unexpected token" = true).
Proof.
  split; [|split].
  - destruct (C5_parseFile_fault_containment Instances.registry "x = 1" "/project/tool.py")
      as (_ & Hnone & _).
    destruct Hnone as (message & H & _); [by repeat constructor|].
    by exists message.
  - destruct (C5_parseFile_fault_containment Instances.registry "let x = 1"
                "/project/src/a.ts") as (_ & _ & Hsel).
    destruct (Hsel Instances.jsTs) as [Hok _]; [reflexivity|].
    by apply Hok.
  - destruct (C5_parseFile_fault_containment Instances.registry ""
                "/project/src/a.ts") as (_ & _ & Hsel).
    destruct (Hsel Instances.jsTs) as [_ Hfault]; [reflexivity|].
    destruct (Hfault (ThrownError "Unexpected token")) as (message & ? & _ & ? & ?);
      [reflexivity|].
    by exists message.
Defined.

(** C10. For a file path without a dot, the extension [parseFile] derives is
    the whole path in lower case, and it is what every call to a capability
    predicate receives; it is not the empty string unless the path is.  For
    any path, the derived extension is empty exactly when the last segment
    is, that is when the path is empty or ends with a dot. *)
Theorem C10_extension_of_dotless_path
    (parsers : DefaultASTParserRegistry) (content filePath : string) :
  Js.includes filePath "." = false →
  deriveExtension filePath = Js.toLowerCase filePath
  ∧ Forall (fun call => call = (filePath, Js.toLowerCase filePath))
      (parseFileTraced parsers content filePath).1
  ∧ (filePath ≠ "" → deriveExtension filePath ≠ "")
  ∧ (∀ path,
       deriveExtension path = "" ↔
       Js.pop (Js.split "." path) = Some "")
  ∧ (∀ path,
       deriveExtension path = "" ↔ path = "" ∨ Js.endsWith path "." = true).
Proof.
  intros Hdot.
  assert (Hext : deriveExtension filePath = Js.toLowerCase filePath).
  { unfold deriveExtension. rewrite split_dotless by done. apply orEmpty_Some. }
  assert (Hseg : ∀ path, deriveExtension path = "" ↔ Js.pop (Js.split "." path) = Some "").
  { intros path. destruct (deriveExtension_segment path) as (segment & -> & ->).
    rewrite toLowerCase_empty. split; congruence. }
  repeat split.
  - done.
  - unfold parseFileTraced. rewrite <- Hext.
    pose proof (getParserTraced_calls parsers filePath (deriveExtension filePath)) as H.
    by destruct (getParserTraced parsers filePath (deriveExtension filePath)).
  - rewrite Hext, toLowerCase_empty. done.
  - by apply Hseg.
  - by apply Hseg.
  - rewrite Hseg. apply last_segment_empty.
  - rewrite Hseg. apply last_segment_empty.
Qed.

Lemma C10_extension_of_dotless_path_witness :
  Js.includes "/project/Makefile" "." = false
  ∧ deriveExtension "/project/Makefile" = "/project/makefile"
  ∧ (parseFileTraced Instances.registry "all:" "/project/Makefile").1
    = [("/project/Makefile", "/project/makefile");
       ("/project/Makefile", "/project/makefile")].
Proof.
  assert (H : Js.includes "/project/Makefile" "." = false) by reflexivity.
  destruct (C10_extension_of_dotless_path Instances.registry "all:" "/project/Makefile" H)
    as (Hext & _).
  split; [exact H|]. split; [exact Hext|]. reflexivity.
Defined.

(** ** Maintained graphs *)

Lemma has_false {V} k (m : Js.Map V) : Js.has k m = false ↔ Js.get k m = None.
Proof. unfold Js.has. destruct (Js.get k m); split; congruence. Qed.

Lemma elem_of_set_NoDup {V} (e : string * V) k v m :
  NoDup (Js.keys m) → e ∈ Js.set k v m → e = (k, v) ∨ (e ∈ m ∧ e.1 ≠ k).
Proof.
  unfold Js.keys. induction m as [|[k0 v0] m IH]; simpl.
  - intros _ ->%list_elem_of_singleton. by left.
  - intros [Hk Hnd]%NoDup_cons. case_bool_decide as Hk0.
    + subst k0. intros [-> | Hin]%elem_of_cons; [by left|]. right.
      split; [by right|]. intros <-. apply Hk.
      by apply (list_elem_of_fmap_2 fst) in Hin.
    + intros [-> | Hin]%elem_of_cons.
      * right. split; [by left | done].
      * destruct (IH Hnd Hin) as [-> | [? ?]]; [by left|].
        right. split; [by right | done].
Qed.

Lemma references_current_buildCrossReferences st :
  references_current (buildCrossReferences st).
Proof.
  unfold references_current. apply Forall_forall. intros a Ha.
  rewrite buildCrossReferences_graph in *.
  rewrite buildCrossReferences_store.
  rewrite bool_decide_eq_true_2 by done.
  destruct (store st !! a) as [s|]; [|done]. simpl. f_equal.
  apply collectReferences_sameObjects; [|done].
  apply buildCrossReferences_sameObjects.
Qed.

(** A rebuild changes nothing in a state whose references are current. *)
Lemma buildCrossReferences_current st :
  references_current st → buildCrossReferences st = st.
Proof.
  intros Hcur. pose proof (buildCrossReferences_graph st) as Hg.
  assert (Hs : store (buildCrossReferences st) = store st).
  { apply map_eq. intros a. rewrite buildCrossReferences_store.
    destruct (store st !! a) as [s|] eqn:Ha; [|done]. simpl.
    case_bool_decide as Hin; [|done]. f_equal.
    unfold references_current in Hcur. rewrite Forall_forall in Hcur.
    specialize (Hcur a Hin). rewrite Ha in Hcur. simpl in Hcur.
    apply (inj Some) in Hcur. rewrite <- Hcur. by destruct s. }
  destruct (buildCrossReferences st), st. simpl in *. by subst.
Qed.

Lemma buildCrossReferences_idempotent st :
  buildCrossReferences (buildCrossReferences st) = buildCrossReferences st.
Proof. apply buildCrossReferences_current, references_current_buildCrossReferences. Qed.

Lemma maintained_invariant st :
  maintained st → consistent st ∧ references_current st.
Proof.
  induction 1 as [h | st r _ [Hc Hcur] Hr Hnew | st path _ [Hc Hcur]].
  - split; [apply consistent_new | constructor].
  - split; [|apply references_current_buildCrossReferences].
    apply consistent_addFile; [done..|]. by apply has_false.
  - split; [by apply consistent_removeFile|].
    unfold removeFile. destruct (Js.get path (files (graph st))); [|done].
    apply references_current_buildCrossReferences.
Qed.

Lemma maintained_ingest r st :
  maintained st → record_ok (store st) r → maintained (ingest r st).
Proof.
  intros Hm Hr. unfold ingest. apply maintained_addFile.
  - by apply maintained_removeFile.
  - apply (record_ok_sameObjects (store st)); [|done]. apply removeFile_sameObjects.
  - apply has_false. rewrite removeFile_get_files. by rewrite bool_decide_eq_true_2.
Qed.

Lemma symbolAt_Some st id S :
  symbolAt st id = Some S →
  ∃ a, Js.get id (symbols (graph st)) = Some a ∧ store st !! a = Some S.
Proof.
  unfold symbolAt. destruct (Js.get id (symbols (graph st))) as [a|]; [|done].
  simpl. eauto.
Qed.

Lemma symbols_ok_get st id a :
  consistent st → Js.get id (symbols (graph st)) = Some a →
  sym_id <$> store st !! a = Some id ∧ a ∈ fileSymbols (files (graph st)).
Proof.
  intros (_ & _ & Hsyms) Hget%get_Some_elem.
  unfold symbols_ok in Hsyms. rewrite Forall_forall in Hsyms.
  apply (Hsyms _ Hget).
Qed.

Lemma files_ok_filePath st a S :
  consistent st → a ∈ fileSymbols (files (graph st)) → store st !! a = Some S →
  ∃ F, Js.get (sym_filePath S) (files (graph st)) = Some F ∧ a ∈ fa_symbols F.
Proof.
  intros (Hnd & Hfs & _) (e & He & Ha)%elem_of_fileSymbols HS.
  unfold files_ok in Hfs. rewrite Forall_forall in Hfs.
  destruct (Hfs e He) as [Hpath Hr].
  destruct (record_ok_lookup _ _ _ Hr Ha) as (S' & HS' & Hfp). simplify_eq.
  exists e.2. split; [|done]. apply elem_get; [done|].
  rewrite Hfp, Hpath. by destruct e.
Qed.

Lemma current_references st a S :
  consistent st → references_current st →
  a ∈ fileSymbols (files (graph st)) → store st !! a = Some S →
  sym_references S = spec_references st S.
Proof.
  intros (_ & Hfs & _) Hcur Ha HS.
  unfold references_current in Hcur. rewrite Forall_forall in Hcur.
  specialize (Hcur a Ha). rewrite HS in Hcur. simpl in Hcur.
  apply (inj Some) in Hcur. rewrite Hcur. by apply collectReferences_spec.
Qed.

(** ** Cross-references after an update *)

(** C4. In a graph maintained by [addFile] and [removeFile], after any of
    the calls, every symbol of the symbol map has the reference list of the
    formula: one definition reference, at the symbol's own file and span,
    followed by one import reference for every symbol [I] of a different
    file whose kind is import, whose source starts with [./] or [../] and,
    stripped of a [js], [ts], [jsx] or [tsx] extension, occurs in the path
    of the symbol's file, and whose [importName] or [importedAs] is the
    symbol's name.  In particular, exactly one of its references is a
    definition. *)
Theorem C4_cross_reference_formula (st : State) (id : string) (S : Symbol) :
  maintained st →
  symbolAt st id = Some S →
  sym_references S = spec_references st S
  ∧ length (filter (fun ref => ref_type ref = RefDefinition) (sym_references S)) = 1.
Proof.
  intros [Hc Hcur]%maintained_invariant (a & Hget & HS)%symbolAt_Some.
  destruct (symbols_ok_get st id a Hc Hget) as [_ Hin].
  assert (Hrefs := current_references st a S Hc Hcur Hin HS).
  split; [done|]. rewrite Hrefs. unfold spec_references.
  rewrite filter_cons_True by done. simpl. f_equal.
  apply length_zero_iff_nil, filter_none, Forall_forall.
  by intros ref (I & -> & _)%list_elem_of_fmap.
Qed.

Ltac solve_record_ok :=
  unfold record_ok;
  repeat (constructor; [vm_compute; reflexivity|]);
  constructor.

Lemma both_maintained_rel : maintained (Instances.both Example.aRel Example.bRel).
Proof.
  unfold Instances.both.
  apply maintained_ingest; [apply maintained_ingest; [apply maintained_new|]|];
    solve_record_ok.
Qed.

Lemma both_maintained_abs : maintained (Instances.both Example.aTs Example.bTs).
Proof.
  unfold Instances.both.
  apply maintained_ingest; [apply maintained_ingest; [apply maintained_new|]|];
    solve_record_ok.
Qed.

Lemma C4_cross_reference_formula_witness :
  let st := Instances.both Example.aRel Example.bRel in
  let S := Example.functionOf Example.aRel "add" (Example.lineSpan 1 7 42) 2 in
  let I := Example.importOf Example.bRel "add" "./a" (Example.lineSpan 1 0 25) in
  maintained st
  ∧ (eraseReferences <$> symbolAt st (Example.addId Example.aRel)) = Some S
  ∧ (sym_references <$> symbolAt st (Example.addId Example.aRel))
    = Some [definitionReference S; importReference I].
Proof.
  intros st S I.
  assert (Hat : symbolAt st (Example.addId Example.aRel)
                = Some (withReferences S [definitionReference S; importReference I]))
    by (vm_compute; reflexivity).
  destruct (C4_cross_reference_formula st _ _ both_maintained_rel Hat) as [Hrefs _].
  split; [exact both_maintained_rel|]. split; [by rewrite Hat|].
  rewrite Hat. reflexivity.
Defined.

(** ** No dangling references *)

(** C3. In a consistent graph, after [removeFile(p)] for a path [p] of the
    file map, no reference of any symbol of the symbol map has [p] as its
    file path; the identifiers of the removed record's symbols and of its
    syntax nodes are no longer keys of the symbol and node maps, none of its
    symbol objects is left in the symbol map, no edge of the edge list
    leaves [p], and [p] has no record. *)
Theorem C3_no_dangling_references (st : State) (path : string) (F : FileAST) :
  consistent st →
  Js.get path (files (graph st)) = Some F →
  let st' := removeFile path st in
  (∀ id S ref,
     symbolAt st' id = Some S → ref ∈ sym_references S → ref_filePath ref ≠ path)
  ∧ (∀ a S, a ∈ fa_symbols F → store st !! a = Some S →
            Js.get (sym_id S) (symbols (graph st')) = None)
  ∧ (∀ id a, Js.get id (symbols (graph st')) = Some a → a ∉ fa_symbols F)
  ∧ (∀ n, n ∈ subnodes (ast F) → Js.get (node_id n) (nodes (graph st')) = None)
  ∧ (∀ dep, dep ∈ dependencies (graph st') → dep_from dep ≠ path)
  ∧ Js.get path (files (graph st')) = None.
Proof.
  intros Hc HF st'.
  assert (Hc' : consistent st') by by apply consistent_removeFile.
  assert (Hcur : references_current st').
  { unfold st', removeFile. rewrite HF. apply references_current_buildCrossReferences. }
  assert (Hg := removeFile_graph path st F HF). fold st' in Hg.
  assert (Hgone : Js.get path (files (graph st')) = None).
  { rewrite Hg. simpl. apply get_delete_eq. }
  assert (Hkept : ∀ a S, a ∈ fileSymbols (files (graph st')) → store st' !! a = Some S →
                         sym_filePath S ≠ path).
  { intros a S Ha HS Hp.
    destruct (files_ok_filePath st' a S Hc' Ha HS) as (F' & HF' & _). congruence. }
  repeat split.
  - intros id S ref (a & Hget & HS)%symbolAt_Some Href.
    destruct (symbols_ok_get st' id a Hc' Hget) as [_ Hin].
    rewrite (current_references st' a S Hc' Hcur Hin HS) in Href.
    unfold spec_references in Href.
    apply elem_of_cons in Href as [-> | (I & -> & [_ HI]%list_elem_of_filter)%list_elem_of_fmap].
    + simpl. by apply (Hkept a).
    + apply list_elem_of_omap in HI as (a' & Ha' & HI). simpl.
      by apply (Hkept a').
  - intros a S Ha HS. rewrite Hg. simpl. by apply (get_removeSymbols_in _ _ _ a).
  - intros id a Hget Ha.
    destruct (symbols_ok_get st' id a Hc' Hget) as [Hid Hin].
    destruct (store st' !! a) as [S|] eqn:HS; [|done].
    destruct (files_ok_filePath st' a S Hc' Hin HS) as (F' & HF' & _).
    destruct Hc as (_ & Hfs & _). unfold files_ok in Hfs. rewrite Forall_forall in Hfs.
    destruct (Hfs _ (get_Some_elem _ _ _ HF)) as [Hpath Hr]. simpl in *.
    destruct (record_ok_lookup _ _ _ Hr Ha) as (S0 & HS0 & Hfp).
    pose proof (sameObjects_filePath _ _ a (removeFile_sameObjects path st)) as Hsame.
    fold st' in Hsame. rewrite HS0, HS in Hsame. simpl in Hsame.
    apply (inj Some) in Hsame. congruence.
  - intros n Hn. rewrite Hg. simpl. by apply get_removeNodeFromGraph.
  - intros dep Hdep. rewrite Hg in Hdep. simpl in Hdep.
    by apply list_elem_of_filter in Hdep as [? _].
  - done.
Qed.

Lemma C3_no_dangling_references_witness :
  let st := Instances.both Example.aRel Example.bRel in
  let st' := removeFile Example.bRel st in
  consistent st
  ∧ Js.get Example.bRel (files (graph st)) = Some (Example.recordB Example.bRel)
  ∧ (∀ id S ref,
       symbolAt st' id = Some S → ref ∈ sym_references S →
       ref_filePath ref ≠ Example.bRel)
  ∧ Js.get (Example.bRel +:+ ":add:import:1") (symbols (graph st')) = None
  ∧ (∀ dep, dep ∈ dependencies (graph st') → dep_from dep ≠ Example.bRel).
Proof.
  intros st st'.
  assert (Hc : consistent st) by apply maintained_invariant, both_maintained_rel.
  assert (HF : Js.get Example.bRel (files (graph st)) = Some (Example.recordB Example.bRel))
    by (vm_compute; reflexivity).
  destruct (C3_no_dangling_references st _ _ Hc HF) as (Hrefs & Hsyms & _ & _ & Hdeps & _).
  split; [exact Hc|]. split; [exact HF|]. split; [exact Hrefs|]. split; [|exact Hdeps].
  set (I := Example.importOf Example.bRel "add" "./a" (Example.lineSpan 1 0 25)).
  apply (Hsyms 2 (withReferences I [definitionReference I])).
  - vm_compute. left.
  - vm_compute. reflexivity.
Defined.

(** ** Self-reference exclusion *)

(** C8. In every state reached by calls of [addFile] and [removeFile], in
    any order, no import reference of a symbol of the symbol map has the
    symbol's own file as its file path. *)
Theorem C8_self_reference_exclusion (st : State) (id : string) (S : Symbol)
    (ref : SymbolReference) :
  reached st →
  symbolAt st id = Some S →
  ref ∈ sym_references S →
  ref_type ref = RefImport →
  ref_filePath ref ≠ sym_filePath S.
Proof.
  intros [_ Hst]%reached_invariant (a & _ & HS)%symbolAt_Some Href Himport.
  specialize (Hst a S HS). unfold no_self_import in Hst.
  rewrite Forall_forall in Hst. by apply Hst.
Qed.

Lemma objects_fresh pa pb :
  map_Forall (fun _ s => sym_references s = []) (Example.objects pa pb).
Proof.
  unfold Example.objects. simpl list_to_map.
  repeat (apply map_Forall_insert_2; [reflexivity|]). apply map_Forall_empty.
Qed.

Lemma both_reached_rel : reached (Instances.both Example.aRel Example.bRel).
Proof.
  unfold Instances.both, ingest.
  apply reached_addFile; [apply reached_removeFile, reached_addFile;
    [apply reached_removeFile, reached_new, objects_fresh|]|];
    solve_record_ok.
Qed.

Lemma C8_self_reference_exclusion_witness :
  let st := Instances.both Example.aRel Example.bRel in
  let S := Example.functionOf Example.aRel "add" (Example.lineSpan 1 7 42) 2 in
  let I := Example.importOf Example.bRel "add" "./a" (Example.lineSpan 1 0 25) in
  let S' := withReferences S [definitionReference S; importReference I] in
  reached st
  ∧ symbolAt st (Example.addId Example.aRel) = Some S'
  ∧ importReference I ∈ sym_references S'
  ∧ ref_type (importReference I) = RefImport
  ∧ ref_filePath (importReference I) ≠ sym_filePath S'.
Proof.
  intros st S I S'.
  assert (Hat : symbolAt st (Example.addId Example.aRel) = Some S')
    by (vm_compute; reflexivity).
  assert (Hin : importReference I ∈ sym_references S') by (right; left).
  assert (Himp : ref_type (importReference I) = RefImport) by reflexivity.
  split; [exact both_reached_rel|]. split; [exact Hat|]. split; [exact Hin|].
  split; [exact Himp|].
  exact (C8_self_reference_exclusion st _ S' _ both_reached_rel Hat Hin Himp).
Defined.

(** ** [addFile] over an existing record *)

(** C9. When [addFile(r)] is called while the file map holds a record [old]
    for the path of [r]: [r] takes the place of [old] in the file map; a
    symbol of [old] whose identifier no symbol of [r] carries keeps its
    entry in the symbol map, and so does a syntax node of [old] whose
    identifier no node of [r] carries in the node map; the edge list keeps
    all its edges, those of [old] included, before those of [r].  In a
    consistent graph, a symbol object of [old] that stays in the symbol
    map this way, not being a symbol of [r], belongs to no record of the
    file map. *)
Theorem C9_addFile_over_existing_record (st : State) (r old : FileAST) :
  Js.get (filePath r) (files (graph st)) = Some old →
  let st' := addFile r st in
  Js.get (filePath r) (files (graph st')) = Some r
  ∧ Js.keys (files (graph st')) = Js.keys (files (graph st))
  ∧ (∀ a S, a ∈ fa_symbols old → store st !! a = Some S →
       Forall (fun a' => sym_id <$> store st !! a' ≠ Some (sym_id S)) (fa_symbols r) →
       Js.get (sym_id S) (symbols (graph st')) = Js.get (sym_id S) (symbols (graph st)))
  ∧ (∀ n, n ∈ subnodes (ast old) →
       (∀ n', n' ∈ subnodes (ast r) → node_id n' ≠ node_id n) →
       Js.get (node_id n) (nodes (graph st')) = Js.get (node_id n) (nodes (graph st)))
  ∧ dependencies (graph st') = dependencies (graph st) ++ fa_dependencies r
  ∧ (∀ a S, consistent st →
       a ∈ fa_symbols old → store st !! a = Some S →
       Js.get (sym_id S) (symbols (graph st)) = Some a →
       Forall (fun a' => sym_id <$> store st !! a' ≠ Some (sym_id S)) (fa_symbols r) →
       a ∉ fa_symbols r →
       Js.get (sym_id S) (symbols (graph st')) = Some a
       ∧ a ∉ fileSymbols (files (graph st'))).
Proof.
  intros Hold st'. unfold st'. rewrite addFile_graph. simpl.
  assert (Hsyms : ∀ a S, a ∈ fa_symbols old → store st !! a = Some S →
     Forall (fun a' => sym_id <$> store st !! a' ≠ Some (sym_id S)) (fa_symbols r) →
     Js.get (sym_id S) (addSymbols (store st) (fa_symbols r) (symbols (graph st)))
     = Js.get (sym_id S) (symbols (graph st))).
  { intros a S _ _ Hids. by apply get_addSymbols_other. }
  split; [apply get_set_eq|].
  split; [apply keys_set_present; by rewrite Hold|].
  split; [done|].
  split; [intros n _ Hids; by apply get_addNodeToGraph_other|].
  split; [done|].
  intros a S (Hnd & Hfs & _) Ha HS Hget Hids Hnew.
  split; [by rewrite (Hsyms a S)|].
  intros (e & He & Hae)%elem_of_fileSymbols.
  apply elem_of_set_NoDup in He as [-> | [He Hne]]; [done| |done].
  unfold files_ok in Hfs. rewrite Forall_forall in Hfs.
  destruct (Hfs _ He) as [Hpath Hr].
  destruct (Hfs _ (get_Some_elem _ _ _ Hold)) as [Hpath' Hr']. simpl in *.
  destruct (record_ok_lookup _ _ _ Hr Hae) as (S1 & HS1 & Hfp1).
  destruct (record_ok_lookup _ _ _ Hr' Ha) as (S2 & HS2 & Hfp2).
  congruence.
Qed.

Lemma C9_addFile_over_existing_record_witness :
  let st := Instances.both Example.aTs Example.bTs in
  let st' := addFile (Example.recordA2 Example.aTs) st in
  Js.get Example.aTs (files (graph st)) = Some (Example.recordA Example.aTs)
  ∧ Js.get Example.aTs (files (graph st')) = Some (Example.recordA2 Example.aTs)
  ∧ Js.get (Example.addId Example.aTs) (symbols (graph st')) = Some 1
  ∧ 1 ∉ fileSymbols (files (graph st')).
Proof.
  intros st st'.
  assert (Hold : Js.get (filePath (Example.recordA2 Example.aTs)) (files (graph st))
                 = Some (Example.recordA Example.aTs)) by (vm_compute; reflexivity).
  destruct (C9_addFile_over_existing_record st _ _ Hold) as (Hnew & _ & _ & _ & _ & Horphan).
  set (S := Example.functionOf Example.aTs "add" (Example.lineSpan 1 7 42) 2).
  destruct (Horphan 1 (withReferences S [definitionReference S])) as [Hget Hnot].
  - apply maintained_invariant, both_maintained_abs.
  - vm_compute. right. left.
  - vm_compute. reflexivity.
  - vm_compute. reflexivity.
  - repeat constructor. vm_compute. discriminate.
  - vm_compute. intros Hin. apply list_elem_of_singleton in Hin. discriminate.
  - split; [exact Hold|]. split; [exact Hnew|]. split; [exact Hget | exact Hnot].
Defined.

(** ** The end-to-end scenario *)

(** C1, on the scenario of the specification.  With [a.ts] and [b.ts] under
    the paths the server uses, [./a] is not found in the path of [a.ts]
    (the leading [./] is part of what is searched for), and after both files
    are ingested, in either order, the only reference of the function [add]
    is its definition: the import in [b.ts] is not among its references, and
    [findSymbolReferencesAcrossProject("add")] returns no reference of kind
    import. *)
Theorem C1_scenario_import_reference_missing :
  let S := Example.functionOf Example.aTs "add" (Example.lineSpan 1 7 42) 2 in
  let new := Example.new Example.aTs Example.bTs in
  let A := Example.recordA Example.aTs in
  let B := Example.recordB Example.bTs in
  isSymbolFromFile "./a" Example.aTs = false
  ∧ (sym_references <$> symbolAt (ingest B (ingest A new)) (Example.addId Example.aTs))
    = Some [definitionReference S]
  ∧ (sym_references <$> symbolAt (ingest A (ingest B new)) (Example.addId Example.aTs))
    = Some [definitionReference S]
  ∧ ref_type <$> findSymbolReferencesAcrossProject "add" (ingest B (ingest A new))
    = [RefDefinition; RefDefinition; RefDefinition]
  ∧ ref_type <$> findSymbolReferencesAcrossProject "add" (ingest A (ingest B new))
    = [RefDefinition; RefDefinition; RefDefinition].
Proof. vm_compute. done. Qed.

(** ** Re-ingestion of an unchanged file *)

Lemma addSymbols_sameObjects h h' syms m :
  sameObjects h h' → addSymbols h syms m = addSymbols h' syms m.
Proof.
  intros Hh. revert m. induction syms as [|a syms IH]; intros m; [done|].
  rewrite !addSymbols_cons, IH. f_equal.
  pose proof (sameObjects_id h h' a Hh) as Hid.
  destruct (h !! a), (h' !! a); simplify_eq/=; try done. by rewrite Hid.
Qed.

Lemma get_ownIndex_None h syms id :
  Js.get id (addSymbols h syms []) = None →
  Forall (fun a => sym_id <$> h !! a ≠ Some id) syms.
Proof.
  induction syms as [|a syms IH] using rev_ind; [constructor|].
  rewrite addSymbols_snoc, Forall_app, Forall_singleton.
  destruct (h !! a) as [s|]; simpl.
  - destruct (decide (sym_id s = id)) as [<-|Hne].
    + by rewrite get_set_eq.
    + rewrite get_set_ne by done. intros ?%IH. split; [done | congruence].
  - intros ?%IH. done.
Qed.

Lemma elem_of_ownIndex h r e :
  e ∈ ownIndex h r → e.2 ∈ fa_symbols r ∧ sym_id <$> h !! e.2 = Some e.1.
Proof.
  intros [He | ?]%elem_of_addSymbols; [by apply elem_of_nil in He | done].
Qed.






Lemma fileSymbols_elem e a fs :
  e ∈ fs → a ∈ fa_symbols e.2 → a ∈ fileSymbols fs.
Proof. intros. apply elem_of_fileSymbols. eauto. Qed.



Lemma current_references_unrolled st a S :
  references_current st →
  a ∈ fileSymbols (files (graph st)) → store st !! a = Some S →
  sym_references S
  = definitionReference S :: importReferences (store st) (files (graph st)) S.
Proof.
  intros Hcur Ha HS. unfold references_current in Hcur. rewrite Forall_forall in Hcur.
  specialize (Hcur a Ha). rewrite HS in Hcur. simpl in Hcur.
  apply (inj Some) in Hcur. by rewrite Hcur, collectReferences_unrolled.
Qed.








(** ** The update procedure keeps a graph settled *)

Lemma NoDup_keys_addSymbols h syms m :
  NoDup (Js.keys m) → NoDup (Js.keys (addSymbols h syms m)).
Proof.
  revert m. induction syms as [|a syms IH]; intros m Hm; [done|].
  rewrite addSymbols_cons. apply IH. destruct (h !! a); [|done].
  by apply NoDup_keys_set.
Qed.

Lemma get_ownIndex h r id a :
  (id, a) ∈ ownIndex h r → Js.get id (ownIndex h r) = Some a.
Proof. apply elem_get, NoDup_keys_addSymbols. constructor. Qed.

Lemma get_ownIndex_member h syms a s :
  a ∈ syms → h !! a = Some s → is_Some (Js.get (sym_id s) (addSymbols h syms [])).
Proof.
  intros Ha Hs. destruct (Js.get _ _) eqn:Hget; [eauto|].
  apply get_ownIndex_None in Hget. rewrite Forall_forall in Hget.
  specialize (Hget a Ha). rewrite Hs in Hget. done.
Qed.

Lemma symbols_indexed_get st e id a :
  symbols_indexed st → e ∈ files (graph st) → (id, a) ∈ ownIndex (store st) e.2 →
  Js.get id (symbols (graph st)) = Some a.
Proof.
  unfold symbols_indexed. rewrite Forall_forall. intros Hindex He Hin.
  specialize (Hindex e He). rewrite Forall_forall in Hindex. apply (Hindex (id, a) Hin).
Qed.

Lemma files_ok_symbol st e a :
  consistent st → e ∈ files (graph st) → a ∈ fa_symbols e.2 →
  sym_filePath <$> store st !! a = Some e.1.
Proof.
  intros (_ & Hfs & _) He Ha. unfold files_ok in Hfs. rewrite Forall_forall in Hfs.
  destruct (Hfs e He) as [Hpath Hr].
  destruct (record_ok_lookup _ _ _ Hr Ha) as (s & -> & Hfp). simpl. congruence.
Qed.

Lemma elem_of_keys_delete {V} k p (m : Js.Map V) :
  k ∈ Js.keys m → k ≠ p → k ∈ Js.keys (Js.delete p m).
Proof.
  unfold Js.keys. intros (e & -> & He)%list_elem_of_fmap Hne.
  apply list_elem_of_fmap_2. by apply elem_of_delete.
Qed.

Lemma removeFile_files_elem path st e :
  e ∈ files (graph (removeFile path st)) → e ∈ files (graph st) ∧ e.1 ≠ path.
Proof.
  destruct (Js.get path (files (graph st))) as [F|] eqn:HF.
  - rewrite (removeFile_graph _ _ F) by done. simpl. apply elem_of_delete.
  - rewrite removeFile_absent by done. intros He. split; [done|].
    intros <-. apply get_None_keys in HF. apply HF.
    by apply (list_elem_of_fmap_2 fst) in He.
Qed.

Lemma settled_new h : settled {| store := h; graph := emptyGraph |}.
Proof. split; [apply consistent_new|]. repeat split; constructor. Qed.

Lemma settled_removeFile path st : settled st → settled (removeFile path st).
Proof.
  intros Hs. destruct (Js.get path (files (graph st))) as [F|] eqn:HF;
    [|by rewrite removeFile_absent].
  destruct Hs as (Hc & Hcur & [Hedges Hfrom] & Hindex).
  assert (Hg := removeFile_graph path st F HF).
  assert (HFin := get_Some_elem _ _ _ HF).
  split; [by apply consistent_removeFile|]. split; [|split; [split|]].
  - unfold removeFile. rewrite HF. apply references_current_buildCrossReferences.
  - rewrite Hg. simpl. rewrite Forall_forall in *.
    intros e [He Hne]%elem_of_delete. rewrite <- (Hedges e He).
    rewrite list_filter_filter. apply list_filter_iff. intros dep. split; [tauto|].
    intros Hdep. split; [done | congruence].
  - rewrite Hg. simpl. rewrite Forall_forall in *.
    intros dep [Hne Hdep]%list_elem_of_filter. apply elem_of_keys_delete; auto.
  - unfold symbols_indexed. rewrite Hg. simpl. apply Forall_forall.
    intros e [He Hne]%elem_of_delete. apply Forall_forall. intros [id a] Hin. simpl.
    unfold ownIndex in Hin.
    rewrite <- (addSymbols_sameObjects (store st)) in Hin
      by apply removeFile_sameObjects.
    fold (ownIndex (store st) e.2) in Hin.
    rewrite get_removeSymbols_other; [by apply (symbols_indexed_get st e)|].
    apply Forall_forall. intros a0 Ha0 Hid.
    destruct (store st !! a0) as [s0|] eqn:Hs0; [|done]. simpl in Hid.
    apply (inj Some) in Hid. subst id.
    destruct (get_ownIndex_member _ _ _ _ Ha0 Hs0) as [a1 Ha1].
    apply get_Some_elem in Ha1 as Hin1.
    pose proof (symbols_indexed_get st (path, F) _ _ Hindex HFin Hin1) as Hget1.
    pose proof (symbols_indexed_get st e _ _ Hindex He Hin) as Hget.
    rewrite Hget1 in Hget. apply (inj Some) in Hget. subst a1.
    apply elem_of_ownIndex in Hin as [Ha _].
    apply (elem_of_ownIndex _ F) in Hin1 as [Ha1' _]. simpl in *.
    pose proof (files_ok_symbol st _ _ Hc He Ha) as Hp.
    pose proof (files_ok_symbol st _ _ Hc HFin Ha1') as Hp'. simpl in *. congruence.
Qed.

(** [addFile] keeps a graph settled when the record is one the parser
    builds for a path: its edges leave its own path, and its identifiers
    are not keys of the symbol map. *)
Lemma settled_addFile r st :
  settled st → record_ok (store st) r →
  Js.has (filePath r) (files (graph st)) = false →
  Forall (fun dep => dep_from dep = filePath r) (fa_dependencies r) →
  Forall (fun a => sym_id <$> store st !! a ∉ Some <$> Js.keys (symbols (graph st)))
    (fa_symbols r) →
  settled (addFile r st).
Proof.
  intros (Hc & Hcur & [Hedges Hkeys] & Hindex) Hr Hnew%has_false Hfrom Hfresh.
  assert (Hnone : Forall (fun dep => dep_from dep ≠ filePath r) (dependencies (graph st))).
  { eapply Forall_impl; [exact Hkeys|]. intros dep Hdep Heq. simpl in *.
    apply get_None_keys in Hnew. apply Hnew. by rewrite <- Heq. }
  split; [by apply consistent_addFile|]. split; [|split; [split|]].
  - unfold addFile. apply references_current_buildCrossReferences.
  - rewrite addFile_graph. simpl.
    rewrite set_absent by done. rewrite Forall_app, Forall_singleton. simpl. split.
    + rewrite Forall_forall in Hedges. apply Forall_forall.
      intros e He. rewrite filter_app, (Hedges e He).
      rewrite (filter_none _ (fa_dependencies r)); [by rewrite app_nil_r|].
      eapply Forall_impl; [exact Hfrom|]. intros dep Hdep Heq. simpl in *.
      apply get_None_keys in Hnew. apply Hnew. rewrite Hdep in Heq. rewrite Heq.
      by apply (list_elem_of_fmap_2 fst) in He.
    + rewrite filter_app. rewrite (filter_none _ (dependencies (graph st))).
      * simpl. clear -Hfrom. induction Hfrom as [|dep deps Hd _ IH]; [done|].
        by rewrite filter_cons_True, IH.
      * eapply Forall_impl; [exact Hnone|]. by intros dep Hd.
  - rewrite addFile_graph. simpl. rewrite set_absent by done.
    unfold Js.keys. rewrite fmap_app, Forall_app. split.
    + eapply Forall_impl; [exact Hkeys|]. intros dep Hdep. apply elem_of_app. by left.
    + eapply Forall_impl; [exact Hfrom|]. intros dep ->. apply elem_of_app. right. left.
  - unfold symbols_indexed. rewrite addFile_graph. simpl.
    rewrite set_absent by done. rewrite Forall_app, Forall_singleton. split.
    + apply Forall_forall. intros e He. apply Forall_forall. intros [id a] Hin. simpl.
      unfold ownIndex in Hin.
      rewrite <- (addSymbols_sameObjects (store st)) in Hin by apply addFile_sameObjects.
      fold (ownIndex (store st) e.2) in Hin.
      pose proof (symbols_indexed_get st e id a Hindex He Hin) as Hget.
      rewrite get_addSymbols_other; [done|].
      apply Forall_forall. intros a0 Ha0 Hid. rewrite Forall_forall in Hfresh.
      apply (Hfresh a0 Ha0). rewrite Hid. apply list_elem_of_fmap_2.
      apply get_Some_elem in Hget. by apply (list_elem_of_fmap_2 fst) in Hget.
    + apply Forall_forall. intros [id a] Hin. simpl in *.
      unfold ownIndex in Hin.
      rewrite <- (addSymbols_sameObjects (store st)) in Hin by apply addFile_sameObjects.
      fold (ownIndex (store st) r) in Hin.
      rewrite get_addSymbols. fold (ownIndex (store st) r).
      by rewrite (get_ownIndex _ r id a).
Qed.

(** The update procedure keeps a graph settled when no other file of the
    graph has a symbol with an identifier of the record. *)
Lemma settled_ingest r st :
  settled st → record_ok (store st) r →
  Forall (fun dep => dep_from dep = filePath r) (fa_dependencies r) →
  Forall
    (fun a =>
       Forall (fun e => e.1 = filePath r
                        ∨ Forall (fun a0 => sym_id <$> store st !! a0
                                            ≠ sym_id <$> store st !! a)
                            (fa_symbols e.2))
         (files (graph st)))
    (fa_symbols r) →
  settled (ingest r st).
Proof.
  intros Hs Hr Hfrom Hfresh. unfold ingest.
  pose proof (removeFile_sameObjects (filePath r) st) as Hh.
  pose proof (settled_removeFile (filePath r) st Hs) as Hs1.
  apply settled_addFile; [done| | |done|].
  - by apply (record_ok_sameObjects (store st)).
  - apply has_false. rewrite removeFile_get_files. by rewrite bool_decide_eq_true_2.
  - destruct Hs1 as (Hc1 & _).
    rewrite Forall_forall in *. intros a Ha (id & Hid & Hkey)%list_elem_of_fmap.
    assert (Hget : is_Some (Js.get id (symbols (graph (removeFile (filePath r) st))))).
    { destruct (Js.get id _) eqn:Hg; [eauto|]. by apply get_None_keys in Hg. }
    destruct Hget as [a2 Hget].
    destruct (symbols_ok_get _ _ _ Hc1 Hget) as [Hid2 Hin2].
    apply elem_of_fileSymbols in Hin2 as (e & [He Hne]%removeFile_files_elem & Ha2).
    specialize (Hfresh a Ha). rewrite Forall_forall in Hfresh.
    destruct (Hfresh e He) as [? | Hdiff]; [done|].
    rewrite Forall_forall in Hdiff. apply (Hdiff a2 Ha2).
    rewrite !(sameObjects_id _ _ _ Hh). congruence.
Qed.

(** ** Reference completeness, as far as the heuristic goes *)

(** In a maintained graph, a symbol [S] of the symbol map has an import
    reference located at every import symbol [I] of a record of another file
    whose specifier, stripped, occurs in the path of the file of [S] and
    that imports the name of [S]. *)
Lemma import_reference_when_specifier_occurs st id S e b I :
  maintained st →
  symbolAt st id = Some S →
  e ∈ files (graph st) → b ∈ fa_symbols e.2 → store st !! b = Some I →
  spec_imports I S →
  importReference I ∈ sym_references S.
Proof.
  intros Hm Hat He Hb HI Himports.
  pose proof (maintained_invariant st Hm) as [Hc Hcur].
  apply symbolAt_Some in Hat as (a & Hget & HS).
  destruct (symbols_ok_get st id a Hc Hget) as [_ Hin].
  rewrite (current_references st a S Hc Hcur Hin HS). unfold spec_references.
  right. apply list_elem_of_fmap_2, list_elem_of_filter. split; [done|].
  apply list_elem_of_omap. exists b. split; [|done].
  by apply (fileSymbols_elem e).
Qed.

(** ** The order of edges and references after re-ingestion *)

(** Re-ingesting a file moves it to the end of the file map: its edges go to
    the end of the edge list, and the import references it contributes go to
    the end of the reference lists.  Here [b.ts] is ingested again while
    [c.ts], ingested after it, imports the same function. *)
Lemma reingestion_moves_file_last :
  let A := Example.recordA Example.aRel in
  let B := Example.recordB Example.bRel in
  let C := Example.recordC Example.cRel in
  let G := ingest C (ingest B (ingest A
             (Example.new3 Example.aRel Example.bRel Example.cRel))) in
  let G' := ingest B G in
  let S := Example.functionOf Example.aRel "add" (Example.lineSpan 1 7 42) 2 in
  let IB := Example.importOf Example.bRel "add" "./a" (Example.lineSpan 1 0 25) in
  let IC := Example.importOf Example.cRel "add" "./a" (Example.lineSpan 1 0 25) in
  dependencies (graph G) = fa_dependencies B ++ fa_dependencies C
  ∧ dependencies (graph G') = fa_dependencies C ++ fa_dependencies B
  ∧ (sym_references <$> symbolAt G (Example.addId Example.aRel))
    = Some [definitionReference S; importReference IB; importReference IC]
  ∧ (sym_references <$> symbolAt G' (Example.addId Example.aRel))
    = Some [definitionReference S; importReference IC; importReference IB].
Proof. vm_compute. done. Qed.

(** * Further properties of the graph store and of the registry *)

(** ** The per-file views *)

Lemma fold_left_pointwise {A B} (f g : A → B → A) (l : list B) (a : A) :
  (∀ a x, f a x = g a x) → fold_left f l a = fold_left g l a.
Proof.
  intros Hfg. revert a. induction l as [|x l IH]; intros a; simpl; [done|].
  by rewrite Hfg, IH.
Qed.

Lemma get_pushUnder {A} (k k' : string) (x : A) (m : Js.Map (list A)) :
  Js.get k' (pushUnder k x m)
  = if decide (k = k') then Some (default [] (Js.get k' m) ++ [x]) else Js.get k' m.
Proof.
  unfold pushUnder, Js.has. destruct (decide (k = k')) as [<-|Hne].
  - destruct (Js.get k m) as [xs|] eqn:Hget; simpl.
    + by rewrite Hget, get_set_eq.
    + by rewrite !get_set_eq.
  - destruct (Js.get k m) as [xs|] eqn:Hget; simpl.
    + rewrite Hget. by apply get_set_ne.
    + rewrite get_set_eq. by rewrite !get_set_ne.
Qed.

(** Grouping a list under keys collects, under each key, the elements that
    carry it, in their order. *)
Lemma get_grouped {A} (key : A → string) (keep : A → bool) (l : list A) (k : string) :
  ∀ m,
    Js.get k
      (fold_left (fun m x => if keep x then pushUnder (key x) x m else m) l m)
    = match filter (fun x => keep x = true ∧ key x = k) l with
      | [] => Js.get k m
      | xs => Some (default [] (Js.get k m) ++ xs)
      end.
Proof.
  induction l as [|x l IH]; intros m; [done|].
  simpl fold_left. rewrite IH. clear IH. rewrite filter_cons.
  destruct (keep x) eqn:Hkeep.
  - rewrite get_pushUnder. destruct (decide (key x = k)) as [Hk|Hk].
    + rewrite decide_True by done. simpl.
      destruct (filter _ l) as [|y ys]; [done|]. by rewrite <- (assoc (++)).
    + rewrite decide_False by tauto. done.
  - rewrite decide_False; [done|]. intros [? _]. done.
Qed.

(** X1. For every path, [getSymbolsByFile], [getExportedSymbols] and
    [getImportedSymbols] hold under the path what [getFileSymbols] returns
    for it, restricted to the symbols with export information and with
    import information for the last two; a path with no such symbol is not
    a key. *)
Theorem X1_per_file_views (st : State) (path : string) :
  Js.get path (getSymbolsByFile st)
  = match getFileSymbols path st with [] => None | l => Some l end
  ∧ Js.get path (getExportedSymbols st)
    = match filter (fun s => is_Some (sym_exports s)) (getFileSymbols path st) with
      | [] => None
      | l => Some l
      end
  ∧ Js.get path (getImportedSymbols st)
    = match filter (fun s => is_Some (sym_imports s)) (getFileSymbols path st) with
      | [] => None
      | l => Some l
      end.
Proof.
  unfold getSymbolsByFile, getExportedSymbols, getImportedSymbols, getFileSymbols.
  generalize (symbolValues st). intros l. split; [|split].
  - pose proof (get_grouped sym_filePath (fun _ => true) l path []) as H.
    simpl in H. rewrite H.
    rewrite (list_filter_iff _ (fun s => sym_filePath s = path)) by (intros; tauto).
    by destruct (filter _ l).
  - rewrite (fold_left_pointwise _
      (fun m x => if (fun s => bool_decide (is_Some (sym_exports s))) x
                  then pushUnder (sym_filePath x) x m else m)).
    + rewrite get_grouped. cbv beta.
      assert (Hf : filter (fun x => bool_decide (is_Some (sym_exports x)) = true
                                    ∧ sym_filePath x = path) l
                   = filter (fun s => is_Some (sym_exports s))
                       (filter (fun s => sym_filePath s = path) l)).
      { rewrite list_filter_filter. apply list_filter_iff.
        intros x. by rewrite bool_decide_eq_true. }
      rewrite Hf. by destruct (filter _ (filter _ l)).
    + intros m x. destruct (sym_exports x); [by rewrite bool_decide_eq_true_2|].
      rewrite bool_decide_eq_false_2; [done|]. by intros [? ?].
  - rewrite (fold_left_pointwise _
      (fun m x => if (fun s => bool_decide (is_Some (sym_imports s))) x
                  then pushUnder (sym_filePath x) x m else m)).
    + rewrite get_grouped. cbv beta.
      assert (Hf : filter (fun x => bool_decide (is_Some (sym_imports x)) = true
                                    ∧ sym_filePath x = path) l
                   = filter (fun s => is_Some (sym_imports s))
                       (filter (fun s => sym_filePath s = path) l)).
      { rewrite list_filter_filter. apply list_filter_iff.
        intros x. by rewrite bool_decide_eq_true. }
      rewrite Hf. by destruct (filter _ (filter _ l)).
    + intros m x. destruct (sym_imports x); [by rewrite bool_decide_eq_true_2|].
      rewrite bool_decide_eq_false_2; [done|]. by intros [? ?].
Qed.

(** ** The summary *)

Lemma typeName_inj t t' : typeName t = typeName t' → t = t'.
Proof. by destruct t, t'. Qed.

Lemma get_countType (k : string) (m : Js.Map nat) (s : Symbol) :
  Js.get k (countType m s)
  = if decide (typeName (sym_type s) = k) then Some (default 0 (Js.get k m) + 1)
    else Js.get k m.
Proof.
  unfold countType. destruct (decide _) as [<-|Hne].
  - apply get_set_eq.
  - by apply get_set_ne.
Qed.

Lemma count_fold (t : SymbolType) (l : list Symbol) :
  ∀ m,
    default 0 (Js.get (typeName t) (fold_left countType l m))
    = default 0 (Js.get (typeName t) m)
      + length (filter (fun s => sym_type s = t) l).
Proof.
  induction l as [|s l IH]; intros m; simpl; [lia|].
  rewrite IH, get_countType, filter_cons.
  destruct (decide (sym_type s = t)) as [->|Hne].
  - rewrite decide_True by done. simpl. lia.
  - rewrite decide_False; [done|]. by intros ?%typeName_inj.
Qed.

Lemma keys_countType (m : Js.Map nat) (s : Symbol) (k : string) :
  k ∈ Js.keys (countType m s) → k = typeName (sym_type s) ∨ k ∈ Js.keys m.
Proof.
  unfold countType, Js.keys. intros (e & -> & He)%list_elem_of_fmap.
  apply elem_of_set in He as [-> | He]; [by left|].
  right. by apply (list_elem_of_fmap_2 fst) in He.
Qed.

Lemma length_by_type (l : list Symbol) :
  length l
  = length (filter (fun s => sym_type s = SymFunction) l)
    + length (filter (fun s => sym_type s = SymClass) l)
    + length (filter (fun s => sym_type s = SymVariable) l)
    + length (filter (fun s => sym_type s = SymImport) l)
    + length (filter (fun s => sym_type s = SymExport) l)
    + length (filter (fun s => sym_type s = SymInterface) l)
    + length (filter (fun s => sym_type s = SymType) l).
Proof.
  induction l as [|s l IH]; [done|]. rewrite !filter_cons.
  destruct (sym_type s); simpl; lia.
Qed.

Lemma length_symbolValues st :
  Forall (fun e => is_Some (store st !! e.2)) (symbols (graph st)) →
  length (symbolValues st) = length (symbols (graph st)).
Proof.
  unfold symbolValues. induction 1 as [|e l [s Hs] _ IH]; [done|].
  csimpl. rewrite Hs. simpl. by rewrite IH.
Qed.

Lemma summary_count st t :
  default 0 (Js.get (typeName t) (symbolsByType (generateGraphSummary st)))
  = length (getSymbolsByType t st).
Proof. apply (count_fold t (symbolValues st) []). Qed.

(** X2. In the summary, the number recorded for a kind is the number of
    symbols [getSymbolsByType] returns for it (none recorded meaning zero),
    a kind is a key only if the symbol map has a symbol of it, and every key
    is the name of a kind. *)
Theorem X2_summary_counts (st : State) (t : SymbolType) (k : string) :
  default 0 (Js.get (typeName t) (symbolsByType (generateGraphSummary st)))
  = length (getSymbolsByType t st)
  ∧ (typeName t ∈ Js.keys (symbolsByType (generateGraphSummary st)) ↔
     getSymbolsByType t st ≠ [])
  ∧ (k ∈ Js.keys (symbolsByType (generateGraphSummary st)) → ∃ t', k = typeName t').
Proof.
  unfold generateGraphSummary, getSymbolsByType. simpl.
  assert (Hcount := count_fold t (symbolValues st) []). simpl in Hcount.
  split; [done|]. split.
  - split.
    + intros Hkey Hnil. rewrite Hnil in Hcount. simpl in Hcount.
      assert (Hsome : ∀ l m, (∀ k n, Js.get k m = Some n → 0 < n) →
                ∀ k n, Js.get k (fold_left countType l m) = Some n → 0 < n).
      { clear. induction l as [|s l IH]; intros m Hm; simpl; [done|].
        apply IH. intros k n. rewrite get_countType.
        destruct (decide _); [intros [= <-]; lia | apply Hm]. }
      destruct (Js.get (typeName t) (fold_left countType (symbolValues st) [])) as [n|] eqn:Hget.
      * apply (Hsome _ []) in Hget; [|done]. simpl in Hcount. lia.
      * by apply get_None_keys in Hget.
    + intros Hne. destruct (Js.get (typeName t) (fold_left countType (symbolValues st) []))
        as [n|] eqn:Hget.
      * apply get_Some_elem in Hget. by apply (list_elem_of_fmap_2 fst) in Hget.
      * simpl in Hcount. destruct (filter _ _); [done | simpl in Hcount; lia].
  - generalize (symbolValues st). intros l.
    enough (∀ m, k ∈ Js.keys (fold_left countType l m) →
                 (∃ t', k = typeName t') ∨ k ∈ Js.keys m) as H.
    { intros [?|Hin]%H; [done|]. by apply elem_of_nil in Hin. }
    induction l as [|s l IH]; intros m; simpl; [by right|].
    intros [?|[->|?]%keys_countType]%IH; eauto.
Qed.

(** X3. When every entry of the symbol map names a symbol object, as in a
    consistent graph, the numbers the summary records for the seven kinds
    add up to [totalSymbols]. *)
Theorem X3_summary_total (st : State) :
  consistent st →
  let count t :=
    default 0 (Js.get (typeName t) (symbolsByType (generateGraphSummary st))) in
  count SymFunction + count SymClass + count SymVariable + count SymImport
  + count SymExport + count SymInterface + count SymType
  = totalSymbols (generateGraphSummary st).
Proof.
  intros (_ & _ & Hsyms) count. unfold count. rewrite !summary_count.
  unfold getSymbolsByType. rewrite <- length_by_type.
  change (totalSymbols (generateGraphSummary st)) with (length (symbols (graph st))).
  apply length_symbolValues.
  unfold symbols_ok in Hsyms. eapply Forall_impl; [exact Hsyms|].
  intros e [Hid _]. simpl in *. destruct (store st !! e.2); [eauto | done].
Qed.

Lemma X3_summary_total_witness :
  let st := Instances.both Example.aTs Example.bTs in
  let count t :=
    default 0 (Js.get (typeName t) (symbolsByType (generateGraphSummary st))) in
  consistent st
  ∧ count SymFunction + count SymClass + count SymVariable + count SymImport
    + count SymExport + count SymInterface + count SymType = 3.
Proof.
  intros st count.
  assert (Hc : consistent st) by apply maintained_invariant, both_maintained_abs.
  split; [exact Hc|]. exact (X3_summary_total st Hc).
Defined.

(** ** References by name *)

Lemma findSymbolReferencesAcrossProject_unrolled name st :
  findSymbolReferencesAcrossProject name st
  = flat_map sym_references (getSymbolByName name st).
Proof.
  unfold findSymbolReferencesAcrossProject, getSymbolByName, symbolValues.
  enough (∀ refs,
    fold_left
      (fun references '(_, a) =>
         match store st !! a with
         | Some symbol =>
             if bool_decide (sym_name symbol = name)
             then references ++ sym_references symbol
             else references
         | None => references
         end)
      (symbols (graph st)) refs
    = refs ++ flat_map sym_references
        (filter (fun symbol => sym_name symbol = name)
           (omap (fun e => store st !! e.2) (symbols (graph st))))) as H
    by apply (H []).
  induction (symbols (graph st)) as [|[id a] l IH]; intros refs; simpl.
  - by rewrite app_nil_r.
  - rewrite IH. csimpl. destruct (store st !! a) as [s|]; simpl; [|done].
    rewrite filter_cons. case_bool_decide.
    + rewrite decide_True by done. simpl. by rewrite (assoc (++)).
    + by rewrite decide_False by done.
Qed.

Lemma symbolValues_current st S :
  consistent st → references_current st → S ∈ symbolValues st →
  sym_references S = spec_references st S
  ∧ ∃ a, a ∈ fileSymbols (files (graph st)) ∧ store st !! a = Some S.
Proof.
  intros Hc Hcur ([id a] & He & HS)%list_elem_of_omap. simpl in HS.
  pose proof Hc as (Hnd & Hfs & Hsyms).
  unfold symbols_ok in Hsyms. rewrite Forall_forall in Hsyms.
  destruct (Hsyms _ He) as [_ Hin]. simpl in Hin.
  split; [|eauto]. by apply (current_references st a).
Qed.





(** ** A file without a record in the queries *)

Lemma no_record_no_symbols st path S :
  consistent st → Js.get path (files (graph st)) = None →
  S ∈ symbolValues st → sym_filePath S ≠ path.
Proof.
  intros Hc Hnone ([id a] & He & HS)%list_elem_of_omap Hp. simpl in HS.
  destruct Hc as (Hnd & Hfs & Hsyms).
  assert (Hc : consistent st) by done.
  unfold symbols_ok in Hsyms. rewrite Forall_forall in Hsyms.
  destruct (Hsyms _ He) as [_ Hin]. simpl in Hin.
  destruct (files_ok_filePath st a S Hc Hin HS) as (F & HF & _). congruence.
Qed.

(** X5. In a consistent graph, after [removeFile(p)] of a file of the file
    map, no query shows the file: [getFileSymbols(p)] is empty, [p] is not a
    key of [getSymbolsByFile], [getExportedSymbols], [getImportedSymbols],
    [getDependencyGraph] and [getCallGraph], and no reference
    [findSymbolReferencesAcrossProject] returns, for any name, is located in
    [p]. *)
Theorem X5_removed_file_in_queries (st : State) (path name : string) (F : FileAST) :
  consistent st →
  Js.get path (files (graph st)) = Some F →
  let st' := removeFile path st in
  getFileSymbols path st' = []
  ∧ Js.get path (getSymbolsByFile st') = None
  ∧ Js.get path (getExportedSymbols st') = None
  ∧ Js.get path (getImportedSymbols st') = None
  ∧ Js.get path (getDependencyGraph (graph st')) = None
  ∧ Js.get path (getCallGraph (graph st')) = None
  ∧ Forall (fun ref => ref_filePath ref ≠ path)
      (findSymbolReferencesAcrossProject name st').
Proof.
  intros Hc HF st'.
  assert (Hc' : consistent st') by by apply consistent_removeFile.
  assert (Hcur : references_current st').
  { unfold st', removeFile. rewrite HF. apply references_current_buildCrossReferences. }
  assert (Hgone : Js.get path (files (graph st')) = None).
  { unfold st'. rewrite removeFile_get_files. by rewrite bool_decide_eq_true_2. }
  assert (Hnone : filter (fun s => sym_filePath s = path) (symbolValues st') = []).
  { apply filter_none, Forall_forall. intros S HS.
    by apply (no_record_no_symbols st'). }
  assert (Hdeps : Js.get path (getDependencyGraph (graph st')) = None).
  { unfold getDependencyGraph. rewrite getDependencyGraph_fold.
    rewrite (filter_none (fun dep => dep_from dep = path)); [done|].
    unfold st'. rewrite (removeFile_graph _ _ F) by done. simpl.
    apply Forall_forall. by intros dep [? _]%list_elem_of_filter. }
  split; [done|].
  split.
  { unfold getSymbolsByFile.
    pose proof (get_grouped sym_filePath (fun _ => true) (symbolValues st') path []) as H.
    simpl in H. rewrite H. rewrite (filter_none _ (symbolValues st')); [done|].
    apply Forall_forall. intros S HS [_ Hp]. by apply (no_record_no_symbols st' path S). }
  split.
  { unfold getExportedSymbols.
    rewrite (fold_left_pointwise _
      (fun m x => if (fun s => bool_decide (is_Some (sym_exports s))) x
                  then pushUnder (sym_filePath x) x m else m)).
    - rewrite get_grouped. rewrite (filter_none _ (symbolValues st')); [done|].
      apply Forall_forall. intros S HS [_ Hp]. by apply (no_record_no_symbols st' path S).
    - intros m x. destruct (sym_exports x); [by rewrite bool_decide_eq_true_2|].
      rewrite bool_decide_eq_false_2; [done|]. by intros [? ?]. }
  split.
  { unfold getImportedSymbols.
    rewrite (fold_left_pointwise _
      (fun m x => if (fun s => bool_decide (is_Some (sym_imports s))) x
                  then pushUnder (sym_filePath x) x m else m)).
    - rewrite get_grouped. rewrite (filter_none _ (symbolValues st')); [done|].
      apply Forall_forall. intros S HS [_ Hp]. by apply (no_record_no_symbols st' path S).
    - intros m x. destruct (sym_imports x); [by rewrite bool_decide_eq_true_2|].
      rewrite bool_decide_eq_false_2; [done|]. by intros [? ?]. }
  split; [done|]. split; [done|].
  rewrite findSymbolReferencesAcrossProject_unrolled. apply Forall_forall.
  intros ref (S & [_ HS]%list_elem_of_filter & Href)%elem_of_flat_map.
  destruct (symbolValues_current st' S Hc' Hcur HS) as [Hrefs _].
  rewrite Hrefs in Href. unfold spec_references in Href.
  apply elem_of_cons in Href as [-> | (I & -> & [_ HI]%list_elem_of_filter)%list_elem_of_fmap].
  - simpl. by apply (no_record_no_symbols st').
  - apply list_elem_of_omap in HI as (a & Ha & HI). simpl.
    destruct (files_ok_filePath st' a I Hc' Ha HI) as (F' & HF' & _). congruence.
Qed.

Lemma X5_removed_file_in_queries_witness :
  let st := Instances.both Example.aRel Example.bRel in
  let st' := removeFile Example.bRel st in
  consistent st
  ∧ Js.get Example.bRel (files (graph st)) = Some (Example.recordB Example.bRel)
  ∧ getFileSymbols Example.bRel st' = []
  ∧ Js.get Example.bRel (getDependencyGraph (graph st')) = None
  ∧ Forall (fun ref => ref_filePath ref ≠ Example.bRel)
      (findSymbolReferencesAcrossProject "add" st').
Proof.
  intros st st'.
  assert (Hc : consistent st) by apply maintained_invariant, both_maintained_rel.
  assert (HF : Js.get Example.bRel (files (graph st)) = Some (Example.recordB Example.bRel))
    by (vm_compute; reflexivity).
  destruct (X5_removed_file_in_queries st Example.bRel "add" _ Hc HF)
    as (H1 & _ & _ & _ & H5 & _ & H7).
  split; [exact Hc|]. split; [exact HF|]. split; [exact H1|]. split; [exact H5 | exact H7].
Defined.

(** ** Adding a file and removing it again *)

Lemma filter_all {A} (P : A → Prop) `{∀ x, Decision (P x)} (l : list A) :
  Forall P l → filter P l = l.
Proof.
  induction 1 as [|x l Hx _ IH]; [done|]. by rewrite filter_cons_True, IH.
Qed.

Section set_delete.
Context {V : Type}.
Implicit Types (m x kvs : list (string * V)) (ks : list string).

Lemma delete_filter k m : Js.delete k m = filter (fun e => e.1 ≠ k) m.
Proof.
  induction m as [|[k0 v0] m IH]; [done|]. rewrite filter_cons. simpl.
  case_bool_decide.
  - by rewrite decide_False by tauto.
  - by rewrite decide_True, IH by done.
Qed.

Lemma deleteAll_filter ks m : deleteAll ks m = filter (fun e => e.1 ∉ ks) m.
Proof.
  revert m. induction ks as [|k ks IH]; intros m.
  - simpl. symmetry. apply filter_all, Forall_forall. intros e _.
    apply not_elem_of_nil.
  - unfold deleteAll in *. simpl. rewrite IH, delete_filter, list_filter_filter.
    apply list_filter_iff. intros e. rewrite not_elem_of_cons. tauto.
Qed.

Lemma set_app_absent k v m x :
  k ∉ Js.keys m → Js.set k v (m ++ x) = m ++ Js.set k v x.
Proof.
  unfold Js.keys. induction m as [|[k0 v0] m IH]; [done|].
  csimpl. intros [Hne Hk]%not_elem_of_cons.
  rewrite bool_decide_eq_false_2 by done. by rewrite IH.
Qed.

Lemma keys_set k v x k' : k' ∈ Js.keys (Js.set k v x) → k' = k ∨ k' ∈ Js.keys x.
Proof.
  unfold Js.keys. intros (e & -> & He)%list_elem_of_fmap.
  apply elem_of_set in He as [-> | He]; [by left|].
  right. by apply (list_elem_of_fmap_2 fst) in He.
Qed.

Lemma setAll_app_absent kvs m x :
  Forall (fun kv => kv.1 ∉ Js.keys m) kvs →
  ∃ x', setAll kvs (m ++ x) = m ++ x'
        ∧ Forall (fun e => e.1 ∈ kvs.*1 ∨ e.1 ∈ Js.keys x) x'.
Proof.
  intros Hkvs. revert x. induction Hkvs as [|kv kvs Hkv _ IH]; intros x.
  - exists x. split; [done|]. apply Forall_forall. intros e He. right.
    by apply (list_elem_of_fmap_2 fst) in He.
  - unfold setAll in *. simpl. rewrite set_app_absent by done.
    destruct (IH (Js.set kv.1 kv.2 x)) as (x' & Hx' & Hkeys). exists x'. split; [done|].
    eapply Forall_impl; [exact Hkeys|]. intros e [He | [-> | He]%keys_set]; csimpl.
    + left. by right.
    + left. by left.
    + by right.
Qed.

(** Setting keys a map does not have and deleting them again gives the map
    back, order included. *)
Lemma deleteAll_setAll kvs m :
  Forall (fun kv => kv.1 ∉ Js.keys m) kvs → deleteAll kvs.*1 (setAll kvs m) = m.
Proof.
  intros Hkvs.
  destruct (setAll_app_absent kvs m [] Hkvs) as (x' & Hx' & Hkeys).
  rewrite app_nil_r in Hx'. rewrite Hx', deleteAll_filter, filter_app.
  rewrite (filter_none _ x').
  - rewrite app_nil_r. apply filter_all, Forall_forall. intros e He Hin.
    rewrite Forall_forall in Hkvs.
    apply list_elem_of_fmap in Hin as (kv & Hkv & Hin).
    apply (Hkvs kv Hin). rewrite <- Hkv. by apply (list_elem_of_fmap_2 fst) in He.
  - eapply Forall_impl; [exact Hkeys|]. intros e [He | He] Hn; [done|].
    by apply elem_of_nil in He.
Qed.

Lemma delete_app k m x : Js.delete k (m ++ x) = Js.delete k m ++ Js.delete k x.
Proof. by rewrite !delete_filter, filter_app. Qed.
End set_delete.

Lemma addSymbols_setAll h syms m :
  addSymbols h syms m = setAll (symbolEntries h syms) m.
Proof.
  revert m. induction syms as [|a syms IH]; intros m; [done|].
  rewrite addSymbols_cons, IH. unfold symbolEntries. csimpl.
  by destruct (h !! a).
Qed.

Lemma removeSymbols_deleteAll h syms m :
  removeSymbols h syms m = deleteAll (symbolEntries h syms).*1 m.
Proof.
  revert m. induction syms as [|a syms IH]; intros m; [done|].
  rewrite removeSymbols_cons, IH. unfold symbolEntries. csimpl.
  by destruct (h !! a).
Qed.

Lemma symbolEntries_sameObjects h h' syms :
  sameObjects h h' → (symbolEntries h syms) = (symbolEntries h' syms).
Proof.
  intros Hh. unfold symbolEntries. induction syms as [|a syms IH]; [done|].
  csimpl. rewrite IH. pose proof (sameObjects_id h h' a Hh) as Hid.
  destruct (h !! a), (h' !! a); simplify_eq/=; try done. by rewrite Hid.
Qed.

Lemma addNodeToGraph_setAll node :
  ∀ m, addNodeToGraph node m = setAll (nodeEntries node) m.
Proof.
  induction node as [id ty name loc children meta IH] using ASTNode_nested_ind.
  intros m. unfold nodeEntries, setAll. simpl.
  generalize (Js.set id (mkASTNode id ty name loc children meta) m). clear m.
  induction IH as [|c cs Hc _ IHcs]; intros m; [done|].
  simpl. rewrite fmap_app, fold_left_app, Hc. apply IHcs.
Qed.

Lemma removeNodeFromGraph_deleteAll node :
  ∀ m, removeNodeFromGraph node m = deleteAll (nodeEntries node).*1 m.
Proof.
  induction node as [id ty name loc children meta IH] using ASTNode_nested_ind.
  intros m. unfold nodeEntries, deleteAll. simpl.
  generalize (Js.delete id m). clear m.
  induction IH as [|c cs Hc _ IHcs]; intros m; [done|].
  simpl. rewrite !fmap_app, fold_left_app, Hc. apply IHcs.
Qed.

Lemma withReferences_same s : withReferences s (sym_references s) = s.
Proof. by destruct s. Qed.

Lemma symbolEntries_fresh h syms (m : Js.Map addr) :
  Forall (fun a => sym_id <$> h !! a ∉ Some <$> Js.keys m) syms →
  Forall (fun e => e.1 ∉ Js.keys m) (symbolEntries h syms).
Proof.
  intros Hfresh. apply Forall_forall. unfold symbolEntries.
  intros e (a & Ha & He)%list_elem_of_omap Hin.
  rewrite Forall_forall in Hfresh. apply (Hfresh a Ha).
  destruct (h !! a) as [s|]; simplify_eq/=. by apply list_elem_of_fmap_2.
Qed.

Lemma addFile_store r st a :
  store (addFile r st) !! a
  = (fun s => if bool_decide
                   (a ∈ fileSymbols (Js.set (filePath r) r (files (graph st))))
              then withReferences s
                     (collectReferences (store st)
                        (Js.set (filePath r) r (files (graph st))) s)
              else s) <$> store st !! a.
Proof. unfold addFile. by rewrite buildCrossReferences_store. Qed.

Lemma removeFile_store path st F a :
  Js.get path (files (graph st)) = Some F →
  store (removeFile path st) !! a
  = (fun s => if bool_decide (a ∈ fileSymbols (Js.delete path (files (graph st))))
              then withReferences s
                     (collectReferences (store st)
                        (Js.delete path (files (graph st))) s)
              else s) <$> store st !! a.
Proof. intros HF. unfold removeFile. rewrite HF. by rewrite buildCrossReferences_store. Qed.

(** X6. Let a graph be kept by the update procedure, and let [r] be a
    record for a path that has none, whose edges leave that path and whose
    symbol and node identifiers are not keys of the symbol and node maps.
    Then [addFile(r)] followed by [removeFile] of its path gives back the
    graph: the same four collections, in the same order; and every symbol
    object other than those of [r] is as it was, its references
    included. *)
Theorem X6_add_then_remove (st : State) (r : FileAST) :
  settled st →
  record_ok (store st) r →
  Js.has (filePath r) (files (graph st)) = false →
  Forall (fun dep => dep_from dep = filePath r) (fa_dependencies r) →
  Forall (fun a => sym_id <$> store st !! a ∉ Some <$> Js.keys (symbols (graph st)))
    (fa_symbols r) →
  Forall (fun n => node_id n ∉ Js.keys (nodes (graph st))) (subnodes (ast r)) →
  let st' := removeFile (filePath r) (addFile r st) in
  graph st' = graph st
  ∧ ∀ a, a ∉ fa_symbols r → store st' !! a = store st !! a.
Proof.
  intros (Hc & Hcur & [_ Hkeys] & _) Hr Hnew%has_false Hfrom Hsyms Hnodes st'.
  assert (Hfiles : Js.delete (filePath r) (Js.set (filePath r) r (files (graph st)))
                   = files (graph st)).
  { rewrite set_absent, delete_app, delete_absent by done. simpl.
    rewrite bool_decide_eq_true_2 by done. apply app_nil_r. }
  assert (Hget : Js.get (filePath r) (files (graph (addFile r st))) = Some r).
  { rewrite addFile_graph. simpl. apply get_set_eq. }
  assert (Hg : graph st' = graph st).
  { unfold st'. rewrite (removeFile_graph _ _ r Hget), addFile_graph. simpl.
    rewrite Hfiles.
    rewrite removeSymbols_deleteAll, addSymbols_setAll.
    rewrite <- (symbolEntries_sameObjects (store st)) by apply addFile_sameObjects.
    rewrite deleteAll_setAll by by apply symbolEntries_fresh.
    rewrite removeNodeFromGraph_deleteAll, addNodeToGraph_setAll.
    rewrite deleteAll_setAll.
    2:{ unfold nodeEntries. apply Forall_fmap. eapply Forall_impl; [exact Hnodes|]. done. }
    rewrite filter_app, (filter_none _ (fa_dependencies r)).
    2:{ eapply Forall_impl; [exact Hfrom|]. intros dep Hd Hn. simpl in *. done. }
    rewrite app_nil_r, filter_all.
    2:{ eapply Forall_impl; [exact Hkeys|]. intros dep Hd Heq. simpl in *.
        apply get_None_keys in Hnew. apply Hnew. by rewrite <- Heq. }
    by destruct (graph st). }
  split; [done|]. intros a Ha. unfold st'.
  rewrite (removeFile_store _ _ r a Hget).
  assert (Hf1 : files (graph (addFile r st))
                = Js.set (filePath r) r (files (graph st)))
    by by rewrite addFile_graph.
  rewrite Hf1, Hfiles, addFile_store.
  assert (Hin1 : a ∈ fileSymbols (Js.set (filePath r) r (files (graph st)))
                 ↔ a ∈ fileSymbols (files (graph st))).
  { rewrite set_absent by done. unfold fileSymbols. rewrite flat_map_app. simpl.
    rewrite app_nil_r, elem_of_app. tauto. }
  rewrite (bool_decide_ext _ _ Hin1).
  destruct (store st !! a) as [s|] eqn:Hs; [|done]. simpl. f_equal.
  case_bool_decide as Hin; [|done].
  set (s1 := withReferences s _).
  assert (Herase : eraseReferences s1 = eraseReferences s) by done.
  rewrite (collectReferences_sameObjects (store (addFile r st)) (store st)
             (files (graph st)) s1 s); [|symmetry; apply addFile_sameObjects|done].
  rewrite (withReferences_erase s1 s) by done.
  rewrite collectReferences_unrolled.
  rewrite <- (current_references_unrolled st a s Hcur Hin Hs).
  apply withReferences_same.
Qed.

Ltac by_compute := apply (bool_decide_unpack _); vm_compute; exact I.

Lemma a_settled_rel :
  settled (ingest (Example.recordA Example.aRel) (Example.new Example.aRel Example.bRel)).
Proof.
  assert (Hm : maintained (ingest (Example.recordA Example.aRel)
                             (Example.new Example.aRel Example.bRel))).
  { apply maintained_ingest; [apply maintained_new | solve_record_ok]. }
  destruct (maintained_invariant _ Hm) as [Hc Hcur].
  split; [done|]. split; [done|]. split.
  - unfold edges_owned. vm_compute. repeat constructor.
  - unfold symbols_indexed. vm_compute. repeat constructor.
Qed.

Lemma X6_add_then_remove_witness :
  let st := ingest (Example.recordA Example.aRel)
              (Example.new Example.aRel Example.bRel) in
  let r := Example.recordB Example.bRel in
  settled st
  ∧ Js.has (filePath r) (files (graph st)) = false
  ∧ graph (removeFile (filePath r) (addFile r st)) = graph st.
Proof.
  intros st r.
  assert (Hnew : Js.has (filePath r) (files (graph st)) = false)
    by (vm_compute; reflexivity).
  assert (Hr : record_ok (store st) r) by solve_record_ok.
  assert (Hfrom : Forall (fun dep => dep_from dep = filePath r) (fa_dependencies r))
    by (repeat constructor).
  assert (Hsyms : Forall (fun a => sym_id <$> store st !! a
                                   ∉ Some <$> Js.keys (symbols (graph st)))
                    (fa_symbols r)) by by_compute.
  assert (Hnodes : Forall (fun n => node_id n ∉ Js.keys (nodes (graph st)))
                     (subnodes (ast r))) by by_compute.
  destruct (X6_add_then_remove st r a_settled_rel Hr Hnew Hfrom Hsyms Hnodes) as [Hg _].
  split; [exact a_settled_rel|]. split; [exact Hnew | exact Hg].
Defined.

(** ** Registration order *)

Lemma getParser_app ps qs filePath extension :
  getParser (ps ++ qs) filePath extension
  = match getParser ps filePath extension with
    | Some parser => Some parser
    | None => getParser qs filePath extension
    end.
Proof.
  induction ps as [|p ps IH]; [done|].
  rewrite <- app_comm_cons, !getParser_cons.
  by destruct (canParse p filePath extension).
Qed.

(** X7. An adapter registered later is tried after all the adapters
    registered before it: [getParser] returns it only for a file none of
    them accepts, and [parseFile] gives the same outcome as before the
    registration for every file one of them accepts. *)
Theorem X7_registration_order
    (parsers : DefaultASTParserRegistry) (parser : ASTParser)
    (content filePath extension : string) :
  getParser (registerParser parser parsers) filePath extension
  = match getParser parsers filePath extension with
    | Some earlier => Some earlier
    | None => if canParse parser filePath extension then Some parser else None
    end
  ∧ (is_Some (getParser parsers filePath (deriveExtension filePath)) →
     parseFile (registerParser parser parsers) content filePath
     = parseFile parsers content filePath).
Proof.
  unfold registerParser. split.
  - rewrite getParser_app, getParser_cons. unfold getParser. simpl.
    by destruct (canParse parser filePath extension).
  - intros [earlier Hearlier]. rewrite !parseFile_unfold, getParser_app.
    by rewrite Hearlier.
Qed.

Lemma X7_registration_order_witness :
  getParser Instances.registry "/project/src/a.ts" "ts" = Some Instances.jsTs
  ∧ parseFile Instances.registry "let x = 1" "/project/src/a.ts"
    = parseFile (registerParser Instances.jsTs []) "let x = 1" "/project/src/a.ts".
Proof.
  destruct (X7_registration_order (registerParser Instances.jsTs []) Instances.makefiles
              "let x = 1" "/project/src/a.ts" "ts") as [Hget Hparse].
  split; [exact Hget|]. apply Hparse. by eexists.
Defined.

(** ** The extension of a file name *)

Lemma append_String_dot stem e :
  stem +:+ "." +:+ e = stem +:+ String "." e.
Proof. reflexivity. Qed.

Lemma split_cons_sep sep s :
  Js.split sep (String sep s) = EmptyString :: Js.split sep s.
Proof. simpl. by rewrite bool_decide_eq_true_2. Qed.

Lemma split_cons_other sep c s :
  c ≠ sep →
  Js.split sep (String c s)
  = match Js.split sep s with
    | seg :: segs => String c seg :: segs
    | [] => [String c EmptyString]
    end.
Proof. intros Hc. simpl. by rewrite bool_decide_eq_false_2. Qed.

(** The last segment of a name is what follows its last dot. *)
Lemma last_split_append stem e :
  last (Js.split "." (stem +:+ String "." e)) = last (Js.split "." e).
Proof.
  induction stem as [|c stem IH].
  - change (EmptyString +:+ String "." e) with (String "." e).
    rewrite split_cons_sep.
    pose proof (split_nonempty "." e). by destruct (Js.split "." e).
  - rewrite append_cons. destruct (decide (c = "."%char)) as [->|Hc].
    + rewrite split_cons_sep. rewrite <- IH.
      pose proof (split_nonempty "." (stem +:+ String "." e)).
      by destruct (Js.split "." (stem +:+ String "." e)).
    + rewrite split_cons_other by done. rewrite <- IH.
      assert (Hlen : 2 ≤ length (Js.split "." (stem +:+ String "." e))).
      { clear. induction stem as [|c stem IH].
        - change (EmptyString +:+ String "." e) with (String "." e).
          rewrite split_cons_sep. simpl.
          pose proof (split_nonempty "." e). destruct (Js.split "." e); simpl; [done|lia].
        - rewrite append_cons. destruct (decide (c = "."%char)) as [->|Hc].
          + rewrite split_cons_sep. simpl. lia.
          + rewrite split_cons_other by done.
            destruct (Js.split "." (stem +:+ String "." e)); simpl in *; lia. }
      destruct (Js.split "." (stem +:+ String "." e)) as [|seg [|seg' segs]];
        simpl in Hlen; try lia. done.
Qed.

Lemma lowerAscii_dot c : Js.lowerAscii c = "."%char → c = "."%char.
Proof. destruct c as [[] [] [] [] [] [] [] []]; vm_compute; congruence. Qed.

Lemma includes_dot_cons c s :
  Js.includes (String c s) "." = bool_decide (c = "."%char) || Js.includes s ".".
Proof. simpl. by destruct (bool_decide (c = "."%char)), s. Qed.

Lemma toLowerCase_dotless s :
  Js.includes s "." = false → Js.includes (Js.toLowerCase s) "." = false.
Proof.
  induction s as [|c s IH]; [done|]. simpl Js.toLowerCase.
  rewrite !includes_dot_cons. intros [Hc Hs]%orb_false_iff.
  rewrite IH by done. rewrite orb_false_r. apply bool_decide_eq_false.
  apply bool_decide_eq_false in Hc. by intros ?%lowerAscii_dot.
Qed.

Lemma split_segments_dotless s :
  Forall (fun seg => Js.includes seg "." = false) (Js.split "." s).
Proof.
  induction s as [|c s IH]; [by repeat constructor|].
  destruct (decide (c = "."%char)) as [->|Hc].
  - rewrite split_cons_sep. by constructor.
  - rewrite split_cons_other by done.
    destruct (Js.split "." s) as [|seg segs]; [by repeat constructor; simpl;
      rewrite bool_decide_eq_false_2|].
    apply Forall_cons in IH as [Hseg Hsegs]. constructor; [|done].
    rewrite includes_dot_cons, Hseg. by rewrite bool_decide_eq_false_2.
Qed.

(** X8. The extension [parseFile] derives from a name [stem.e], [e] having
    no dot, is [e] in lower case, whatever the case [e] is written in; and
    the extension derived from any path has no dot. *)
Theorem X8_extension_after_last_dot (stem e path : string) :
  (Js.includes e "." = false →
   deriveExtension (stem +:+ "." +:+ e) = Js.toLowerCase e)
  ∧ Js.includes (deriveExtension path) "." = false.
Proof.
  split.
  - intros He. unfold deriveExtension, Js.pop.
    rewrite append_String_dot, last_split_append, split_dotless by done.
    apply orEmpty_Some.
  - destruct (deriveExtension_segment path) as (segment & Hseg & ->).
    apply toLowerCase_dotless.
    pose proof (split_segments_dotless path) as Hall. rewrite Forall_forall in Hall.
    apply Hall. unfold Js.pop in Hseg. by apply last_Some_elem_of.
Qed.

Lemma X8_extension_after_last_dot_witness :
  Js.includes "TSX" "." = false
  ∧ deriveExtension "/project/src/App.test.TSX" = "tsx"
  ∧ jsTsCanParse "/project/src/App.test.TSX"
      (deriveExtension "/project/src/App.test.TSX") = true.
Proof.
  assert (He : Js.includes "TSX" "." = false) by reflexivity.
  destruct (X8_extension_after_last_dot "/project/src/App.test" "TSX" "") as [Hext _].
  specialize (Hext He). change ("/project/src/App.test" +:+ "." +:+ "TSX")
    with "/project/src/App.test.TSX" in Hext.
  split; [exact He|]. split; [exact Hext|]. by rewrite Hext.
Defined.

(** ** Symbol identifiers *)

Lemma append_assoc (a b c : string) : (a +:+ b) +:+ c = a +:+ b +:+ c.
Proof. induction a as [|x a IH]; [done|]. by rewrite !append_cons, IH. Qed.

Lemma includes_colon_cons c s :
  Js.includes (String c s) ":" = bool_decide (c = ":"%char) || Js.includes s ":".
Proof. simpl. by destruct (bool_decide (c = ":"%char)), s. Qed.

Lemma includes_colon_append a b : Js.includes (a +:+ String ":" b) ":" = true.
Proof.
  induction a as [|c a IH].
  - change (EmptyString +:+ String ":" b) with (String ":" b).
    rewrite includes_colon_cons. by rewrite bool_decide_eq_true_2.
  - rewrite append_cons, includes_colon_cons, IH. apply orb_true_r.
Qed.

(** What follows the last colon of a text, and what precedes it, are
    determined by the text. *)
Lemma append_colon_inj a a' b b' :
  Js.includes b ":" = false → Js.includes b' ":" = false →
  a +:+ String ":" b = a' +:+ String ":" b' → a = a' ∧ b = b'.
Proof.
  intros Hb Hb'. revert a'. induction a as [|c a IH]; intros [|c' a'].
  - intros [= ->]. done.
  - change (EmptyString +:+ String ":" b) with (String ":" b).
    rewrite append_cons. intros [= <- ->].
    by rewrite includes_colon_append in Hb.
  - change (EmptyString +:+ String ":" b') with (String ":" b').
    rewrite append_cons. intros [= -> <-].
    by rewrite includes_colon_append in Hb'.
  - rewrite !append_cons. intros [= -> Heq].
    destruct (IH a' Heq) as [-> ->]. done.
Qed.

Lemma typeName_no_colon t : Js.includes (typeName t) ":" = false.
Proof. by destruct t. Qed.

Lemma string_of_uint_no_colon d :
  Js.includes (DecimalString.NilEmpty.string_of_uint d) ":" = false.
Proof.
  induction d; simpl DecimalString.NilEmpty.string_of_uint; [done|..];
    by rewrite includes_colon_cons, IHd.
Qed.

Lemma showNumber_no_colon n : Js.includes (showNumber n) ":" = false.
Proof.
  unfold showNumber, DecimalString.NilZero.string_of_uint.
  destruct (Nat.to_uint n); [done|..]; apply string_of_uint_no_colon.
Qed.

(** Reading a line number back from its decimal text. *)
Lemma read_showNumber n :
  Nat.of_uint <$> DecimalString.NilZero.uint_of_string (showNumber n) = Some n.
Proof.
  unfold showNumber. pose proof (DecimalNat.Unsigned.of_to n) as Hn.
  destruct (Nat.to_uint n) eqn:Hd; [simpl; by rewrite <- Hn|..];
    (rewrite DecimalString.NilZero.usu by done; simpl; by rewrite <- Hn).
Qed.

Lemma lineText_no_colon loc : Js.includes (lineText loc) ":" = false.
Proof. destruct loc; [apply showNumber_no_colon | done]. Qed.

Lemma lineText_inj loc loc' :
  lineText loc = lineText loc' →
  (fun l => line (start l)) <$> loc = (fun l => line (start l)) <$> loc'.
Proof.
  destruct loc as [l|], loc' as [l'|]; simpl; intros Heq; [| | |done].
  - pose proof (read_showNumber (line (start l))) as H.
    rewrite Heq, read_showNumber in H. congruence.
  - pose proof (read_showNumber (line (start l))) as H. by rewrite Heq in H.
  - pose proof (read_showNumber (line (start l'))) as H. by rewrite <- Heq in H.
Qed.

(** X9. Two symbols [createSymbol] builds with names that have no colon
    get the same identifier only if they were built for the same file
    path, with the same name and kind, at the same line (or both for nodes
    without a location); the path may contain colons. *)
Theorem X9_symbol_id_injective
    (path path' name name' : string) (type type' : SymbolType)
    (loc loc' : option Span) (meta meta' : Metadata) :
  Js.includes name ":" = false →
  Js.includes name' ":" = false →
  sym_id (createSymbol path name type loc meta)
  = sym_id (createSymbol path' name' type' loc' meta') →
  path = path' ∧ name = name' ∧ type = type'
  ∧ (fun l => line (start l)) <$> loc = (fun l => line (start l)) <$> loc'.
Proof.
  intros Hname Hname'.
  change (sym_id (createSymbol path name type loc meta))
    with (path +:+ ":" +:+ name +:+ ":" +:+ typeName type +:+ ":" +:+ lineText loc).
  change (sym_id (createSymbol path' name' type' loc' meta'))
    with (path' +:+ ":" +:+ name' +:+ ":" +:+ typeName type' +:+ ":" +:+ lineText loc').
  intros Heq.
  assert (Heq' :
    ((path +:+ String ":" name) +:+ String ":" (typeName type))
      +:+ String ":" (lineText loc)
    = ((path' +:+ String ":" name') +:+ String ":" (typeName type'))
        +:+ String ":" (lineText loc')).
  { rewrite !append_assoc. exact Heq. }
  apply append_colon_inj in Heq' as [Heq' Hline]; [|apply lineText_no_colon..].
  apply append_colon_inj in Heq' as [Heq' Htype]; [|apply typeName_no_colon..].
  apply append_colon_inj in Heq' as [-> ->]; [|done..].
  apply typeName_inj in Htype as ->. by apply lineText_inj in Hline.
Qed.

Lemma X9_symbol_id_injective_witness :
  let loc := Some (Example.lineSpan 12 0 9) in
  let loc' := Some (Example.lineSpan 12 4 30) in
  Js.includes "add" ":" = false
  ∧ sym_id (createSymbol "C:/project/a.ts" "add" SymFunction loc [])
    = sym_id (createSymbol "C:/project/a.ts" "add" SymFunction loc'
                [("async", MetaBool true)])
  ∧ (fun l => line (start l)) <$> loc = (fun l => line (start l)) <$> loc'.
Proof.
  intros loc loc'.
  assert (Hname : Js.includes "add" ":" = false) by reflexivity.
  assert (Hid : sym_id (createSymbol "C:/project/a.ts" "add" SymFunction loc [])
                = sym_id (createSymbol "C:/project/a.ts" "add" SymFunction loc'
                            [("async", MetaBool true)]))
    by (vm_compute; reflexivity).
  destruct (X9_symbol_id_injective _ _ _ _ _ _ _ _ _ _ Hname Hname Hid)
    as (_ & _ & _ & Hline).
  split; [exact Hname|]. split; [exact Hid | exact Hline].
Defined.
(** * The server *)

(** ** New symbol objects *)

Lemma state_eq (st st' : State) :
  store st = store st' → graph st = graph st' → st = st'.
Proof. destruct st, st'. simpl. congruence. Qed.

Lemma allocate_spec symbols h addrs h' :
  allocate symbols h = (addrs, h') →
  Forall2 (fun a s => h' !! a = Some s) addrs symbols
  ∧ Forall (fun a => h !! a = None) addrs
  ∧ ∀ a, a ∉ addrs → h' !! a = h !! a.
Proof.
  revert h addrs h'. induction symbols as [|s symbols IH]; intros h addrs h' Heq.
  - simpl in Heq. injection Heq as <- <-. by repeat split; try constructor.
  - simpl in Heq.
    destruct (allocate symbols (<[fresh (dom h) := s]> h)) as [addrs0 h0] eqn:Hrest.
    injection Heq as <- <-.
    destruct (IH _ _ _ Hrest) as (Hall & Hnew & Hout).
    assert (Hfresh : h !! fresh (dom h) = None).
    { apply not_elem_of_dom. apply is_fresh. }
    assert (Hnot : fresh (dom h) ∉ addrs0).
    { intros Hin. rewrite Forall_forall in Hnew. specialize (Hnew _ Hin).
      by rewrite lookup_insert_eq in Hnew. }
    repeat split.
    + constructor; [|done]. rewrite (Hout _ Hnot). apply lookup_insert_eq.
    + constructor; [done|]. eapply Forall_impl; [exact Hnew|].
      intros a Ha. simpl in Ha.
      destruct (decide (a = fresh (dom h))) as [->|Hne]; [done|].
      by rewrite lookup_insert_ne in Ha.
    + intros a Hnin. apply not_elem_of_cons in Hnin as [Hne Hnin].
      rewrite (Hout _ Hnin). by apply lookup_insert_ne.
Qed.

(** A new object changes nothing for the objects of the graph. *)

Lemma collectReferences_insert h fs a s S :
  a ∉ fileSymbols fs →
  collectReferences (<[a := s]> h) fs S = collectReferences h fs S.
Proof.
  intros Ha. unfold collectReferences.
  generalize [definitionReference S].
  induction fs as [|[path F] fs IH]; intros refs; [done|].
  simpl. unfold fileSymbols in Ha. simpl in Ha.
  apply not_elem_of_app in Ha as [HF Hfs].
  assert (Hinner : ∀ l refs, a ∉ l →
    fold_left (fun references b =>
                 match <[a := s]> h !! b with
                 | Some otherSymbol =>
                     if importsSymbol otherSymbol S
                     then references ++ [importReference otherSymbol]
                     else references
                 | None => references
                 end) l refs
    = fold_left (fun references b =>
                 match h !! b with
                 | Some otherSymbol =>
                     if importsSymbol otherSymbol S
                     then references ++ [importReference otherSymbol]
                     else references
                 | None => references
                 end) l refs).
  { clear. induction l as [|b l IH]; intros refs Hl; [done|].
    apply not_elem_of_cons in Hl as [Hne Hl]. simpl.
    rewrite lookup_insert_ne by done. by apply IH. }
  rewrite Hinner by done. by apply IH.
Qed.

Lemma buildCrossReferences_extend a s st :
  a ∉ fileSymbols (files (graph st)) →
  buildCrossReferences (extend a s st) = extend a s (buildCrossReferences st).
Proof.
  intros Ha. apply state_eq.
  - apply map_eq. intros b. rewrite buildCrossReferences_store. unfold extend. simpl.
    destruct (decide (b = a)) as [->|Hne].
    + rewrite !lookup_insert_eq. simpl. by rewrite bool_decide_eq_false_2.
    + rewrite !lookup_insert_ne by done. rewrite buildCrossReferences_store.
      destruct (store st !! b) as [S|]; [|done]. simpl.
      by rewrite collectReferences_insert.
  - rewrite buildCrossReferences_graph. simpl. by rewrite buildCrossReferences_graph.
Qed.

Lemma addSymbols_insert h a s syms m :
  a ∉ syms → addSymbols (<[a := s]> h) syms m = addSymbols h syms m.
Proof.
  unfold addSymbols. revert m. induction syms as [|b syms IH]; intros m Ha; [done|].
  apply not_elem_of_cons in Ha as [Hne Ha]. simpl.
  rewrite lookup_insert_ne by done. by apply IH.
Qed.

Lemma removeSymbols_insert h a s syms m :
  a ∉ syms → removeSymbols (<[a := s]> h) syms m = removeSymbols h syms m.
Proof.
  unfold removeSymbols. revert m. induction syms as [|b syms IH]; intros m Ha; [done|].
  apply not_elem_of_cons in Ha as [Hne Ha]. simpl.
  rewrite lookup_insert_ne by done. by apply IH.
Qed.

Lemma fileSymbols_set a path r fs :
  a ∈ fileSymbols (Js.set path r fs) → a ∈ fa_symbols r ∨ a ∈ fileSymbols fs.
Proof.
  rewrite !elem_of_fileSymbols. intros (e & [->|He]%elem_of_set & Hin); [by left|].
  right. by exists e.
Qed.

Lemma fileSymbols_delete a path fs :
  a ∈ fileSymbols (Js.delete path fs) → a ∈ fileSymbols fs.
Proof.
  rewrite !elem_of_fileSymbols. intros (e & [He _]%elem_of_delete & Hin). by exists e.
Qed.

Lemma addFile_extend a s r st :
  a ∉ fa_symbols r → a ∉ fileSymbols (files (graph st)) →
  addFile r (extend a s st) = extend a s (addFile r st).
Proof.
  intros Hr Hfs. unfold addFile. simpl. rewrite addSymbols_insert by done.
  apply (buildCrossReferences_extend a s (mkState _ _)). simpl.
  intros [?|?]%fileSymbols_set; done.
Qed.

Lemma removeFile_extend a s path st :
  a ∉ fileSymbols (files (graph st)) →
  removeFile path (extend a s st) = extend a s (removeFile path st).
Proof.
  intros Hfs. unfold removeFile. simpl.
  destruct (Js.get path (files (graph st))) as [F|] eqn:HF; [|done].
  rewrite removeSymbols_insert.
  - apply (buildCrossReferences_extend a s (mkState _ _)). simpl.
    by intros ?%fileSymbols_delete.
  - intros Hin. apply Hfs, elem_of_fileSymbols. exists (path, F).
    split; [by apply get_Some_elem | done].
Qed.

Lemma consistent_fileSymbols st a :
  consistent st → store st !! a = None → a ∉ fileSymbols (files (graph st)).
Proof.
  intros Hc Hnone (e & He & Hin)%elem_of_fileSymbols.
  pose proof (files_ok_symbol st e a Hc He Hin) as H. by rewrite Hnone in H.
Qed.

Lemma sameObjects_None h h' a : sameObjects h h' → h' !! a = None → h !! a = None.
Proof.
  intros Hsame Hnone. specialize (Hsame a). rewrite Hnone in Hsame.
  by destruct (h !! a).
Qed.

Lemma maintained_extend a s st :
  maintained st → store st !! a = None → maintained (extend a s st).
Proof.
  induction 1 as [h | st r Hst IH Hr Hnew | st path Hst IH]; intros Hnone.
  - apply maintained_new.
  - assert (Hnone' : store st !! a = None).
    { eapply sameObjects_None; [apply (addFile_sameObjects r)|done]. }
    assert (Hra : a ∉ fa_symbols r).
    { intros Hin. destruct (record_ok_lookup _ _ _ Hr Hin) as (s0 & Hs0 & _).
      congruence. }
    rewrite <- addFile_extend.
    + apply maintained_addFile; [by apply IH| |done].
      unfold record_ok in *. rewrite Forall_forall in *. intros b Hb. simpl.
      rewrite lookup_insert_ne; [by apply Hr|]. intros <-. done.
    + done.
    + apply consistent_fileSymbols; [|done]. by apply maintained_invariant.
  - assert (Hnone' : store st !! a = None).
    { eapply sameObjects_None; [apply (removeFile_sameObjects path)|done]. }
    rewrite <- removeFile_extend.
    + apply maintained_removeFile. by apply IH.
    + apply consistent_fileSymbols; [|done]. by apply maintained_invariant.
Qed.

Lemma maintained_allocate symbols st addrs h :
  maintained st → allocate symbols (store st) = (addrs, h) →
  maintained {| store := h; graph := graph st |}.
Proof.
  revert st addrs h. induction symbols as [|s symbols IH]; intros st addrs h Hst Heq.
  - simpl in Heq. injection Heq as <- <-. by destruct st.
  - simpl in Heq.
    destruct (allocate symbols (<[fresh (dom (store st)) := s]> (store st)))
      as [addrs0 h0] eqn:Hrest.
    injection Heq as <- <-.
    apply (IH (extend (fresh (dom (store st))) s st) addrs0 h0); [|done].
    apply maintained_extend; [done|]. apply not_elem_of_dom, is_fresh.
Qed.

(** ** What a parse adds to the graph *)

Lemma parseFile_symbols parsers content path result symbols :
  Forall parser_ok parsers →
  parseFile parsers content path = Normal result →
  pr_symbols result = Some symbols →
  Forall (fun s => sym_filePath s = path) symbols.
Proof.
  intros Hok. rewrite parseFile_unfold.
  destruct (getParser parsers path (deriveExtension path)) as [parser|] eqn:Hget.
  - apply getParser_Some in Hget as (before & after & -> & _ & _).
    apply Forall_app in Hok as [_ [Hparser _]%Forall_cons].
    destruct (parse parser content path) as [r|e] eqn:Hparse; simpl.
    + intros [= <-]. by apply (Hparser content).
    + by intros [= <-].
  - by intros [= <-].
Qed.

Lemma allocated_record_ok (h : Store) addrs symbols path :
  Forall2 (fun a s => h !! a = Some s) addrs symbols →
  Forall (fun s => sym_filePath s = path) symbols →
  Forall (fun a => sym_filePath <$> h !! a = Some path) addrs.
Proof.
  induction 1 as [|a s addrs symbols Ha _ IH]; [constructor|].
  intros [Hs Hpaths]%Forall_cons.
  constructor; [|by apply IH]. rewrite Ha. simpl. by rewrite Hs.
Qed.

Lemma parseAndAdd_spec fs parsers path st :
  maintained st → Forall parser_ok parsers →
  Js.get path (files (graph st)) = None →
  match Server.parseAndAdd fs parsers path st with
  | (None, st') => st' = st
  | (Some F, st') =>
      filePath F = path ∧ maintained st'
      ∧ files (graph st') = Js.set path F (files (graph st))
  end.
Proof.
  intros Hst Hok Hnew. unfold Server.parseAndAdd.
  destruct (readFile fs path) as [content|]; [|done].
  destruct (parseFile parsers content path) as [result|] eqn:Hparse; [|done].
  destruct (success result); [|done].
  destruct (pr_ast result) as [tree|]; [|done].
  destruct (pr_symbols result) as [symbols|] eqn:Hsymbols; [|done].
  destruct (pr_dependencies result) as [deps|]; [|done].
  destruct (allocate symbols (store st)) as [addrs h] eqn:Halloc.
  split; [done|]. split.
  - apply maintained_addFile.
    + by apply (maintained_allocate symbols st addrs).
    + destruct (allocate_spec _ _ _ _ Halloc) as (Hall & _ & _).
      pose proof (parseFile_symbols _ _ _ _ _ Hok Hparse Hsymbols) as Hpaths.
      by apply (allocated_record_ok h addrs symbols).
    + by apply has_false.
  - by rewrite addFile_graph.
Qed.

(** ** The index and the file map *)

Section link.

Context (P : Platform) (root : string).
Context (index : Js.Map FileInfo) (fs fs1 : Js.Map FileAST).
Context (relativePath path : string).

Hypothesis Hindex : index_ok P root index.
Hypothesis Hlinked : linked index fs.
Hypothesis Hrel : path_relative P root path = relativePath.
Hypothesis Hremoved :
  ∀ q, Js.get q fs1
       = match Js.get relativePath index ≫= fi_ast with
         | Some old => if bool_decide (q = filePath old) then None else Js.get q fs
         | None => Js.get q fs
         end.

Lemma index_ok_get rel info :
  Js.get rel index = Some info →
  path_relative P root (fi_path info) = rel
  ∧ ∀ F, fi_ast info = Some F → filePath F = fi_path info.
Proof.
  intros Hget%get_Some_elem. unfold index_ok in Hindex.
  rewrite Forall_forall in Hindex. apply (Hindex _ Hget).
Qed.

(** The records that stay are those of the other descriptions. *)
Lemma kept_records q F :
  Js.get q fs1 = Some F ↔
  ∃ rel info, rel ≠ relativePath ∧ Js.get rel index = Some info
              ∧ fi_ast info = Some F ∧ fi_path info = q.
Proof.
  rewrite Hremoved. split.
  - intros Hq.
    assert (Hfs : Js.get q fs = Some F).
    { destruct (Js.get relativePath index ≫= fi_ast); [|done].
      by case_bool_decide. }
    apply Hlinked in Hfs as (rel & info & Hget & Hast & Hpath).
    exists rel, info. split; [|done]. intros ->.
    rewrite Hget in Hq. simpl in Hq. rewrite Hast in Hq.
    destruct (index_ok_get _ _ Hget) as [_ HF]. rewrite (HF _ Hast), Hpath in Hq.
    by rewrite bool_decide_eq_true_2 in Hq.
  - intros (rel & info & Hne & Hget & Hast & Hpath).
    assert (Hfs : Js.get q fs = Some F).
    { apply Hlinked. by exists rel, info. }
    destruct (Js.get relativePath index) as [info0|] eqn:Hget0; simpl; [|done].
    destruct (fi_ast info0) as [old|] eqn:Hold; [|done].
    rewrite bool_decide_eq_false_2; [done|]. intros ->.
    destruct (index_ok_get _ _ Hget0) as [Hrel0 HF0].
    destruct (index_ok_get _ _ Hget) as [Hrel1 _].
    rewrite <- (HF0 _ Hold) in Hrel0. rewrite Hpath in Hrel1. congruence.
Qed.

Lemma removed_absent : Js.get path fs1 = None.
Proof.
  destruct (Js.get path fs1) as [F|] eqn:Hget; [|done].
  apply kept_records in Hget as (rel & info & Hne & Hget & _ & Hpath).
  destruct (index_ok_get _ _ Hget) as [Hrel1 _]. rewrite Hpath in Hrel1. congruence.
Qed.

Lemma linked_delete : linked (Js.delete relativePath index) fs1.
Proof.
  intros q F. rewrite kept_records. split.
  - intros (rel & info & Hne & Hget & Hast & Hpath). exists rel, info.
    by rewrite get_delete_ne.
  - intros (rel & info & Hget & Hast & Hpath).
    destruct (decide (rel = relativePath)) as [->|Hne].
    + by rewrite get_delete_eq in Hget.
    + rewrite get_delete_ne in Hget by done. by exists rel, info.
Qed.

Lemma linked_set_none info :
  fi_ast info = None → linked (Js.set relativePath info index) fs1.
Proof.
  intros Hnone q F. rewrite kept_records. split.
  - intros (rel & info1 & Hne & Hget & Hast & Hpath). exists rel, info1.
    by rewrite get_set_ne.
  - intros (rel & info1 & Hget & Hast & Hpath).
    destruct (decide (rel = relativePath)) as [->|Hne].
    + rewrite get_set_eq in Hget. congruence.
    + rewrite get_set_ne in Hget by done. by exists rel, info1.
Qed.

Lemma linked_set_some info F :
  fi_ast info = Some F → fi_path info = path →
  linked (Js.set relativePath info index) (Js.set path F fs1).
Proof.
  intros HF Hpath q G. split.
  - destruct (decide (q = path)) as [->|Hq].
    + rewrite get_set_eq. intros [= <-]. exists relativePath, info.
      by rewrite get_set_eq.
    + rewrite get_set_ne by done.
      intros (rel & info1 & Hne & Hget & Hast & Hpath1)%kept_records.
      exists rel, info1. by rewrite get_set_ne.
  - intros (rel & info1 & Hget & Hast & Hpath1).
    destruct (decide (rel = relativePath)) as [->|Hne].
    + rewrite get_set_eq in Hget. injection Hget as <-.
      rewrite <- Hpath1, Hpath, get_set_eq. congruence.
    + rewrite get_set_ne in Hget by done.
      destruct (index_ok_get _ _ Hget) as [Hrel1 _].
      rewrite get_set_ne.
      * apply kept_records. by exists rel, info1.
      * intros <-. rewrite Hpath1 in Hrel1. congruence.
Qed.

End link.

Lemma index_ok_set P root index rel info :
  index_ok P root index →
  path_relative P root (fi_path info) = rel →
  (∀ F, fi_ast info = Some F → filePath F = fi_path info) →
  index_ok P root (Js.set rel info index).
Proof.
  intros Hindex Hrel HF. unfold index_ok in *. rewrite Forall_forall in *.
  intros e [->|He]%elem_of_set; [done | by apply Hindex].
Qed.

Lemma index_ok_delete P root index rel :
  index_ok P root index → index_ok P root (Js.delete rel index).
Proof.
  unfold index_ok. rewrite !Forall_forall.
  intros Hindex e [He _]%elem_of_delete. by apply Hindex.
Qed.

(** ** The handlers keep the invariant *)

Lemma removed_maintained (old : option FileAST) st :
  maintained st →
  maintained match old with
             | Some old => removeFile (filePath old) st
             | None => st
             end.
Proof. intros Hst. destruct old; [by apply maintained_removeFile | done]. Qed.

Lemma removed_get (old : option FileAST) st q :
  Js.get q (files (graph match old with
                          | Some old => removeFile (filePath old) st
                          | None => st
                          end))
  = match old with
    | Some old => if bool_decide (q = filePath old) then None
                  else Js.get q (files (graph st))
    | None => Js.get q (files (graph st))
    end.
Proof. destruct old; [apply removeFile_get_files | done]. Qed.

Lemma server_ok_removeFile P relativePath srv config :
  Server.codebaseConfig srv = Some config →
  Server.watching srv = true →
  server_ok P srv → server_ok P (Server.removeFile relativePath srv).
Proof.
  intros Hconfig Hwatching (Hst & Hparsers & Hindex & Hlinked).
  specialize (Hindex _ Hconfig). specialize (Hlinked Hwatching).
  unfold Server.removeFile. split; [|split; [|split]]; simpl.
  - by apply removed_maintained.
  - done.
  - intros config' Hconfig'. rewrite Hconfig in Hconfig'. injection Hconfig' as <-.
    by apply index_ok_delete.
  - intros _.
    eapply linked_delete; [exact Hindex | exact Hlinked |].
    intros q. apply removed_get.
Qed.

Lemma server_ok_addOrUpdateFile P fs fullPath relativePath srv config :
  Server.codebaseConfig srv = Some config →
  Server.watching srv = true →
  path_relative P (rootPath config) fullPath = relativePath →
  server_ok P srv → server_ok P (Server.addOrUpdateFile P fs fullPath relativePath srv).
Proof.
  intros Hconfig Hwatching Hrel Hok.
  pose proof Hok as (Hst & Hparsers & Hindex & Hlinked).
  specialize (Hindex _ Hconfig). specialize (Hlinked Hwatching).
  unfold Server.addOrUpdateFile. rewrite Hconfig.
  destruct (stat fs fullPath) as [stats|]; [|done].
  destruct (isFile stats && bool_decide (st_size stats ≤ maxFileSize config)%N);
    [|done].
  set (old := Js.get relativePath (Server.fileIndex srv) ≫= fi_ast).
  set (removed := match old with
                  | Some old => removeFile (filePath old) (Server.astGraph srv)
                  | None => Server.astGraph srv
                  end).
  set (fileInfo := Server.describe P fullPath relativePath _ stats).
  assert (Hremoved : maintained removed) by by apply removed_maintained.
  assert (Hget : ∀ q, Js.get q (files (graph removed))
                      = match old with
                        | Some old => if bool_decide (q = filePath old) then None
                                      else Js.get q (files (graph (Server.astGraph srv)))
                        | None => Js.get q (files (graph (Server.astGraph srv)))
                        end) by (intros q; apply removed_get).
  assert (Habsent : Js.get fullPath (files (graph removed)) = None)
    by (eapply removed_absent; [exact Hindex | exact Hlinked | exact Hrel | exact Hget]).
  assert (Hplain :
    server_ok P
      {| Server.codebaseConfig := Some config;
         Server.fileIndex :=
           Js.set relativePath (Server.withAst fileInfo None) (Server.fileIndex srv);
         Server.astRegistry := Server.astRegistry srv;
         Server.astGraph := removed;
         Server.watching := Server.watching srv |}).
  { split; [|split; [|split]]; simpl; [done..| |].
    - intros config' [= <-]. by apply index_ok_set.
    - intros _.
      eapply linked_set_none; [exact Hindex | exact Hlinked | exact Hget | done]. }
  destruct (bool_decide (fi_category fileInfo = CatSource)); [|done].
  pose proof (parseAndAdd_spec fs (Server.astRegistry srv) fullPath removed
                Hremoved Hparsers Habsent) as Hparse.
  destruct (Server.parseAndAdd fs (Server.astRegistry srv) fullPath removed)
    as [[F|] added]; [|by subst added].
  destruct Hparse as (HF & Hadded & Hfiles).
  split; [|split; [|split]]; simpl; [done..| |].
  - intros config' [= <-]. apply index_ok_set; [done..|]. simpl. by intros ? [= <-].
  - intros _. rewrite Hfiles.
    eapply linked_set_some;
      [exact Hindex | exact Hlinked | exact Hrel | exact Hget | done..].
Qed.

Lemma server_ok_handleFileChange P fs eventType filename srv :
  Server.watching srv = true →
  server_ok P srv → server_ok P (Server.handleFileChange P fs eventType filename srv).
Proof.
  intros Hwatching Hok. unfold Server.handleFileChange.
  destruct (Server.codebaseConfig srv) as [config|] eqn:Hconfig; [|done].
  destruct (Server.shouldExclude P _ _); [done|].
  repeat case_bool_decide; repeat case_match;
    eauto using server_ok_addOrUpdateFile, server_ok_removeFile.
Qed.

(** ** Scanning and parsing a project *)

Lemma unparsed_set P root index fullPath relativePath ext stats :
  path_relative P root fullPath = relativePath →
  unparsed P root index →
  unparsed P root
    (Js.set relativePath (Server.describe P fullPath relativePath ext stats) index).
Proof.
  intros Hrel (Hkeys & Hindex & Hnone). split; [|split].
  - by apply NoDup_keys_set.
  - by apply index_ok_set.
  - rewrite Forall_forall in *. intros e [->|He]%elem_of_set; [done | by apply Hnone].
Qed.

Lemma scanEntries_cons P fs scan config dirPath entry entries index :
  Server.scanEntries P fs scan config dirPath (entry :: entries) index
  = let fullPath := path_join P dirPath entry in
    let relativePath := path_relative P (rootPath config) fullPath in
    if Server.shouldExclude P (Some config) relativePath
    then Server.scanEntries P fs scan config dirPath entries index
    else
      match stat fs fullPath with
      | Abrupt e => (index, Some e)
      | Normal stats =>
          if isDirectory stats then
            match scan fullPath index with
            | (index, None) => Server.scanEntries P fs scan config dirPath entries index
            | (index, Some e) => (index, Some e)
            end
          else if isFile stats then
            if bool_decide (maxFileSize config < st_size stats)%N
            then Server.scanEntries P fs scan config dirPath entries index
            else
              Server.scanEntries P fs scan config dirPath entries
                (Js.set relativePath
                   (Server.describe P fullPath relativePath
                      (Server.slice1 (path_extname P entry)) stats)
                   index)
          else Server.scanEntries P fs scan config dirPath entries index
      end.
Proof. reflexivity. Qed.

Lemma scanDirectoryFrom_S P fs fuel config dirPath depth index :
  Server.scanDirectoryFrom P fs (S fuel) config dirPath depth index
  = if bool_decide (maxDepth config < Z.of_nat depth)%Z then (index, None)
    else
      match readdir fs dirPath with
      | Abrupt e => (index, Some e)
      | Normal entries =>
          Server.scanEntries P fs
            (fun fullPath index =>
               Server.scanDirectoryFrom P fs fuel config fullPath (S depth) index)
            config dirPath entries index
      end.
Proof. reflexivity. Qed.

Lemma scanDirectoryFrom_0 P fs config dirPath depth index :
  Server.scanDirectoryFrom P fs 0 config dirPath depth index = (index, None).
Proof. simpl. by case_bool_decide. Qed.

Lemma scanEntries_unparsed P fs scan config dirPath entries index :
  (∀ fullPath index,
     unparsed P (rootPath config) index →
     unparsed P (rootPath config) (scan fullPath index).1) →
  unparsed P (rootPath config) index →
  unparsed P (rootPath config)
    (Server.scanEntries P fs scan config dirPath entries index).1.
Proof.
  intros Hscan. revert index.
  induction entries as [|entry entries IH]; intros index Hindex; [done|].
  rewrite scanEntries_cons. cbv zeta.
  destruct (Server.shouldExclude P _ _); [by apply IH|].
  destruct (stat fs _) as [stats|]; [|done].
  destruct (isDirectory stats).
  - specialize (Hscan (path_join P dirPath entry) index Hindex).
    destruct (scan (path_join P dirPath entry) index) as [index' [e|]];
      [done | by apply IH].
  - destruct (isFile stats); [|by apply IH].
    case_bool_decide; [by apply IH|]. apply IH. by apply unparsed_set.
Qed.

Lemma scanDirectoryFrom_unparsed P fs fuel config dirPath depth index :
  unparsed P (rootPath config) index →
  unparsed P (rootPath config)
    (Server.scanDirectoryFrom P fs fuel config dirPath depth index).1.
Proof.
  revert dirPath depth index.
  induction fuel as [|fuel IHfuel]; intros dirPath depth index Hindex.
  - by rewrite scanDirectoryFrom_0.
  - rewrite scanDirectoryFrom_S. case_bool_decide; [done|].
    destruct (readdir fs dirPath) as [entries|]; [|done].
    apply scanEntries_unparsed; [|done]. intros fullPath index'. apply IHfuel.
Qed.

Lemma scanEntries_ext P fs scan scan' config dirPath entries index :
  (∀ fullPath index, scan fullPath index = scan' fullPath index) →
  Server.scanEntries P fs scan config dirPath entries index
  = Server.scanEntries P fs scan' config dirPath entries index.
Proof.
  intros Hscan. revert index.
  induction entries as [|entry entries IH]; intros index; [done|].
  rewrite !scanEntries_cons. cbv zeta. rewrite Hscan.
  destruct (Server.shouldExclude P _ _); [by apply IH|].
  destruct (stat fs _) as [stats|]; [|done].
  destruct (isDirectory stats).
  - destruct (scan' (path_join P dirPath entry) index) as [index' [e|]];
      [done | by apply IH].
  - destruct (isFile stats); [|by apply IH].
    case_bool_decide; by apply IH.
Qed.

(** The depth bound ends the scan: levels beyond those left are never
    entered. *)
Lemma scanDirectoryFrom_fuel P fs config fuel fuel' dirPath depth index :
  Server.levelsLeft config depth ≤ fuel →
  Server.levelsLeft config depth ≤ fuel' →
  Server.scanDirectoryFrom P fs fuel config dirPath depth index
  = Server.scanDirectoryFrom P fs fuel' config dirPath depth index.
Proof.
  revert fuel' dirPath depth index.
  induction fuel as [|fuel IHfuel]; intros fuel' dirPath depth index Hfuel Hfuel';
    unfold Server.levelsLeft in *.
  - rewrite scanDirectoryFrom_0. destruct fuel'; [by rewrite scanDirectoryFrom_0|].
    rewrite scanDirectoryFrom_S. rewrite bool_decide_eq_true_2; [done | lia].
  - destruct fuel' as [|fuel'].
    + rewrite scanDirectoryFrom_0, scanDirectoryFrom_S.
      rewrite bool_decide_eq_true_2; [done | lia].
    + rewrite !scanDirectoryFrom_S. case_bool_decide; [done|].
      destruct (readdir fs dirPath) as [entries|]; [|done].
      apply scanEntries_ext. intros fullPath index'.
      apply IHfuel; unfold Server.levelsLeft; lia.
Qed.

Lemma parseEntry_ok P fs config relativePath fileInfo srv :
  Server.codebaseConfig srv = Some config →
  maintained (Server.astGraph srv) →
  Forall parser_ok (Server.astRegistry srv) →
  index_ok P (rootPath config) (Server.fileIndex srv) →
  linked (Server.fileIndex srv) (files (graph (Server.astGraph srv))) →
  Js.get relativePath (Server.fileIndex srv) = Some fileInfo →
  fi_ast fileInfo = None →
  let srv' := Server.parseEntry fs srv (relativePath, fileInfo) in
  maintained (Server.astGraph srv')
  ∧ index_ok P (rootPath config) (Server.fileIndex srv')
  ∧ linked (Server.fileIndex srv') (files (graph (Server.astGraph srv')))
  ∧ Server.codebaseConfig srv' = Some config
  ∧ Server.astRegistry srv' = Server.astRegistry srv
  ∧ Server.watching srv' = Server.watching srv
  ∧ ∀ k, k ≠ relativePath →
         Js.get k (Server.fileIndex srv') = Js.get k (Server.fileIndex srv).
Proof.
  intros Hconfig Hst Hparsers Hindex Hlinked Hget Hnone. unfold Server.parseEntry.
  destruct (bool_decide (fi_category fileInfo = CatSource)); [|done].
  destruct (index_ok_get P _ _ Hindex _ _ Hget) as [Hrel _].
  assert (Hsame : ∀ q, Js.get q (files (graph (Server.astGraph srv)))
    = match Js.get relativePath (Server.fileIndex srv) ≫= fi_ast with
      | Some old => if bool_decide (q = filePath old) then None
                    else Js.get q (files (graph (Server.astGraph srv)))
      | None => Js.get q (files (graph (Server.astGraph srv)))
      end).
  { intros q. rewrite Hget. simpl. by rewrite Hnone. }
  assert (Habsent : Js.get (fi_path fileInfo) (files (graph (Server.astGraph srv))) = None)
    by (eapply removed_absent; [exact Hindex | exact Hlinked | exact Hrel | exact Hsame]).
  pose proof (parseAndAdd_spec fs (Server.astRegistry srv) (fi_path fileInfo)
                (Server.astGraph srv) Hst Hparsers Habsent) as Hparse.
  destruct (Server.parseAndAdd fs (Server.astRegistry srv) (fi_path fileInfo)
              (Server.astGraph srv)) as [[F|] added]; [|done].
  destruct Hparse as (HF & Hadded & Hfiles). simpl.
  split; [done|]. split; [|split; [|split; [done|split; [done|split; [done|]]]]].
  - apply index_ok_set; [done..|]. simpl. by intros ? [= <-].
  - rewrite Hfiles.
    eapply linked_set_some;
      [exact Hindex | exact Hlinked | exact Hrel | exact Hsame | done..].
  - intros k Hk. by apply get_set_ne.
Qed.

Lemma parse_loop P fs config todo srv :
  Server.codebaseConfig srv = Some config →
  maintained (Server.astGraph srv) →
  Forall parser_ok (Server.astRegistry srv) →
  index_ok P (rootPath config) (Server.fileIndex srv) →
  linked (Server.fileIndex srv) (files (graph (Server.astGraph srv))) →
  NoDup todo.*1 →
  Forall (fun e => Js.get e.1 (Server.fileIndex srv) = Some e.2 ∧ fi_ast e.2 = None)
    todo →
  let srv' := fold_left (Server.parseEntry fs) todo srv in
  maintained (Server.astGraph srv')
  ∧ index_ok P (rootPath config) (Server.fileIndex srv')
  ∧ linked (Server.fileIndex srv') (files (graph (Server.astGraph srv')))
  ∧ Server.codebaseConfig srv' = Some config
  ∧ Server.astRegistry srv' = Server.astRegistry srv
  ∧ Server.watching srv' = Server.watching srv.
Proof.
  revert srv. induction todo as [|[relativePath fileInfo] todo IH];
    intros srv Hconfig Hst Hparsers Hindex Hlinked Hkeys Htodo; [done|].
  rewrite fmap_cons in Hkeys. apply NoDup_cons in Hkeys as [Hfirst Hkeys].
  apply Forall_cons in Htodo as [[Hget Hnone] Htodo]. simpl in Hget, Hnone, Hfirst.
  destruct (parseEntry_ok P fs config relativePath fileInfo srv)
    as (H1 & H2 & H3 & H4 & H5 & H6 & Hother); try done.
  cbn [fold_left].
  destruct (IH (Server.parseEntry fs srv (relativePath, fileInfo)))
    as (G1 & G2 & G3 & G4 & G5 & G6); try done.
  - by rewrite H5.
  - rewrite Forall_forall in Htodo |- *. intros e He.
    rewrite Hother; [by apply Htodo|].
    intros Heq. apply Hfirst. rewrite <- Heq. by apply (list_elem_of_fmap_2 fst).
  - cbv zeta. rewrite G5, G6, H5, H6. done.
Qed.

Lemma parseSourceFiles_ok P fs config srv :
  Server.codebaseConfig srv = Some config →
  maintained (Server.astGraph srv) →
  Forall parser_ok (Server.astRegistry srv) →
  unparsed P (rootPath config) (Server.fileIndex srv) →
  let srv' := Server.parseSourceFiles fs srv in
  maintained (Server.astGraph srv')
  ∧ index_ok P (rootPath config) (Server.fileIndex srv')
  ∧ linked (Server.fileIndex srv') (files (graph (Server.astGraph srv')))
  ∧ Server.codebaseConfig srv' = Some config
  ∧ Server.astRegistry srv' = Server.astRegistry srv
  ∧ Server.watching srv' = Server.watching srv.
Proof.
  intros Hconfig Hst Hparsers (Hkeys & Hindex & Hnone).
  unfold Server.parseSourceFiles. rewrite Hconfig.
  match goal with |- context [fold_left _ _ ?s] =>
    destruct (parse_loop P fs config (Server.fileIndex srv) s)
      as (H1 & H2 & H3 & H4 & H5 & H6)
  end; simpl; try done.
  - apply maintained_new.
  - intros q F. split; [done|]. intros (rel & info & Hget%get_Some_elem & Hast & _).
    rewrite Forall_forall in Hnone. specialize (Hnone _ Hget). simpl in Hnone.
    congruence.
  - rewrite Forall_forall in Hnone |- *. intros [rel info] He.
    split; [by apply elem_get | by apply (Hnone _ He)].
Qed.

Lemma server_ok_ingestCodebase P fs path includeTests includeDocs depthLimit srv :
  server_ok P srv →
  server_ok P (Server.ingestCodebase P fs path includeTests includeDocs depthLimit srv).1.
Proof.
  intros Hok. pose proof Hok as (Hst & Hparsers & _ & _).
  unfold Server.ingestCodebase, Server.scanDirectory.
  destruct (existsSync fs path); [|done]. cbn [negb].
  destruct (existsSync fs (path_join P path "package.json")); [|done]. cbn [negb].
  set (config := mkCodebaseConfig _ _ _ _ _).
  pose proof (scanDirectoryFrom_unparsed P fs (Server.levelsLeft config 0) config
                path 0 []) as Hscan.
  destruct (Server.scanDirectoryFrom P fs (Server.levelsLeft config 0) config path 0 [])
    as [index [e|]]; simpl in Hscan.
  - destruct Hscan as (_ & Hindex & _); [by repeat split; constructor|].
    split; [|split; [|split]]; simpl; [done..| |done].
    by intros ? [= <-].
  - match goal with |- context [Server.parseSourceFiles fs ?s] =>
      destruct (parseSourceFiles_ok P fs config s) as (H1 & H2 & H3 & H4 & H5 & H6)
    end; simpl; try done.
    { apply Hscan. by repeat split; constructor. }
    split; [|split; [|split]]; simpl; [done|by rewrite H5| |done].
    rewrite H4. by intros ? [= <-].
Qed.

Lemma server_ok_create P parsers :
  Forall parser_ok parsers → server_ok P (Server.create parsers).
Proof.
  intros Hparsers. split; [apply maintained_new|]. split; [done|].
  split; [done|]. intros _ q F. split; [done|]. by intros (? & ? & ? & _).
Qed.

Lemma server_ok_handle P srv request :
  server_ok P srv → server_ok P (Server.handle P srv request).
Proof.
  intros Hok. destruct request as [fs [path includeTests includeDocs depthLimit|
                                       eventType filename]]; simpl.
  - by apply server_ok_ingestCodebase.
  - destruct (Server.watching srv) eqn:Hwatching; cbn [andb]; [|done].
    destruct (bool_decide (filename = "")); cbn [negb]; [done|].
    by apply server_ok_handleFileChange.
Qed.

Lemma server_ok_run P requests srv :
  server_ok P srv → server_ok P (Server.run P requests srv).
Proof.
  revert srv. unfold Server.run.
  induction requests as [|request requests IH]; intros srv Hok; [done|].
  simpl. by apply IH, server_ok_handle.
Qed.

(** ** What the index holds *)

Lemma description_ok_describe P config fullPath relativePath ext stats fileAST :
  Server.shouldExclude P (Some config) relativePath = false →
  (st_size stats ≤ maxFileSize config)%N →
  (is_Some fileAST →
   Server.categorizeFile P relativePath ext = CatSource) →
  description_ok P config
    (relativePath,
     Server.withAst (Server.describe P fullPath relativePath ext stats) fileAST).
Proof. intros Hexcl Hsize Hsource. repeat split; try done. by exists ext. Qed.

Lemma description_ok_withAst P config relativePath fileInfo fileAST :
  description_ok P config (relativePath, fileInfo) →
  fi_category fileInfo = CatSource →
  description_ok P config (relativePath, Server.withAst fileInfo fileAST).
Proof. intros (H1 & H2 & H3 & H4 & H5) Hsource. by repeat split. Qed.

Lemma Forall_set {V} (Q : string * V → Prop) k v (m : Js.Map V) :
  Q (k, v) → Forall Q m → Forall Q (Js.set k v m).
Proof.
  intros Hv Hm. rewrite Forall_forall in *.
  intros e [->|He]%elem_of_set; [done | by apply Hm].
Qed.

Lemma Forall_delete {V} (Q : string * V → Prop) k (m : Js.Map V) :
  Forall Q m → Forall Q (Js.delete k m).
Proof.
  rewrite !Forall_forall. intros Hm e [He _]%elem_of_delete. by apply Hm.
Qed.

Lemma described_addOrUpdateFile P fs fullPath relativePath srv :
  Server.shouldExclude P (Server.codebaseConfig srv) relativePath = false →
  described P srv →
  described P (Server.addOrUpdateFile P fs fullPath relativePath srv).
Proof.
  intros Hexcl Hok. unfold Server.addOrUpdateFile.
  destruct (Server.codebaseConfig srv) as [config|] eqn:Hconfig; [|done].
  destruct (stat fs fullPath) as [stats|]; [|done].
  destruct (isFile stats); [|done]. cbn [andb].
  case_bool_decide as Hsize; [|done].
  specialize (Hok config Hconfig).
  assert (Hset : ∀ fileAST added,
    (is_Some fileAST →
     Server.categorizeFile P relativePath
       (Server.slice1 (path_extname P relativePath)) = CatSource) →
    described P
      {| Server.codebaseConfig := Some config;
         Server.fileIndex :=
           Js.set relativePath
             (Server.withAst
                (Server.describe P fullPath relativePath
                   (Server.slice1 (path_extname P relativePath)) stats) fileAST)
             (Server.fileIndex srv);
         Server.astRegistry := Server.astRegistry srv;
         Server.astGraph := added;
         Server.watching := Server.watching srv |}).
  { intros fileAST added Hsource config'. simpl. intros [= <-].
    apply Forall_set; [|done]. by apply description_ok_describe. }
  case_bool_decide as Hcat.
  - destruct (Server.parseAndAdd _ _ _ _) as [fileAST added]. by apply Hset.
  - apply Hset. by intros [? [=]].
Qed.

Lemma described_removeFile P relativePath srv :
  described P srv → described P (Server.removeFile relativePath srv).
Proof.
  intros Hok config Hconfig. simpl. apply Forall_delete. by apply Hok.
Qed.

Lemma described_handleFileChange P fs eventType filename srv :
  described P srv → described P (Server.handleFileChange P fs eventType filename srv).
Proof.
  intros Hok. unfold Server.handleFileChange.
  destruct (Server.codebaseConfig srv) as [config|] eqn:Hconfig; [|done].
  destruct (Server.shouldExclude P (Some config) _) eqn:Hexcl; [done|].
  rewrite <- Hconfig in Hexcl.
  repeat case_bool_decide; repeat case_match;
    eauto using described_addOrUpdateFile, described_removeFile.
Qed.

Lemma scanEntries_described P fs scan config dirPath entries index :
  (∀ fullPath index,
     Forall (description_ok P config) index →
     Forall (description_ok P config) (scan fullPath index).1) →
  Forall (description_ok P config) index →
  Forall (description_ok P config)
    (Server.scanEntries P fs scan config dirPath entries index).1.
Proof.
  intros Hscan. revert index.
  induction entries as [|entry entries IH]; intros index Hindex; [done|].
  rewrite scanEntries_cons. cbv zeta.
  destruct (Server.shouldExclude P _ _) eqn:Hexcl; [by apply IH|].
  destruct (stat fs _) as [stats|]; [|done].
  destruct (isDirectory stats).
  - specialize (Hscan (path_join P dirPath entry) index Hindex).
    destruct (scan (path_join P dirPath entry) index) as [index' [e|]];
      [done | by apply IH].
  - destruct (isFile stats); [|by apply IH].
    case_bool_decide as Hsize; [by apply IH|]. apply IH.
    apply Forall_set; [|done].
    apply (description_ok_describe P config _ _ _ _ None); [done|lia|].
    by intros [? [=]].
Qed.

Lemma scanDirectoryFrom_described P fs fuel config dirPath depth index :
  Forall (description_ok P config) index →
  Forall (description_ok P config)
    (Server.scanDirectoryFrom P fs fuel config dirPath depth index).1.
Proof.
  revert dirPath depth index.
  induction fuel as [|fuel IHfuel]; intros dirPath depth index Hindex.
  - by rewrite scanDirectoryFrom_0.
  - rewrite scanDirectoryFrom_S. case_bool_decide; [done|].
    destruct (readdir fs dirPath) as [entries|]; [|done].
    apply scanEntries_described; [|done]. intros fullPath index'. apply IHfuel.
Qed.

Lemma parseEntry_described P fs config srv e :
  Server.codebaseConfig srv = Some config →
  description_ok P config e →
  Forall (description_ok P config) (Server.fileIndex srv) →
  let srv' := Server.parseEntry fs srv e in
  Server.codebaseConfig srv' = Some config
  ∧ Forall (description_ok P config) (Server.fileIndex srv').
Proof.
  intros Hconfig He Hindex. destruct e as [relativePath fileInfo].
  unfold Server.parseEntry. case_bool_decide as Hcat; [|done].
  destruct (Server.parseAndAdd _ _ _ _) as [[F|] added]; [|done]. simpl.
  split; [done|]. apply Forall_set; [|done]. by apply description_ok_withAst.
Qed.

Lemma parseSourceFiles_described P fs srv :
  described P srv → described P (Server.parseSourceFiles fs srv).
Proof.
  intros Hok. unfold Server.parseSourceFiles.
  destruct (Server.codebaseConfig srv) as [config|] eqn:Hconfig; [|done].
  specialize (Hok config Hconfig).
  enough (∀ todo srv1,
            Server.codebaseConfig srv1 = Some config →
            Forall (description_ok P config) todo →
            Forall (description_ok P config) (Server.fileIndex srv1) →
            described P (fold_left (Server.parseEntry fs) todo srv1)) as Hloop
    by by apply Hloop.
  induction todo as [|e todo IH]; intros srv1 Hconfig1 Htodo Hindex.
  - simpl. intros config'. rewrite Hconfig1. by intros [= <-].
  - apply Forall_cons in Htodo as [He Htodo]. cbn [fold_left].
    destruct (parseEntry_described P fs config srv1 e) as [H1 H2]; try done.
    by apply IH.
Qed.

Lemma described_ingestCodebase P fs path includeTests includeDocs depthLimit srv :
  described P srv →
  described P (Server.ingestCodebase P fs path includeTests includeDocs depthLimit srv).1.
Proof.
  intros Hok. unfold Server.ingestCodebase, Server.scanDirectory.
  destruct (existsSync fs path); [|done]. cbn [negb].
  destruct (existsSync fs (path_join P path "package.json")); [|done]. cbn [negb].
  set (config := mkCodebaseConfig _ _ _ _ _).
  pose proof (scanDirectoryFrom_described P fs (Server.levelsLeft config 0) config
                path 0 [] (Forall_nil_2 _)) as Hscan.
  destruct (Server.scanDirectoryFrom P fs (Server.levelsLeft config 0) config path 0 [])
    as [index [e|]]; simpl in Hscan.
  - simpl. by intros ? [= <-].
  - simpl.
    match goal with |- context [Server.parseSourceFiles fs ?s] =>
      pose proof (parseSourceFiles_described P fs s) as Hparsed
    end.
    intros config'. simpl. apply Hparsed. simpl. by intros ? [= <-].
Qed.

Lemma described_run P requests srv :
  described P srv → described P (Server.run P requests srv).
Proof.
  revert srv. unfold Server.run.
  induction requests as [|[fs request] requests IH]; intros srv Hok; [done|].
  simpl. apply IH. destruct request; simpl.
  - by apply described_ingestCodebase.
  - destruct (Server.watching srv); cbn [andb]; [|done].
    destruct (bool_decide (filename = "")); cbn [negb]; [done|].
    by apply described_handleFileChange.
Qed.

(** ** The category of a file *)

Lemma categorizeFile_source P relativePath ext :
  Server.categorizeFile P relativePath ext = CatSource →
  Forall (fun marker => Js.includes (Js.toLowerCase relativePath) marker = false)
    categoryMarkers
  ∧ Js.startsWith (path_basename P relativePath) "." = false
  ∧ ext ∈ ["js"; "ts"; "jsx"; "tsx"; "vue"; "svelte"; "css"; "scss"; "sass"; "less"].
Proof.
  unfold Server.categorizeFile, categoryMarkers.
  destruct (Js.includes _ "test") eqn:Htest; [done|].
  destruct (Js.includes _ "spec") eqn:Hspec; [done|].
  destruct (Js.includes _ "__tests__"); [done|].
  destruct (Js.includes _ "config") eqn:Hconfig; [done|].
  destruct (Server.oneOf _ ext); [done|].
  destruct (Js.startsWith _ "."); [done|].
  destruct (Server.oneOf _ ext); [done|].
  destruct (Js.includes _ "doc") eqn:Hdoc; [done|].
  destruct (Js.includes _ "dist") eqn:Hdist; [done|].
  destruct (Js.includes _ "build") eqn:Hbuild; [done|].
  destruct (Js.includes _ ".output") eqn:Houtput; [done|]. cbn [orb].
  unfold Server.oneOf. case_bool_decide; [|done]. intros _.
  split; [by repeat constructor | done].
Qed.

(** ** The configuration *)

Lemma addOrUpdateFile_config P fs fullPath relativePath srv :
  Server.codebaseConfig (Server.addOrUpdateFile P fs fullPath relativePath srv)
  = Server.codebaseConfig srv.
Proof.
  unfold Server.addOrUpdateFile.
  destruct (Server.codebaseConfig srv) as [config|] eqn:Hconfig; [|done].
  destruct (stat fs fullPath) as [stats|]; [|done].
  destruct (_ && _); [|done]. by repeat case_match.
Qed.

Lemma handleFileChange_config P fs eventType filename srv :
  Server.codebaseConfig (Server.handleFileChange P fs eventType filename srv)
  = Server.codebaseConfig srv.
Proof.
  unfold Server.handleFileChange.
  destruct (Server.codebaseConfig srv) as [config|] eqn:Hconfig; [|done].
  repeat case_match; try done; by rewrite addOrUpdateFile_config.
Qed.

Lemma parseEntry_config fs srv e :
  Server.codebaseConfig (Server.parseEntry fs srv e) = Server.codebaseConfig srv.
Proof. unfold Server.parseEntry. by repeat case_match. Qed.

Lemma parseSourceFiles_config fs srv :
  Server.codebaseConfig (Server.parseSourceFiles fs srv) = Server.codebaseConfig srv.
Proof.
  unfold Server.parseSourceFiles.
  destruct (Server.codebaseConfig srv) as [config|] eqn:Hconfig; [|done].
  match goal with |- context [fold_left _ _ ?s] =>
    change (Some config) with (Server.codebaseConfig s) at 2; generalize s
  end.
  induction (Server.fileIndex srv) as [|e todo IH]; intros srv1; [done|].
  cbn [fold_left]. by rewrite IH, parseEntry_config.
Qed.

Lemma config_ok_run P requests srv :
  config_ok srv → config_ok (Server.run P requests srv).
Proof.
  revert srv. unfold Server.run.
  induction requests as [|[fs request] requests IH]; intros srv Hok; [done|].
  simpl. apply IH. destruct request; simpl.
  - unfold Server.ingestCodebase, Server.scanDirectory.
    destruct (existsSync fs path); [|done]. cbn [negb].
    destruct (existsSync fs (path_join P path "package.json")); [|done]. cbn [negb].
    destruct (Server.scanDirectoryFrom _ _ _ _ _ _ _) as [index [e|]];
      intros config; simpl.
    + by intros [= <-].
    + rewrite parseSourceFiles_config. simpl. by intros [= <-].
  - destruct (Server.watching srv); cbn [andb]; [|done].
    destruct (bool_decide (filename = "")); cbn [negb]; [done|].
    intros config. rewrite handleFileChange_config. apply Hok.
Qed.

(** ** The states of the server *)

Lemma absent_file_unreferenced st path name :
  consistent st → references_current st →
  Js.get path (files (graph st)) = None →
  getFileSymbols path st = []
  ∧ Forall (fun ref => ref_filePath ref ≠ path)
      (findSymbolReferencesAcrossProject name st).
Proof.
  intros Hc Hcur Hnone. split.
  - apply filter_none, Forall_forall. intros S HS.
    by apply (no_record_no_symbols st).
  - rewrite findSymbolReferencesAcrossProject_unrolled. apply Forall_forall.
    intros ref (S & [_ HS]%list_elem_of_filter & Href)%elem_of_flat_map.
    destruct (symbolValues_current st S Hc Hcur HS) as [Hrefs _].
    rewrite Hrefs in Href. unfold spec_references in Href.
    apply elem_of_cons in Href
      as [-> | (I & -> & [_ HI]%list_elem_of_filter)%list_elem_of_fmap].
    + simpl. by apply (no_record_no_symbols st).
    + apply list_elem_of_omap in HI as (a & Ha & HI). simpl.
      destruct (files_ok_filePath st a I Hc Ha HI) as (F' & HF' & _). congruence.
Qed.

Lemma adapter_ok : Forall parser_ok [Project.adapter].
Proof.
  constructor; [|constructor]. intros content path result symbols [= <-] [= <-].
  repeat case_bool_decide; by repeat constructor.
Qed.

Lemma reachable_ok P parsers requests :
  Forall parser_ok parsers →
  server_ok P (Server.run P requests (Server.create parsers)).
Proof. intros Hparsers. by apply server_ok_run, server_ok_create. Qed.

Lemma reachable_described P parsers requests :
  described P (Server.run P requests (Server.create parsers)).
Proof. apply described_run. by intros config. Qed.

Lemma reachable_config_ok P parsers requests :
  config_ok (Server.run P requests (Server.create parsers)).
Proof. apply config_ok_run. by intros config. Qed.

(** X10. Whatever requests the server handles, one after the other, on
    whatever file systems, it keeps its graph as the graph builder
    requires: [addFile] is only ever called with a record whose symbols
    carry its path and whose path has no record. *)
Theorem X10_server_keeps_graph_maintained
    (P : Platform) (parsers : DefaultASTParserRegistry)
    (requests : list (FileSystem * Server.Request)) :
  Forall parser_ok parsers →
  maintained (Server.astGraph (Server.run P requests (Server.create parsers))).
Proof. intros Hparsers. by destruct (reachable_ok P parsers requests) as [? _]. Qed.

Lemma X10_server_keeps_graph_maintained_witness :
  maintained (Server.astGraph Project.ingested)
  ∧ Js.keys (files (graph (Server.astGraph Project.ingested)))
    = ["/project/src/a.ts"; "/project/src/b.ts"].
Proof.
  split; [|vm_compute; reflexivity].
  apply (X10_server_keeps_graph_maintained Project.platform [Project.adapter]).
  exact adapter_ok.
Defined.

(** X11. While the watcher runs, the records of the graph are exactly the
    records attached to the descriptions of the index, each filed in the
    graph under the path of its description; and a description is filed in
    the index under the path of its file relative to the root. *)
Theorem X11_graph_records_are_indexed
    (P : Platform) (parsers : DefaultASTParserRegistry)
    (requests : list (FileSystem * Server.Request)) (config : CodebaseConfig) :
  Forall parser_ok parsers →
  let srv := Server.run P requests (Server.create parsers) in
  Server.codebaseConfig srv = Some config →
  Server.watching srv = true →
  (∀ path F,
     Js.get path (files (graph (Server.astGraph srv))) = Some F ↔
     ∃ fileInfo,
       Js.get (path_relative P (rootPath config) path) (Server.fileIndex srv)
       = Some fileInfo
       ∧ fi_ast fileInfo = Some F ∧ fi_path fileInfo = path)
  ∧ ∀ relativePath fileInfo,
      Js.get relativePath (Server.fileIndex srv) = Some fileInfo →
      path_relative P (rootPath config) (fi_path fileInfo) = relativePath.
Proof.
  intros Hparsers srv Hconfig Hwatching. unfold srv in *. clear srv.
  destruct (reachable_ok P parsers requests Hparsers) as (_ & _ & Hindex & Hlinked).
  specialize (Hindex config Hconfig). specialize (Hlinked Hwatching).
  split.
  - intros path F. rewrite (Hlinked path F). split.
    + intros (rel & info & Hget & Hast & Hpath). exists info.
      destruct (index_ok_get P _ _ Hindex _ _ Hget) as [Hrel _].
      rewrite Hpath in Hrel. by rewrite Hrel.
    + intros (info & Hget & Hast & Hpath).
      by exists (path_relative P (rootPath config) path), info.
  - intros rel info Hget. by destruct (index_ok_get P _ _ Hindex _ _ Hget).
Qed.

Lemma X11_graph_records_are_indexed_witness :
  Server.codebaseConfig Project.ingested = Some Project.config
  ∧ Server.watching Project.ingested = true
  ∧ ∀ F, Js.get "/project/src/b.ts" (files (graph (Server.astGraph Project.ingested)))
         = Some F ↔
         ∃ fileInfo,
           Js.get "src/b.ts" (Server.fileIndex Project.ingested) = Some fileInfo
           ∧ fi_ast fileInfo = Some F ∧ fi_path fileInfo = "/project/src/b.ts".
Proof.
  assert (Hconfig : Server.codebaseConfig Project.ingested = Some Project.config)
    by (vm_compute; reflexivity).
  assert (Hwatching : Server.watching Project.ingested = true)
    by (vm_compute; reflexivity).
  split; [exact Hconfig|]. split; [exact Hwatching|]. intros F.
  destruct (X11_graph_records_are_indexed Project.platform [Project.adapter]
              _ Project.config adapter_ok Hconfig Hwatching) as [Hrecords _].
  exact (Hrecords "/project/src/b.ts" F).
Defined.

(** X12. When the watcher reports that a file was deleted, the server
    forgets it: its description leaves the index, the graph has no record
    and no symbol for it, and no reference the graph returns, for any name,
    is located in it. *)
Theorem X12_deleted_file_is_forgotten
    (P : Platform) (parsers : DefaultASTParserRegistry)
    (requests : list (FileSystem * Server.Request)) (config : CodebaseConfig)
    (fs : FileSystem) (filename name : string) :
  Forall parser_ok parsers →
  let srv := Server.run P requests (Server.create parsers) in
  let fullPath := path_join P (rootPath config) filename in
  let relativePath := path_relative P (rootPath config) fullPath in
  Server.codebaseConfig srv = Some config →
  Server.watching srv = true →
  filename ≠ "" →
  Server.shouldExclude P (Some config) relativePath = false →
  existsSync fs fullPath = false →
  let srv' := Server.handle P srv (fs, Server.Watched "rename" filename) in
  Js.get relativePath (Server.fileIndex srv') = None
  ∧ Js.get fullPath (files (graph (Server.astGraph srv'))) = None
  ∧ getFileSymbols fullPath (Server.astGraph srv') = []
  ∧ Forall (fun ref => ref_filePath ref ≠ fullPath)
      (findSymbolReferencesAcrossProject name (Server.astGraph srv')).
Proof.
  intros Hparsers srv fullPath relativePath Hconfig Hwatching Hname Hexcl Hgone srv'.
  pose proof (reachable_ok P parsers requests Hparsers) as Hok. fold srv in Hok.
  assert (Hsrv' : srv' = Server.removeFile relativePath srv).
  { unfold srv'. simpl. rewrite Hwatching, bool_decide_eq_false_2 by done.
    cbn [andb negb]. unfold Server.handleFileChange.
    rewrite Hconfig. fold fullPath. fold relativePath. rewrite Hexcl.
    rewrite bool_decide_eq_true_2 by done. by rewrite Hgone. }
  pose proof (server_ok_removeFile P relativePath srv config Hconfig Hwatching Hok)
    as (Hst & _ & Hindex & Hlinked).
  rewrite <- Hsrv' in Hst, Hindex, Hlinked.
  assert (Hconfig' : Server.codebaseConfig srv' = Some config) by by rewrite Hsrv'.
  assert (Hwatching' : Server.watching srv' = true) by by rewrite Hsrv'.
  specialize (Hindex config Hconfig'). specialize (Hlinked Hwatching').
  assert (Hentry : Js.get relativePath (Server.fileIndex srv') = None).
  { rewrite Hsrv'. apply get_delete_eq. }
  assert (Hrecord : Js.get fullPath (files (graph (Server.astGraph srv'))) = None).
  { destruct (Js.get fullPath (files (graph (Server.astGraph srv')))) as [F|] eqn:HF;
      [|done].
    apply Hlinked in HF as (rel & info & Hget & _ & Hpath).
    destruct (index_ok_get P _ _ Hindex _ _ Hget) as [Hrel _].
    rewrite Hpath in Hrel. fold relativePath in Hrel. congruence. }
  split; [done|]. split; [done|].
  destruct (maintained_invariant _ Hst) as [Hc Hcur].
  by apply absent_file_unreferenced.
Qed.

Lemma X12_deleted_file_is_forgotten_witness :
  let srv' :=
    Server.handle Project.platform Project.ingested
      (Project.disk ["/project/src/a.ts"], Server.Watched "rename" "src/a.ts") in
  Js.keys (Server.fileIndex Project.ingested)
  = [".output/server.mjs"; "package.json"; "src/a.test.ts"; "src/a.ts"; "src/b.ts"]
  ∧ Js.get "src/a.ts" (Server.fileIndex srv') = None
  ∧ getFileSymbols "/project/src/a.ts" (Server.astGraph srv') = []
  ∧ Forall (fun ref => ref_filePath ref ≠ "/project/src/a.ts")
      (findSymbolReferencesAcrossProject "add" (Server.astGraph srv')).
Proof.
  intros srv'. split; [vm_compute; reflexivity|].
  assert (Hconfig : Server.codebaseConfig Project.ingested = Some Project.config)
    by (vm_compute; reflexivity).
  assert (Hwatching : Server.watching Project.ingested = true)
    by (vm_compute; reflexivity).
  destruct (X12_deleted_file_is_forgotten Project.platform [Project.adapter] _
              Project.config (Project.disk ["/project/src/a.ts"]) "src/a.ts" "add"
              adapter_ok Hconfig Hwatching)
    as (Hentry & _ & Hsymbols & Hrefs); [done | vm_compute; reflexivity..|].
  split; [exact Hentry|]. split; [exact Hsymbols | exact Hrefs].
Defined.

(** X13. While the watcher runs, the graph has records only for files the
    server takes for source files: the path of a record, relative to the
    root and in lower case, contains none of [test], [spec], [config],
    [doc], [dist], [build] and [.output], its base name does not start
    with a dot, and no exclusion pattern applies to it. *)
Theorem X13_records_only_for_source_paths
    (P : Platform) (parsers : DefaultASTParserRegistry)
    (requests : list (FileSystem * Server.Request)) (config : CodebaseConfig)
    (path : string) (F : FileAST) :
  Forall parser_ok parsers →
  let srv := Server.run P requests (Server.create parsers) in
  Server.codebaseConfig srv = Some config →
  Server.watching srv = true →
  Js.get path (files (graph (Server.astGraph srv))) = Some F →
  let relativePath := path_relative P (rootPath config) path in
  Forall (fun marker => Js.includes (Js.toLowerCase relativePath) marker = false)
    categoryMarkers
  ∧ Js.startsWith (path_basename P relativePath) "." = false
  ∧ Server.shouldExclude P (Some config) relativePath = false.
Proof.
  intros Hparsers srv Hconfig Hwatching HF relativePath.
  unfold srv in *. clear srv.
  destruct (reachable_ok P parsers requests Hparsers) as (_ & _ & Hindex & Hlinked).
  specialize (Hindex config Hconfig). specialize (Hlinked Hwatching).
  pose proof (reachable_described P parsers requests config Hconfig) as Hdescribed.
  apply Hlinked in HF as (rel & info & Hget & Hast & Hpath).
  destruct (index_ok_get P _ _ Hindex _ _ Hget) as [Hrel _].
  rewrite Hpath in Hrel. fold relativePath in Hrel. subst rel.
  rewrite Forall_forall in Hdescribed.
  destruct (Hdescribed _ (get_Some_elem _ _ _ Hget))
    as (_ & Hexcl & _ & (ext & Hcat & _) & Hsource). simpl in *.
  rewrite Hsource in Hcat by by rewrite Hast.
  symmetry in Hcat. apply categorizeFile_source in Hcat as (Hmarkers & Hbase & _).
  done.
Qed.

Lemma X13_records_only_for_source_paths_witness :
  Js.keys (files (graph (Server.astGraph Project.ingested)))
  = ["/project/src/a.ts"; "/project/src/b.ts"]
  ∧ Js.includes "src/a.ts" "test" = false
  ∧ Js.get "/project/src/a.test.ts" (files (graph (Server.astGraph Project.ingested)))
    = None.
Proof.
  split; [vm_compute; reflexivity|].
  assert (Hconfig : Server.codebaseConfig Project.ingested = Some Project.config)
    by (vm_compute; reflexivity).
  assert (Hwatching : Server.watching Project.ingested = true)
    by (vm_compute; reflexivity).
  split.
  - destruct (Js.get "/project/src/a.ts"
                (files (graph (Server.astGraph Project.ingested)))) as [F|] eqn:HF;
      [|vm_compute in HF; discriminate].
    destruct (X13_records_only_for_source_paths Project.platform [Project.adapter] _
                Project.config "/project/src/a.ts" F adapter_ok Hconfig Hwatching HF)
      as [Hmarkers _].
    apply Forall_cons in Hmarkers as [Htest _]. exact Htest.
  - destruct (Js.get "/project/src/a.test.ts"
                (files (graph (Server.astGraph Project.ingested)))) as [F|] eqn:HF;
      [|reflexivity].
    destruct (X13_records_only_for_source_paths Project.platform [Project.adapter] _
                Project.config "/project/src/a.test.ts" F adapter_ok Hconfig Hwatching HF)
      as [Hmarkers _].
    apply Forall_cons in Hmarkers as [Htest _]. vm_compute in Htest. discriminate.
Defined.

Lemma shouldExclude_plain P config relativePath :
  excludePatterns config = Server.buildExcludePatterns →
  Server.shouldExclude P (Some config) relativePath = false →
  Forall (fun pattern => Js.includes relativePath pattern = false)
    ["node_modules"; "dist"; "build"; ".git"; ".vscode"; ".idea"; "coverage";
     ".nyc_output"; ".env"; ".DS_Store"; "Thumbs.db"].
Proof.
  intros Hpatterns. unfold Server.shouldExclude. rewrite Hpatterns.
  unfold Server.buildExcludePatterns. cbn [existsb].
  repeat match goal with
         | |- context [if Js.includes ?p "*" then _ else _] =>
             let b := eval vm_compute in (Js.includes p "*") in
             change (Js.includes p "*") with b; cbv iota
         end.
  intros H.
  repeat (apply orb_false_elim in H as [? H]).
  by repeat constructor.
Qed.

Lemma unconfigured_run P requests srv :
  (Server.codebaseConfig srv = None → Server.fileIndex srv = []) →
  Server.codebaseConfig (Server.run P requests srv) = None →
  Server.fileIndex (Server.run P requests srv) = [].
Proof.
  revert srv. unfold Server.run.
  induction requests as [|[fs request] requests IH]; intros srv Hsrv; [done|].
  simpl. apply IH. destruct request; simpl.
  - unfold Server.ingestCodebase, Server.scanDirectory.
    destruct (existsSync fs path); [|done]. cbn [negb].
    destruct (existsSync fs (path_join P path "package.json")); [|done]. cbn [negb].
    destruct (Server.scanDirectoryFrom _ _ _ _ _ _ _) as [index [e|]]; simpl; [done|].
    by rewrite parseSourceFiles_config.
  - destruct (Server.watching srv); cbn [andb]; [|done].
    destruct (bool_decide (filename = "")); cbn [negb]; [done|].
    rewrite handleFileChange_config. intros Hnone.
    unfold Server.handleFileChange. rewrite Hnone. by apply Hsrv.
Qed.

(** X14. Whatever requests the server handles, its index never describes
    a file it excludes or a file of more than 1 MiB: the key of a
    description is the description's relative path, it contains none of the
    excluded names, the size recorded is at most 1048576, the category is
    the one [categorizeFile] gives the key, and only descriptions of
    category [source] have a record attached. *)
Theorem X14_index_holds_no_excluded_file
    (P : Platform) (parsers : DefaultASTParserRegistry)
    (requests : list (FileSystem * Server.Request))
    (relativePath : string) (fileInfo : FileInfo) :
  let srv := Server.run P requests (Server.create parsers) in
  Js.get relativePath (Server.fileIndex srv) = Some fileInfo →
  fi_relativePath fileInfo = relativePath
  ∧ Forall (fun pattern => Js.includes relativePath pattern = false)
      ["node_modules"; "dist"; "build"; ".git"; ".vscode"; ".idea"; "coverage";
       ".nyc_output"; ".env"; ".DS_Store"; "Thumbs.db"]
  ∧ (fi_size fileInfo ≤ 1048576)%N
  ∧ (∃ ext, fi_category fileInfo = Server.categorizeFile P relativePath ext)
  ∧ (is_Some (fi_ast fileInfo) → fi_category fileInfo = CatSource).
Proof.
  intros srv Hget. unfold srv in *. clear srv.
  destruct (Server.codebaseConfig (Server.run P requests (Server.create parsers)))
    as [config|] eqn:Hconfig.
  - pose proof (reachable_described P parsers requests config Hconfig) as Hdescribed.
    destruct (reachable_config_ok P parsers requests config Hconfig) as [Hmax Hpatterns].
    rewrite Forall_forall in Hdescribed.
    destruct (Hdescribed _ (get_Some_elem _ _ _ Hget))
      as (Hrel & Hexcl & Hsize & (ext & Hcat & _) & Hsource). simpl in *.
    rewrite Hmax in Hsize. repeat split; try done.
    + by apply (shouldExclude_plain P config).
    + by exists ext.
  - rewrite (unconfigured_run P requests (Server.create parsers)) in Hget; done.
Qed.

Lemma X14_index_holds_no_excluded_file_witness :
  ∃ fileInfo,
    Js.get "src/a.ts" (Server.fileIndex Project.ingested) = Some fileInfo
    ∧ fi_relativePath fileInfo = "src/a.ts"
    ∧ (fi_size fileInfo ≤ 1048576)%N
    ∧ (is_Some (fi_ast fileInfo) → fi_category fileInfo = CatSource).
Proof.
  destruct (Js.get "src/a.ts" (Server.fileIndex Project.ingested))
    as [fileInfo|] eqn:Hget; [|vm_compute in Hget; discriminate].
  destruct (X14_index_holds_no_excluded_file Project.platform [Project.adapter] _ _ _
              Hget) as (Hrel & _ & Hsize & _ & Hsource).
  exists fileInfo. split; [reflexivity|]. split; [exact Hrel|].
  split; [exact Hsize | exact Hsource].
Defined.


(** ** Searching symbols *)

Lemma startsWith_refl s : Js.startsWith s s = true.
Proof. induction s as [|c s IH]; [done|]. simpl. by rewrite bool_decide_eq_true_2. Qed.

Lemma includes_refl s : Js.includes s s = true.
Proof. apply includes_startsWith, startsWith_refl. Qed.

Lemma typeName_nonempty t : typeName t ≠ "".
Proof. by destruct t. Qed.

Lemma given_Some s : s ≠ "" → Server.given (Some s) = Some s.
Proof. intros Hs. simpl. by rewrite bool_decide_eq_false_2. Qed.

(** X15. Once a codebase is ingested, [search_symbols] extends the three
    look-ups of the graph: asked for a kind alone it finds the symbols
    [getSymbolsByType] returns, in the same order; asked for a name alone
    it finds every symbol [getSymbolByName] returns for that name, in any
    letter case; asked for a file alone it finds every symbol
    [getFileSymbols] returns for that path.  An empty argument is no
    argument. *)
Theorem X15_search_extends_queries
    (srv : Server.ViteMCPServer) (t : SymbolType) (name path : string) :
  is_Some (Server.codebaseConfig srv) →
  Server.searchSymbols None (Some (typeName t)) None srv
  = inr (getSymbolsByType t (Server.astGraph srv))
  ∧ (name ≠ "" →
     ∃ found, Server.searchSymbols (Some name) None None srv = inr found
              ∧ getSymbolByName name (Server.astGraph srv) ⊆ found
              ∧ ∀ S, S ∈ symbolValues (Server.astGraph srv) →
                     Js.toLowerCase (sym_name S) = Js.toLowerCase name → S ∈ found)
  ∧ (path ≠ "" →
     ∃ found, Server.searchSymbols None None (Some path) srv = inr found
              ∧ getFileSymbols path (Server.astGraph srv) ⊆ found)
  ∧ Server.searchSymbols (Some "") (Some "") (Some "") srv
    = inr (symbolValues (Server.astGraph srv)).
Proof.
  intros [config Hconfig]. unfold Server.searchSymbols. rewrite Hconfig.
  split; [|split; [|split]].
  - rewrite given_Some by apply typeName_nonempty. cbn [Server.given]. f_equal.
    unfold getSymbolsByType. apply list_filter_iff. intros S. split.
    + apply typeName_inj.
    + by intros ->.
  - intros Hname. rewrite given_Some by done. cbn [Server.given].
    eexists. split; [done|]. split.
    + intros S [HS Hin]%list_elem_of_filter. apply list_elem_of_filter.
      split; [|done]. simpl in HS. rewrite HS. apply includes_refl.
    + intros S Hin HS. apply list_elem_of_filter. split; [|done].
      rewrite HS. apply includes_refl.
  - intros Hpath. rewrite given_Some by done. cbn [Server.given].
    eexists. split; [done|].
    intros S [HS Hin]%list_elem_of_filter. apply list_elem_of_filter.
    split; [|done]. simpl in HS. rewrite HS. apply includes_refl.
  - done.
Qed.

Lemma X15_search_extends_queries_witness :
  is_Some (Server.codebaseConfig Project.ingested)
  ∧ Server.searchSymbols None (Some "function") None Project.ingested
    = inr (getSymbolsByType SymFunction (Server.astGraph Project.ingested))
  ∧ ∃ found, Server.searchSymbols (Some "add") None None Project.ingested = inr found
             ∧ getSymbolByName "add" (Server.astGraph Project.ingested) ⊆ found.
Proof.
  assert (Hconfig : is_Some (Server.codebaseConfig Project.ingested))
    by (exists Project.config; vm_compute; reflexivity).
  assert (Hname : "add" ≠ "") by discriminate.
  destruct (X15_search_extends_queries Project.ingested SymFunction "add"
              "/project/src/a.ts" Hconfig) as (Htype & Hfound & _).
  split; [exact Hconfig|]. split; [exact Htype|].
  destruct (Hfound Hname) as (found & Hsearch & Hall & _). exists found.
  split; [exact Hsearch | exact Hall].
Defined.

(** ** The outcomes of an ingest *)


(** ** Build output in the index *)

(** X17. The exclusion patterns [dist] and [build] leave little for the
    category [build]: a description of that category in the index is for a
    path that contains [.output], or contains [dist] or [build] only in
    another letter case. *)
Theorem X17_build_category_in_index
    (P : Platform) (parsers : DefaultASTParserRegistry)
    (requests : list (FileSystem * Server.Request))
    (relativePath : string) (fileInfo : FileInfo) :
  let srv := Server.run P requests (Server.create parsers) in
  Js.get relativePath (Server.fileIndex srv) = Some fileInfo →
  fi_category fileInfo = CatBuild →
  Js.includes relativePath "dist" = false
  ∧ Js.includes relativePath "build" = false
  ∧ (Js.includes (Js.toLowerCase relativePath) ".output" = true
     ∨ Js.includes (Js.toLowerCase relativePath) "dist" = true
     ∨ Js.includes (Js.toLowerCase relativePath) "build" = true).
Proof.
  intros srv Hget Hbuild. unfold srv in *. clear srv.
  destruct (Server.codebaseConfig (Server.run P requests (Server.create parsers)))
    as [config|] eqn:Hconfig.
  - pose proof (reachable_described P parsers requests config Hconfig) as Hdescribed.
    destruct (reachable_config_ok P parsers requests config Hconfig) as [_ Hpatterns].
    rewrite Forall_forall in Hdescribed.
    destruct (Hdescribed _ (get_Some_elem _ _ _ Hget))
      as (_ & Hexcl & _ & (ext & Hcat & _) & _). simpl in *.
    pose proof (shouldExclude_plain P config relativePath Hpatterns Hexcl) as Hplain.
    apply Forall_cons in Hplain as [_ Hplain].
    apply Forall_cons in Hplain as [Hdist Hplain].
    apply Forall_cons in Hplain as [Hbuilt _].
    split; [done|]. split; [done|].
    rewrite Hbuild in Hcat. unfold Server.categorizeFile in Hcat.
    destruct (Js.includes _ ".output"); [by left|].
    destruct (Js.includes _ "dist"); [by right; left|].
    destruct (Js.includes _ "build"); [by right; right|].
    by repeat case_match.
  - rewrite (unconfigured_run P requests (Server.create parsers)) in Hget; done.
Qed.

Lemma X17_build_category_in_index_witness :
  ∃ fileInfo,
    Js.get ".output/server.mjs" (Server.fileIndex Project.ingested) = Some fileInfo
    ∧ fi_category fileInfo = CatBuild
    ∧ Js.includes ".output/server.mjs" "build" = false.
Proof.
  destruct (Js.get ".output/server.mjs" (Server.fileIndex Project.ingested))
    as [fileInfo|] eqn:Hget; [|vm_compute in Hget; discriminate].
  assert (Hbuild : fi_category fileInfo = CatBuild).
  { vm_compute in Hget. by injection Hget as <-. }
  destruct (X17_build_category_in_index Project.platform [Project.adapter]
              Project.requests _ _ Hget Hbuild) as (_ & Hbuilt & _).
  exists fileInfo. split; [reflexivity|]. split; [exact Hbuild | exact Hbuilt].
Defined.

(** * The parser's visitors and the cross-reference heuristic *)

(** X18. An import specifier counts as a reference to a symbol of another
    file exactly when the module specifier passes the path heuristic for
    that file and the symbol is named like the imported binding or like the
    local one: [default] or the local name for a default import, the
    imported or the local name for a named import, [*] or the local name
    for a namespace import.  Each specifier gives one symbol, filed under
    the importing file, and the one dependency of the declaration lists the
    local names, in order. *)
Theorem X18_import_specifier_matches
    (filePath : string) (node : ImportDeclaration) (spec : ImportSpecifierNode)
    (S : Symbol) :
  (importsSymbol (JsTs.importSymbol filePath node spec) S = true ↔
     import_source node ≠ ""
     ∧ isSymbolFromFile (import_source node) (sym_filePath S) = true
     ∧ (sym_name S = JsTs.importedName spec ∨ sym_name S = JsTs.localName spec))
  ∧ Forall (fun I => sym_filePath I = filePath ∧ sym_type I = SymImport)
      (JsTs.visitImportDeclaration filePath node).1
  ∧ dep_from (JsTs.visitImportDeclaration filePath node).2 = filePath
  ∧ specifiers (JsTs.visitImportDeclaration filePath node).2
    = sym_name <$> (JsTs.visitImportDeclaration filePath node).1.
Proof.
  split; [|split; [|split]].
  - unfold importsSymbol. simpl.
    rewrite !andb_true_iff, negb_true_iff, bool_decide_eq_false, orb_true_iff,
      !bool_decide_eq_true.
    split.
    + intros [[Hsource Hfile] [Hname|Hname]]; eauto.
    + intros (Hsource & Hfile & [Hname|Hname]); rewrite Hname; eauto.
  - simpl. apply Forall_fmap, Forall_forall. by intros I _.
  - done.
  - simpl. rewrite <- list_fmap_compose. by apply list_fmap_ext.
Qed.

(** X19. A default import is counted as a reference to the default export
    of the file it names only if the exported function, class or
    identifier is anonymous or has the name the import binds: with
    [export default function foo] in one file, [import bar from] that file
    adds no import reference to the export. *)
Theorem X19_default_import_needs_same_name
    (importer exporter local : string) (node : ImportDeclaration)
    (declaration : DefaultDeclaration) (loc : option Span) :
  let I := JsTs.importSymbol importer node (ImportDefaultSpecifier local) in
  let E := JsTs.visitExportDefaultDeclaration exporter declaration loc in
  importsSymbol I E = true →
  isSymbolFromFile (import_source node) exporter = true
  ∧ (JsTs.defaultExportName declaration = "default"
     ∨ JsTs.defaultExportName declaration = local).
Proof.
  intros I E HIE. unfold importsSymbol in HIE. simpl in HIE.
  rewrite !andb_true_iff, orb_true_iff, !bool_decide_eq_true in HIE.
  destruct HIE as [[_ Hfile] [Hname|Hname]]; eauto.
Qed.

Lemma X19_default_import_needs_same_name_witness :
  let node := {| import_source := "./a"; import_specifiers := [ImportDefaultSpecifier "foo"];
                 import_loc := Some (Example.lineSpan 1 0 20) |} in
  let foo := JsTs.visitExportDefaultDeclaration Example.aRel
               (FunctionDeclaration (Some "foo")) (Some (Example.lineSpan 1 0 30)) in
  importsSymbol (JsTs.importSymbol Example.bRel node (ImportDefaultSpecifier "foo")) foo
  = true
  ∧ importsSymbol (JsTs.importSymbol Example.bRel node (ImportDefaultSpecifier "bar")) foo
    = false
  ∧ isSymbolFromFile "./a" Example.aRel = true.
Proof.
  intros node foo.
  assert (Hfoo : importsSymbol
                   (JsTs.importSymbol Example.bRel node (ImportDefaultSpecifier "foo")) foo
                 = true) by reflexivity.
  destruct (X19_default_import_needs_same_name Example.bRel Example.aRel "foo" node
              (FunctionDeclaration (Some "foo")) (Some (Example.lineSpan 1 0 30)) Hfoo)
    as [Hfile _].
  split; [exact Hfoo|]. split; [reflexivity | exact Hfile].
Defined.
